(** * RAG_QA: chunking, embedding index, generation client and orchestrator

    A shallow embedding of the retrieval pipeline of the repository:
    - [src/document_processor.py]  (module [DocumentProcessor])
    - [src/vector_store.py]        (modules [Faiss] and [VectorStore])
    - [src/zhipu_client.py]        (module [ZhipuAIClient])
    - [src/rag_system.py], [src/config.py] (module [RAGSystem])

    Python exceptions are values of the type [exn]; a call that may raise
    returns a [result].  Files live in a finite map from paths to artifacts.
    Floating point numbers are kept abstract: the index is generic in the
    type of vector components and in the arithmetic on them. *)

From Stdlib Require Import ZArith NArith Ascii String List Lia Bool DecimalString.
From Stdlib Require Import Sorted.
From stdpp Require Import base list gmap strings fin_maps.

Local Open Scope Z_scope.
Set Warnings "-register-all".

(** ** Python values shared by all modules *)

Module Py.

(** A Python [str] is a sequence of Unicode code points. *)
Abbreviation str := (list N).

(** Decoding of UTF-8, to write [str] literals. *)
Fixpoint utf8_decode (bs : list N) : str :=
  match bs with
  | [] => []
  | b :: rest =>
      if (b <? 128)%N then b :: utf8_decode rest
      else if (b <? 224)%N then
        match rest with
        | c1 :: rest' => ((b - 192) * 64 + (c1 - 128))%N :: utf8_decode rest'
        | _ => []
        end
      else if (b <? 240)%N then
        match rest with
        | c1 :: c2 :: rest' =>
            ((b - 224) * 4096 + (c1 - 128) * 64 + (c2 - 128))%N
              :: utf8_decode rest'
        | _ => []
        end
      else
        match rest with
        | c1 :: c2 :: c3 :: rest' =>
            ((b - 240) * 262144 + (c1 - 128) * 4096
             + (c2 - 128) * 64 + (c3 - 128))%N :: utf8_decode rest'
        | _ => []
        end
  end.

Definition py (s : string) : str :=
  utf8_decode (map N_of_ascii (list_ascii_of_string s)).

(** [str(n)] for a non-negative int. *)
Definition str_of_nat (n : nat) : str :=
  py (NilEmpty.string_of_uint (Nat.to_uint n)).

(** [len] returns a Python int. *)
Definition len {A} (l : list A) : Z := Z.of_nat (length l).

(** [str.isspace] on one code point, which is also what [\s] matches in a
    [str] pattern and what [str.strip()] removes (CPython's
    [_PyUnicode_IsWhitespace]). *)
Definition isspace (c : N) : bool :=
  ((9 <=? c) && (c <=? 13) || (28 <=? c) && (c <=? 32)
   || (c =? 133) || (c =? 160) || (c =? 5760)
   || (8192 <=? c) && (c <=? 8202)
   || (c =? 8232) || (c =? 8233) || (c =? 8239) || (c =? 8287)
   || (c =? 12288))%N.

Fixpoint lstrip (s : str) : str :=
  match s with
  | [] => []
  | c :: rest => if isspace c then lstrip rest else s
  end.

Definition rstrip (s : str) : str := reverse (lstrip (reverse s)).

(** [s.strip()] *)
Definition strip (s : str) : str := lstrip (rstrip s).

(** Truth value of a sequence: [if s:] *)
Definition truthy {A} (l : list A) : bool :=
  match l with [] => false | _ => true end.

Definition SPACE : str := [32%N].

(** [sep.join(parts)] *)
Fixpoint join (sep : str) (parts : list str) : str :=
  match parts with
  | [] => []
  | [p] => p
  | p :: more => p ++ sep ++ join sep more
  end.

(** [needle in haystack] on two [str]. *)
Fixpoint is_prefix (p s : str) : bool :=
  match p, s with
  | [], _ => true
  | a :: p', b :: s' => (a =? b)%N && is_prefix p' s'
  | _ :: _, [] => false
  end.

Fixpoint is_substring (needle hay : str) : bool :=
  is_prefix needle hay ||
  match hay with
  | [] => false
  | _ :: hay' => is_substring needle hay'
  end.

(** A decoded JSON document, as [response.json()] returns it: [dict],
    [list], [str], a number (its value plays no role here), [bool] or
    [None].  A [dict] is the list of its items, each key once. *)
Inductive json :=
| JNull
| JBool (b : bool)
| JNum (n : Z)
| JStr (s : str)
| JArr (items : list json)
| JObj (fields : list (str * json)).

(** The failures of the requests library, subclasses of
    [requests.exceptions.RequestException].  [JSONDecodeError] is the one
    [response.json()] raises on a body that is no JSON document. *)
Inductive request_error :=
| Timeout
| ConnectionError
| HTTPError (status_code : Z)
| JSONDecodeError.

(** The exception classes that the modelled code raises or lets through;
    all of them derive from [Exception].  A message built by an f-string
    keeps its fields instead of their rendering. *)
Inductive exn :=
| RuntimeError (msg : string)
| ValueError (msg : string)
| FileNotFoundError (path : string)
| OSError (path : string)
| UnpicklingError
| IndexError
| KeyError (key : json)
| TypeError
| AttributeError
| AssertionError
| RequestException (e : request_error)
(** [Exception(f"API请求失败，已重试 {max_retries} 次: {e}")] *)
| Exception_request_failed (max_retries : Z) (e : request_error)
(** [Exception(f"API返回错误: {error_msg}")] *)
| Exception_api_error (error_msg : json)
(** [Exception(f"API响应解析失败: {e}")] *)
| Exception_parse_failed (e : exn)
(** [Exception("API调用失败，已达到最大重试次数")] *)
| Exception_max_retries.

Inductive result (A : Type) :=
| Ok (a : A)
| Raise (e : exn).
Arguments Ok {A} a.
Arguments Raise {A} e.

(** Sequencing: the first exception raised ends the computation. *)
#[export] Instance result_ret : MRet result := fun _ a => Ok a.
#[export] Instance result_bind : MBind result := fun _ _ k r =>
  match r with
  | Ok a => k a
  | Raise e => Raise e
  end.

(** A method that updates an object of type [S] and may raise: the
    object as the call leaves it, and what the call returned or raised. *)
Definition prog (S A : Type) : Type := S -> S * result A.

#[export] Instance prog_ret {S} : MRet (prog S) := fun _ a s => (s, Ok a).
#[export] Instance prog_bind {S} : MBind (prog S) := fun _ _ k m s =>
  match m s with
  | (s', Ok a) => k a s'
  | (s', Raise e) => (s', Raise e)
  end.

Definition raise {S A} (e : exn) : prog S A := fun s => (s, Raise e).
Definition get {S} : prog S S := fun s => (s, Ok s).
Definition modify {S} (f : S -> S) : prog S unit := fun s => (f s, Ok tt).
Definition lift {S A} (r : result A) : prog S A := fun s => (s, r).

(** [l[i]] on a Python list, negative positions counting from the end. *)
Definition getitem {A} (l : list A) (i : Z) : result A :=
  let n := len l in
  let j := if i <? 0 then n + i else i in
  if (0 <=? j) && (j <? n)
  then match l !! Z.to_nat j with Some a => Ok a | None => Raise IndexError end
  else Raise IndexError.

(** [x or y] where [x] is [None] or an int. *)
Definition or_int (x : option Z) (y : Z) : Z :=
  match x with
  | Some v => if v =? 0 then y else v
  | None => y
  end.

(** [os.path.join(a, b)] for a relative [b] (POSIX). *)
Definition path_join (a b : string) : string :=
  if String.eqb a "" then b
  else if String.eqb (substring (String.length a - 1) 1 a) "/"
       then (a ++ b)%string
       else (a ++ "/" ++ b)%string.

End Py.

Import Py.

(** ** src/config.py *)

Record Config := {
  EMBEDDING_MODEL_PATH : string;
  VECTOR_STORE_PATH : string;
  CHUNK_SIZE : Z;
  CHUNK_OVERLAP : Z;
  MAX_RETRIEVAL_DOCS : Z;
}.

(** The values used when the environment sets none of the variables. *)
Definition default_config : Config :=
  {| EMBEDDING_MODEL_PATH := "./models";
     VECTOR_STORE_PATH := "./data/vector_store";
     CHUNK_SIZE := 500; CHUNK_OVERLAP := 50; MAX_RETRIEVAL_DOCS := 3 |}.

(** ** src/document_processor.py *)

Module DocumentProcessor.

(** The sentence-ending marks of the pattern: [。！？.!?] *)
Definition is_mark (c : N) : bool :=
  ((c =? 12290) || (c =? 65281) || (c =? 65311)
   || (c =? 46) || (c =? 33) || (c =? 63))%N.

(** [re.split(r'(?<=[。！？\.!?])\s*', text)].  The pattern matches at every
    position that follows a mark and spans the run of whitespace that starts
    there (possibly empty; Python 3.7 and later split on empty matches too).
    [skipping] is true while the scan is inside such a run: the piece before
    it was closed by the mark, the whitespace belongs to no piece.  The text
    after the last match is always a piece, also when it is empty. *)
Fixpoint re_split (skipping : bool) (text : str) : list str :=
  match text with
  | [] => [[]]
  | c :: rest =>
      if skipping && isspace c then re_split true rest
      else
        let pieces := re_split (is_mark c) rest in
        if is_mark c then [c] :: pieces
        else match pieces with
             | piece :: more => (c :: piece) :: more
             | [] => [[c]]
             end
  end.

Record splitter := {
  chunks : list str;
  current_chunk : str;
}.

Section Split.

Variables (chunk_size chunk_overlap : Z).

(** One round of the [for sentence in sentences] loop. *)
Definition step (st : splitter) (sentence : str) : splitter :=
  let sentence := strip sentence in
  if negb (truthy sentence) then st
  else if len (current_chunk st) + len sentence <=? chunk_size then
    {| chunks := chunks st;
       current_chunk := current_chunk st ++ sentence ++ SPACE |}
  else
    let chunks' :=
      if truthy (current_chunk st)
      then chunks st ++ [strip (current_chunk st)]
      else chunks st in
    match (if 0 <? chunk_overlap then last chunks' else None) with
    | Some last_chunk =>
        let overlap_start := Z.max 0 (len last_chunk - chunk_overlap) in
        {| chunks := chunks';
           current_chunk :=
             drop (Z.to_nat overlap_start) last_chunk
               ++ SPACE ++ sentence ++ SPACE |}
    | None =>
        {| chunks := chunks'; current_chunk := sentence ++ SPACE |}
    end.

Definition finish (st : splitter) : list str :=
  if truthy (current_chunk st)
  then chunks st ++ [strip (current_chunk st)]
  else chunks st.

(** [DocumentProcessor._split_text] *)
Definition _split_text (text : str) : list str :=
  let sentences := re_split false text in
  finish (fold_left step sentences {| chunks := []; current_chunk := [] |}).

End Split.

(** The dicts that [load_documents] and [split_documents] build. *)
Record document := {
  doc_file_name : str;
  doc_content : str;
  doc_type : str;
}.

Record chunk := {
  file_name : str;
  content : str;
  chunk_id : Z;
  type : str;
}.

(** [DocumentProcessor.split_documents] *)
Definition split_documents (chunk_size chunk_overlap : Z)
    (documents : list document) : list chunk :=
  doc ← documents;
  imap (fun i text =>
          {| file_name := doc_file_name doc; content := text;
             chunk_id := Z.of_nat i; type := doc_type doc |})
       (_split_text chunk_size chunk_overlap (doc_content doc)).

(** The attributes of a [DocumentProcessor] object. *)
Record t := {
  chunk_size : Z;
  chunk_overlap : Z;
}.

End DocumentProcessor.

Import DocumentProcessor.


(** ** The nearest-neighbour library

    [faiss] is not part of the repository.  What [vector_store.py] relies on
    is modelled after the library's documented behaviour: a flat index
    keeps the added vectors in insertion order and a search compares the
    query with each of them. *)

(** The arithmetic of vector components ([float32] in the program). *)
Class Float (F : Type) := {
  fzero : F;
  fadd : F -> F -> F;
  fmul : F -> F -> F;
  flt : F -> F -> bool;
  (** [1 / sqrt x] *)
  frsqrt : F -> F;
  (** the distance reported for a missing neighbour *)
  flowest : F;
  (** [f"{x:.4f}"] *)
  format_4f : F -> str;
}.

Module Faiss.
Section Flat.

Context `{Float F}.

Abbreviation vector := (list F).

Record IndexFlatIP := {
  d : Z;
  xb : list vector;
}.

(** [faiss.IndexFlatIP(d)] *)
Definition new (dimension : Z) : IndexFlatIP := {| d := dimension; xb := [] |}.

Definition ntotal (ix : IndexFlatIP) : Z := len (xb ix).

Definition inner_product (x y : vector) : F :=
  foldr fadd fzero (zip_with fmul x y).

(** [faiss.normalize_L2] on one row: a row of norm zero is left alone. *)
Definition normalize_L2 (x : vector) : vector :=
  let nr := inner_product x x in
  if flt fzero nr then fmul (frsqrt nr) <$> x else x.

(** [index.add(x)]: the wrapper asserts that the rows have [d] columns. *)
Definition add (ix : IndexFlatIP) (x : list vector) : result IndexFlatIP :=
  if forallb (fun row => len row =? d ix) x
  then Ok {| d := d ix; xb := xb ix ++ x |}
  else Raise AssertionError.

(** Ranking, best score first.  Of two equal scores the earlier vector
    comes first here; the order that faiss gives to equal scores comes
    from its heap and can be another one, and no property below depends
    on it. *)
Fixpoint insert_hit (h : F * Z) (ranked : list (F * Z)) : list (F * Z) :=
  match ranked with
  | [] => [h]
  | h' :: more =>
      if flt h.1 h'.1 then h' :: insert_hit h more else h :: ranked
  end.

Definition rank (scored : list (F * Z)) : list (F * Z) :=
  foldr insert_hit [] scored.

(** [index.search(x, k)] for one query row: [(distance, label)] for the [k]
    best vectors, best first.  The wrapper asserts the query's dimension
    and [k > 0].  When the index holds fewer than [k] vectors the missing
    places are filled with the label [-1]. *)
Definition search (ix : IndexFlatIP) (x : vector) (k : Z)
    : result (list (F * Z)) :=
  if negb (len x =? d ix) then Raise AssertionError
  else if negb (0 <? k) then Raise AssertionError
  else
    let scored := imap (fun i v => (inner_product x v, Z.of_nat i)) (xb ix) in
    let found := take (Z.to_nat k) (rank scored) in
    Ok (found ++ replicate (Z.to_nat k - length found)%nat (flowest, -1)).

End Flat.
Arguments IndexFlatIP F : clear implicits.
End Faiss.

(** ** src/vector_store.py *)

Module VectorStore.
Section Store.

Context `{Float F}.

(** The embedding model.  [embed] is the vector of one text; a call of
    [encode] on a batch either raises or returns the vectors of the texts
    in order.  An empty batch gives an array of shape [(0,)]. *)
Record SentenceTransformer := {
  embed : str -> list F;
  encode_raises : list str -> option exn;
}.

Definition encode (m : SentenceTransformer) (texts : list str)
    : result (list (list F)) :=
  match encode_raises m texts with
  | Some e => Raise e
  | None => Ok (embed m <$> texts)
  end.

(** [embeddings.shape[1]]: the array of an empty batch has one axis
    only. *)
Definition shape_1 (embeddings : list (list F)) : result Z :=
  match embeddings with
  | [] => Raise IndexError
  | row :: _ => Ok (len row)
  end.

(** What a path of the file system holds: a complete index file, a
    complete pickle of a chunk list, what an interrupted write has left
    of a file, or anything else. *)
Inductive file :=
| FaissFile (ix : Faiss.IndexFlatIP F)
| PickleFile (chunks : list chunk)
| CutShortFile
| OtherFile.

(** How a write can go wrong.  Both writers open the file for writing in
    binary mode, which empties it, write to it in place and close it.
    - [RefusedAtOpen]: the file cannot be opened; it is as it was.
    - [CutShort]: the file was opened, and so emptied, and a write to it
      failed.
    - [LostAtClose]: the data were buffered and the failure shows when
      the file is closed; the file was opened, and so emptied. *)
Inductive fault :=
| RefusedAtOpen
| CutShort
| LostAtClose.

(** The file system: the files, the fate of the writes to come, in
    order ([None] for a write that succeeds, as do all writes once the
    list is used up), and what [os.makedirs(path, exist_ok=True)] raises
    for a path, if anything (a file in the way, a missing permission).
    Directories hold no content of their own and are not recorded. *)
Record world := {
  files : gmap string file;
  faults : list (option fault);
  makedirs_error : string -> option exn;
}.

(** [os.makedirs(path, exist_ok=True)] *)
Definition makedirs (path : string) : prog world unit :=
  fun w =>
    match makedirs_error w path with
    | Some e => (w, Raise e)
    | None => (w, Ok tt)
    end.

(** The fate of the next write, and the file system that has seen it. *)
Definition next_write (w : world) : option fault * world :=
  (default None (head (faults w)),
   {| files := files w; faults := tail (faults w);
      makedirs_error := makedirs_error w |}).

Definition put (path : string) (f : file) (w : world) : world :=
  {| files := <[path := f]> (files w); faults := faults w;
     makedirs_error := makedirs_error w |}.

(** [faiss.write_index(index, path)].  The writer of faiss raises when
    [fopen] or [fwrite] fails; a failure of [fclose] happens in a
    destructor, which prints a message and raises nothing. *)
Definition write_index (ix : Faiss.IndexFlatIP F) (path : string)
    : prog world unit :=
  fun w =>
    let '(fate, w) := next_write w in
    match fate with
    | None => (put path (FaissFile ix) w, Ok tt)
    | Some RefusedAtOpen =>
        (w, Raise (RuntimeError
                     "Error in faiss::FileIOWriter: could not open for writing"))
    | Some CutShort =>
        (put path CutShortFile w,
         Raise (RuntimeError "Error in faiss::write_index: write error"))
    | Some LostAtClose => (put path CutShortFile w, Ok tt)
    end.

(** [with open(path, 'wb') as f: pickle.dump(chunks, f)].  Leaving the
    [with] block closes the file, and a failure there raises as one of
    [open] or [write] does. *)
Definition pickle_dump (chunks : list chunk) (path : string)
    : prog world unit :=
  fun w =>
    let '(fate, w) := next_write w in
    match fate with
    | None => (put path (PickleFile chunks) w, Ok tt)
    | Some RefusedAtOpen => (w, Raise (OSError path))
    | Some CutShort | Some LostAtClose =>
        (put path CutShortFile w, Raise (OSError path))
    end.

(** [os.path.exists] *)
Definition path_exists (w : world) (path : string) : bool :=
  bool_decide (is_Some (files w !! path)).

(** [faiss.read_index] *)
Definition read_index (w : world) (path : string)
    : result (Faiss.IndexFlatIP F) :=
  match files w !! path with
  | Some (FaissFile ix) => Ok ix
  | Some _ => Raise (RuntimeError "Error in faiss::read_index")
  | None =>
      Raise (RuntimeError "Error in faiss::read_index: could not open for reading")
  end.

(** [with open(path, 'rb') as f: pickle.load(f)] *)
Definition pickle_load (w : world) (path : string) : result (list chunk) :=
  match files w !! path with
  | Some (PickleFile chunks) => Ok chunks
  | Some _ => Raise UnpicklingError
  | None => Raise (FileNotFoundError path)
  end.

(** The attributes of a [VectorStore] object. *)
Record t := {
  model : option SentenceTransformer;
  index : option (Faiss.IndexFlatIP F);
  chunks : list chunk;
}.

Definition set_index (ix : option (Faiss.IndexFlatIP F)) (self : t) : t :=
  {| model := model self; index := ix; chunks := chunks self |}.

Definition set_chunks (cs : list chunk) (self : t) : t :=
  {| model := model self; index := index self; chunks := cs |}.

(** One entry of a search result: the copied chunk and its score. *)
Record hit := {
  hit_chunk : chunk;
  similarity_score : F;
}.

(** [VectorStore.__init__], once the model [m] is loaded. *)
Definition init (m : SentenceTransformer) : t :=
  {| model := Some m; index := None; chunks := [] |}.

(** The module-level flag set by the import of faiss. *)
Variable FAISS_AVAILABLE : bool.

(** [VectorStore.build_index] *)
Definition build_index (chunks : list chunk) : prog t unit :=
  if negb FAISS_AVAILABLE
  then raise (RuntimeError "FAISS不可用，无法构建向量索引")
  else
    self ← get;
    match model self with
    | None => raise (RuntimeError "嵌入模型未初始化")
    | Some m =>
        let texts := content <$> chunks in
        modify (set_chunks chunks);;
        embeddings ← lift (encode m texts);
        dimension ← lift (shape_1 embeddings);
        modify (set_index (Some (Faiss.new dimension)));;
        let embeddings := Faiss.normalize_L2 <$> embeddings in
        ix ← lift (Faiss.add (Faiss.new dimension) embeddings);
        modify (set_index (Some ix))
    end.

(** The loop of [search] over [zip(scores[0], indices[0])]. *)
Fixpoint collect (chunks : list chunk) (found : list (F * Z))
    : result (list hit) :=
  match found with
  | [] => Ok []
  | (score, idx) :: more =>
      if idx <? len chunks then
        chunk_info ← getitem chunks idx;
        results ← collect chunks more;
        Ok ({| hit_chunk := chunk_info; similarity_score := score |}
              :: results)
      else collect chunks more
  end.

(** [VectorStore.search] *)
Definition search (self : t) (query : str) (top_k : Z) : result (list hit) :=
  match index self with
  | None => Raise (RuntimeError "向量索引未构建，请先调用 build_index()")
  | Some ix =>
      match model self with
      | None => Raise AttributeError
      | Some m =>
          query_embedding ← encode m [query];
          let query_embedding := Faiss.normalize_L2 <$> query_embedding in
          row ← getitem query_embedding 0;
          found ← Faiss.search ix row top_k;
          collect (chunks self) found
      end
  end.

(** [VectorStore.save_index], for the object [self]. *)
Definition save_index (self : t) (save_path : string) : prog world unit :=
  match index self with
  | None => raise (RuntimeError "没有可保存的索引")
  | Some ix =>
      makedirs save_path;;
      write_index ix (path_join save_path "index.faiss");;
      pickle_dump (chunks self) (path_join save_path "chunks.pkl")
  end.

(** [VectorStore.load_index], reading the file system [w]. *)
Definition load_index (w : world) (load_path : string) : prog t unit :=
  if negb FAISS_AVAILABLE
  then raise (RuntimeError "FAISS不可用，无法加载向量索引")
  else
    let index_path := path_join load_path "index.faiss" in
    if negb (path_exists w index_path)
    then raise (FileNotFoundError index_path)
    else
      ix ← lift (read_index w index_path);
      modify (set_index (Some ix));;
      let chunks_path := path_join load_path "chunks.pkl" in
      cs ← lift (pickle_load w chunks_path);
      modify (set_chunks cs).

End Store.
Arguments SentenceTransformer F : clear implicits.
Arguments file F : clear implicits.
Arguments world F : clear implicits.
Arguments t F : clear implicits.
Arguments hit F : clear implicits.
End VectorStore.

(** ** src/zhipu_client.py *)

Module ZhipuAIClient.

Record message := {
  role : str;
  msg_content : str;
}.

(** What one [requests.post] comes back with: an exception of the
    transport, or a response with its status code and its body, decoded
    when it is a JSON document. *)
Inductive reply :=
| NoResponse (e : request_error)
| Response (status_code : Z) (body : option json).

(** The remote service: its reply to the messages at each attempt. *)
Abbreviation service := (list message -> nat -> reply).

Record t := {
  api_key : str;
  max_retries : Z;
  timeout : Z;
}.

(** [ZhipuAIClient.__init__] with a key. *)
Definition init (key : str) : t :=
  {| api_key := key; max_retries := 3; timeout := 30 |}.

(** *** Python's operations on decoded JSON *)

Definition field (key : str) (fields : list (str * json)) : option json :=
  snd <$> find (fun kv => bool_decide (kv.1 = key)) fields.

(** [key in x] *)
Definition contains (key : str) (x : json) : result bool :=
  match x with
  | JObj fields => Ok (bool_decide (is_Some (field key fields)))
  | JArr items =>
      Ok (existsb (fun v => match v with
                            | JStr s => bool_decide (s = key)
                            | _ => false
                            end) items)
  | JStr s => Ok (is_substring key s)
  | _ => Raise TypeError
  end.

(** [x[key]] *)
Definition subscript (x key : json) : result json :=
  match x, key with
  | JObj fields, JStr k =>
      match field k fields with
      | Some v => Ok v
      | None => Raise (KeyError key)
      end
  | JObj _, _ => Raise (KeyError key)
  | JArr items, JNum i => getitem items i
  | JStr s, JNum i => c ← getitem s i; Ok (JStr [c])
  | _, _ => Raise TypeError
  end.

(** [len(x)] *)
Definition length_of (x : json) : result Z :=
  match x with
  | JObj fields => Ok (len fields)
  | JArr items => Ok (len items)
  | JStr s => Ok (len s)
  | _ => Raise TypeError
  end.

(** [x.strip()] *)
Definition strip_of (x : json) : result str :=
  match x with
  | JStr s => Ok (strip s)
  | _ => Raise AttributeError
  end.

(** [x.get(key, fallback)] *)
Definition get_of (x : json) (key : str) (fallback : json) : result json :=
  match x with
  | JObj fields => Ok (default fallback (field key fields))
  | _ => Raise AttributeError
  end.

(** *** generate_response *)

(** The part of the [try] block after [result = response.json()]. *)
Definition extract (result : json) : Py.result str :=
  has_choices ← contains (py "choices") result;
  some_choice ←
    (if has_choices : bool then
       choices ← subscript result (JStr (py "choices"));
       n ← length_of choices;
       Ok (0 <? n)
     else Ok false);
  if some_choice : bool then
    choices ← subscript result (JStr (py "choices"));
    first ← subscript choices (JNum 0);
    msg ← subscript first (JStr (py "message"));
    text ← subscript msg (JStr (py "content"));
    strip_of text
  else Raise (ValueError "API响应格式异常").

(** The handler [except (KeyError, ValueError) as e]: the exception that
    leaves it. *)
Definition on_parse_error (result : json) (e : exn) : exn :=
  match contains (py "error") result with
  | Raise e' => e'
  | Ok true =>
      match (err ← subscript result (JStr (py "error"));
             get_of err (py "message") (JStr (py "未知错误"))) with
      | Ok error_msg => Exception_api_error error_msg
      | Raise e' => e'
      end
  | Ok false => Exception_parse_failed e
  end.

(** The loop [for attempt in range(self.max_retries)] over the attempts
    still to make.  Returns what [generate_response] returns or raises,
    and the number of requests that were posted. *)
Fixpoint retry_loop (post : nat -> reply) (max_retries : Z)
    (attempts : list nat) : result str * nat :=
  match attempts with
  | [] => (Raise Exception_max_retries, 0%nat)
  | attempt :: later =>
      (* except requests.exceptions.RequestException as e *)
      let on_request_exception (e : request_error) :=
        if Z.of_nat attempt =? max_retries - 1
        then (Raise (Exception_request_failed max_retries e), 1%nat)
        else let '(r, n) := retry_loop post max_retries later in (r, S n) in
      match post attempt with
      | NoResponse e => on_request_exception e
      | Response status_code body =>
          (* response.raise_for_status() *)
          if (400 <=? status_code) && (status_code <? 600)
          then on_request_exception (HTTPError status_code)
          else
            (* result = response.json() *)
            match body with
            | None => on_request_exception JSONDecodeError
            | Some result =>
                match extract result with
                | Ok text => (Ok text, 1%nat)
                | Raise (KeyError _ as e) | Raise (ValueError _ as e) =>
                    (Raise (on_parse_error result e), 1%nat)
                | Raise e => (Raise e, 1%nat)
                end
            end
      end
  end.

(** [ZhipuAIClient.generate_response].  The request carries the messages;
    its other fields (model, max_tokens, temperature, top_p, stream) are
    the defaults. *)
Definition generate_response (srv : service) (self : t)
    (messages : list message) : result str * nat :=
  retry_loop (srv messages) (max_retries self)
    (seq 0 (Z.to_nat (max_retries self))).

(** [ZhipuAIClient.chat] *)
Definition chat (srv : service) (self : t) (user_message : str)
    (system_prompt : option str)
    (conversation_history : option (list message)) : result str * nat :=
  let messages :=
    match system_prompt with
    | Some p =>
        if truthy p then [{| role := py "system"; msg_content := p |}] else []
    | None => []
    end in
  let messages := messages ++ default [] conversation_history in
  let messages :=
    messages ++ [{| role := py "user"; msg_content := user_message |}] in
  generate_response srv self messages.

Definition default_system_prompt : str := py
"你是一个智能助手，基于用户提供的参考信息来回答问题。
请遵循以下规则：
1. 仔细阅读参考信息，确保回答准确
2. 如果参考信息中包含答案，请基于参考信息回答
3. 如果参考信息中没有答案，请明确说明并基于你的知识回答
4. 回答要简洁明了，重点突出
5. 如果参考信息不相关或不足以回答问题，请诚实说明".

(** [ZhipuAIClient.rag_chat] *)
Definition rag_chat (srv : service) (self : t) (question context : str)
    (system_prompt : option str) : result str * nat :=
  let system_prompt :=
    match system_prompt with
    | Some p => if truthy p then p else default_system_prompt
    | None => default_system_prompt
    end in
  let user_message :=
    py "请基于以下参考信息回答问题：

参考信息：
" ++ context ++ py "

问题：
" ++ question ++ py "

请基于参考信息回答问题，如果参考信息不够充分，请说明。" in
  chat srv self user_message (Some system_prompt) None.

End ZhipuAIClient.

(** ** src/rag_system.py *)

Module RAGSystem.
Section Orchestrator.

Context `{Float F}.

Record t := {
  document_processor : option DocumentProcessor.t;
  vector_store : option (VectorStore.t F);
  llm_client : option ZhipuAIClient.t;
  is_initialized : bool;
}.

(** [RAGSystem.__init__] *)
Definition init : t :=
  {| document_processor := None; vector_store := None; llm_client := None;
     is_initialized := false |}.

(** The three dicts [ask_question] returns.  The wall-clock timings under
    ["performance"] are left out. *)
Inductive response :=
(** [{"success": False, "answer": "系统未初始化，请先调用initialize()方法",
      "error": "System not initialized"}] *)
| NotInitialized
(** [{"success": True, "question", "answer", "references", "context_used",
      "performance": {"references_count"}}] *)
| Answered (question answer : str) (references : list (VectorStore.hit F))
    (context_used : str) (references_count : Z)
(** [{"success": False, "question",
      "answer": f"抱歉，回答问题时报错: {str(e)}", "error": str(e)}] *)
| Failed (question : str) (e : exn).

Definition success (r : response) : bool :=
  match r with
  | Answered _ _ _ _ _ => true
  | _ => false
  end.

(** The text under ["error"], as the exception it renders or the fixed
    text of the first dict. *)
Inductive error_text :=
| SystemNotInitialized
| StrOf (e : exn).

Definition error (r : response) : option error_text :=
  match r with
  | NotInitialized => Some SystemNotInitialized
  | Answered _ _ _ _ _ => None
  | Failed _ e => Some (StrOf e)
  end.

(** The text under ["answer"]. *)
Inductive answer_text :=
| PleaseInitialize
| Generated (text : str)
| Apology (e : exn).

Definition answer (r : response) : answer_text :=
  match r with
  | NotInitialized => PleaseInitialize
  | Answered _ a _ _ _ => Generated a
  | Failed _ e => Apology e
  end.

(** One part of the context block. *)
Definition context_part (i : nat) (ref : VectorStore.hit F) : str :=
  py "[文档 " ++ str_of_nat (i + 1) ++ py "] 来源: "
    ++ file_name (VectorStore.hit_chunk ref) ++ py "
内容: " ++ content (VectorStore.hit_chunk ref) ++ py "
相似度: " ++ format_4f (VectorStore.similarity_score ref).

Variable cfg : Config.
Variable srv : ZhipuAIClient.service.

(** The body of the [try] block of [ask_question], from the search on,
    with the number of results to retrieve settled. *)
Definition answer_with (self : t) (question : str) (top_k : Z)
    (include_references : bool) : result response :=
  vs ← match vector_store self with
       | Some vs => Ok vs
       | None => Raise AttributeError
       end;
  references ← VectorStore.search vs question top_k;
  let context :=
    if truthy references && include_references
    then join (py "

") (imap context_part references)
    else [] in
  llm ← match llm_client self with
        | Some llm => Ok llm
        | None => Raise AttributeError
        end;
  text ← (if truthy context
          then (ZhipuAIClient.rag_chat srv llm question context None).1
          else (ZhipuAIClient.chat srv llm question None None).1);
  Ok (Answered question text
        (if include_references then references else [])
        (if include_references then context else [])
        (len references)).

(** [RAGSystem.ask_question] *)
Definition ask_question (self : t) (question : str) (top_k : option Z)
    (include_references : bool) : result response :=
  if negb (is_initialized self) then Ok NotInitialized
  else
    match (let top_k := or_int top_k (MAX_RETRIEVAL_DOCS cfg) in
           answer_with self question top_k include_references) with
    | Ok r => Ok r
    | Raise e => Ok (Failed question e)   (* except Exception as e *)
    end.

End Orchestrator.
Arguments t F : clear implicits.
Arguments response F : clear implicits.
End RAGSystem.

(** ** Exact arithmetic for examples

    Integers as vector components, to run the definitions.  [frsqrt] is
    exact at 1 only: the examples use vectors of norm 1. *)

#[export] Instance Z_float : Float Z := {|
  fzero := 0;
  fadd := Z.add;
  fmul := Z.mul;
  flt := Z.ltb;
  frsqrt := fun x => 1 / Z.sqrt x;
  flowest := - 340282346638528859811704183484516925440;
  format_4f := fun x =>
    (if x <? 0 then py "-" else [])
      ++ py (NilEmpty.string_of_uint (N.to_uint (Z.abs_N x))) ++ py ".0000";
|}.

Module Examples.

Import DocumentProcessor.

(** A model that embeds a text by its first letter: texts starting with
    [a] go to the first axis, all others to the second. *)
Definition by_first_letter (s : str) : list Z :=
  match s with
  | 97%N :: _ => [1; 0]
  | _ => [0; 1]
  end.

Definition toy_model : VectorStore.SentenceTransformer Z :=
  {| VectorStore.embed := by_first_letter;
     VectorStore.encode_raises := fun _ => None |}.

(** The same model when every call of [encode] runs out of memory. *)
Definition failing_model : VectorStore.SentenceTransformer Z :=
  {| VectorStore.embed := by_first_letter;
     VectorStore.encode_raises :=
       fun _ => Some (RuntimeError "out of memory") |}.

Definition mk_chunk (text : string) (i : Z) : chunk :=
  {| file_name := py "a.txt"; content := py text; chunk_id := i;
     type := py "txt" |}.

Definition two_chunks : list chunk := [mk_chunk "alpha." 0; mk_chunk "beta." 1].

Definition empty_world : VectorStore.world Z :=
  {| VectorStore.files := ∅; VectorStore.faults := [];
     VectorStore.makedirs_error := fun _ => None |}.

(** A model whose [encode] fails on a batch that holds the text [boom.] *)
Definition flaky_model : VectorStore.SentenceTransformer Z :=
  {| VectorStore.embed := by_first_letter;
     VectorStore.encode_raises := fun texts =>
       if bool_decide (py "boom." ∈ texts)
       then Some (RuntimeError "out of memory") else None |}.

(** A store built over [two_chunks]. *)
Definition built (m : VectorStore.SentenceTransformer Z) : VectorStore.t Z :=
  (VectorStore.build_index true two_chunks (VectorStore.init m)).1.

(** A store built over one other chunk, and the files its save leaves
    under [store], on a device that completes one more write and then
    refuses to open a file. *)
Definition old_store : VectorStore.t Z :=
  (VectorStore.build_index true [mk_chunk "old." 0]
     (VectorStore.init toy_model)).1.

Definition old_world : VectorStore.world Z :=
  {| VectorStore.files :=
       VectorStore.files
         (VectorStore.save_index old_store "store" empty_world).1;
     VectorStore.faults := [None; Some VectorStore.RefusedAtOpen];
     VectorStore.makedirs_error := fun _ => None |}.

(** The same files on a device where the second write fails after the
    file was opened, and on one where the first write is lost when the
    file is closed. *)
Definition old_world_cut : VectorStore.world Z :=
  {| VectorStore.files := VectorStore.files old_world;
     VectorStore.faults := [None; Some VectorStore.CutShort];
     VectorStore.makedirs_error := fun _ => None |}.

Definition old_world_lossy : VectorStore.world Z :=
  {| VectorStore.files := VectorStore.files old_world;
     VectorStore.faults := [Some VectorStore.LostAtClose];
     VectorStore.makedirs_error := fun _ => None |}.

(** Files where the chunk artifact is missing, and files where it holds
    one chunk for an index of two vectors. *)
Definition index_of_two : Faiss.IndexFlatIP Z :=
  {| Faiss.d := 2; Faiss.xb := [[1; 0]; [0; 1]] |}.

Definition world_without_chunks : VectorStore.world Z :=
  {| VectorStore.files :=
       {[ "store/index.faiss" := VectorStore.FaissFile index_of_two ]};
     VectorStore.faults := [];
     VectorStore.makedirs_error := fun _ => None |}.

Definition world_mismatched : VectorStore.world Z :=
  {| VectorStore.files :=
       <[ "store/chunks.pkl" :=
            VectorStore.PickleFile [mk_chunk "alpha." 0] ]>
         {[ "store/index.faiss" := VectorStore.FaissFile index_of_two ]};
     VectorStore.faults := [];
     VectorStore.makedirs_error := fun _ => None |}.

(** Bodies of the generation service. *)
Definition good_body (text : string) : json :=
  JObj [(py "choices",
         JArr [JObj [(py "index", JNum 0);
                     (py "message",
                      JObj [(py "role", JStr (py "assistant"));
                            (py "content", JStr (py text))])]])].

Definition error_body (msg : string) : json :=
  JObj [(py "error", JObj [(py "code", JStr (py "1002"));
                           (py "message", JStr (py msg))])].

(** A service that answers 500 twice and then 200. *)
Definition recovering : ZhipuAIClient.service := fun _ attempt =>
  if (attempt <? 2)%nat then ZhipuAIClient.Response 500 None
  else ZhipuAIClient.Response 200 (Some (good_body " Paris. ")).

(** A service that always answers 500. *)
Definition down : ZhipuAIClient.service := fun _ _ =>
  ZhipuAIClient.Response 500 None.

(** A service that rejects the key: 401 with an error payload. *)
Definition unauthorized : ZhipuAIClient.service := fun _ _ =>
  ZhipuAIClient.Response 401 (Some (error_body "invalid api key")).

(** A service that reports an error in a 200 response. *)
Definition rejecting : ZhipuAIClient.service := fun _ _ =>
  ZhipuAIClient.Response 200 (Some (error_body "quota exceeded")).

(** A service whose first body is no JSON document. *)
Definition garbled_once : ZhipuAIClient.service := fun _ attempt =>
  match attempt with
  | O => ZhipuAIClient.Response 200 None
  | _ => ZhipuAIClient.Response 200 (Some (good_body "Paris."))
  end.

Definition hello : list ZhipuAIClient.message :=
  [{| ZhipuAIClient.role := py "user";
      ZhipuAIClient.msg_content := py "What is the capital of France?" |}].

(** An orchestrator after a successful [initialize]. *)
Definition ready : RAGSystem.t Z :=
  {| RAGSystem.document_processor :=
       Some {| chunk_size := 500; chunk_overlap := 50 |};
     RAGSystem.vector_store := Some (built toy_model);
     RAGSystem.llm_client := Some (ZhipuAIClient.init (py "key"));
     RAGSystem.is_initialized := true |}.

End Examples.

(** * The rest of the pipeline *)

(** ** src/document_processor.py: loading the documents *)

Module DocumentLoader.

Import DocumentProcessor.

(** [s.endswith(suffix)] *)
Definition endswith (s suffix : str) : bool :=
  is_prefix (reverse suffix) (reverse s).

(** What the documents directory holds under one name: what reading the
    file as UTF-8 text returns or raises, and what the PDF reader makes of
    it, its pages with what [extract_text] returns or raises for each.
    The name decides which of the two readers is used. *)
Record entry := {
  name : str;
  read_text : result str;
  read_pages : result (list (result str));
}.

(** The directory [docs_dir]: missing, not listable ([os.listdir]
    raises), or its entries in the order [os.listdir] gives them. *)
Inductive directory :=
| Missing
| Unlistable (e : exn)
| Listing (entries : list entry).

(** [DocumentProcessor._load_txt] *)
Definition _load_txt (e : entry) : str :=
  match read_text e with
  | Ok content => strip content
  | Raise _ => []
  end.

(** The loop [for page in reader.pages: text += page.extract_text() + "\n"] *)
Fixpoint extract_pages (pages : list (result str)) (text : str)
    : result str :=
  match pages with
  | [] => Ok text
  | page :: more =>
      page_text ← page;
      extract_pages more (text ++ page_text ++ [10%N])
  end.

(** [DocumentProcessor._load_pdf] *)
Definition _load_pdf (e : entry) : str :=
  match (pages ← read_pages e; extract_pages pages []) with
  | Ok text => strip text
  | Raise _ => []
  end.

(** One round of the loop of [load_documents] over the file names. *)
Definition load_entry (e : entry) : list document :=
  if endswith (name e) (py ".txt") then
    let content := _load_txt e in
    if truthy content
    then [{| doc_file_name := name e; doc_content := content;
             doc_type := py "txt" |}]
    else []
  else if endswith (name e) (py ".pdf") then
    let content := _load_pdf e in
    if truthy content
    then [{| doc_file_name := name e; doc_content := content;
             doc_type := py "pdf" |}]
    else []
  else [].

(** [DocumentProcessor.load_documents] *)
Definition load_documents (docs_dir : directory) : result (list document) :=
  match docs_dir with
  | Missing => Ok []
  | Unlistable e => Raise e
  | Listing entries => Ok (entries ≫= load_entry)
  end.

End DocumentLoader.

(** ** src/rag_system.py and src/config.py: the life cycle *)

Module RAGLifecycle.
Section Lifecycle.

Context `{Float F}.

Import DocumentProcessor DocumentLoader.

(** What the process finds around it: the API key of the configuration,
    the documents directory [self.docs_dir], what loading the embedding
    model gives ([VectorStore.__init__] raises what [_initialize_model]
    raises), and whether faiss could be imported. *)
Record environment := {
  ZHIPU_API_KEY : option str;
  docs_dir : directory;
  embedding_model : result (VectorStore.SentenceTransformer F);
  FAISS_AVAILABLE : bool;
}.

(** The orchestrator and the file system it works on. *)
Record machine := {
  self : RAGSystem.t F;
  disk : VectorStore.world F;
}.

Definition set_document_processor (dp : DocumentProcessor.t) (s : machine)
    : machine :=
  {| self := {| RAGSystem.document_processor := Some dp;
                RAGSystem.vector_store := RAGSystem.vector_store (self s);
                RAGSystem.llm_client := RAGSystem.llm_client (self s);
                RAGSystem.is_initialized := RAGSystem.is_initialized (self s) |};
     disk := disk s |}.

Definition set_vector_store (vs : VectorStore.t F) (s : machine) : machine :=
  {| self := {| RAGSystem.document_processor :=
                  RAGSystem.document_processor (self s);
                RAGSystem.vector_store := Some vs;
                RAGSystem.llm_client := RAGSystem.llm_client (self s);
                RAGSystem.is_initialized := RAGSystem.is_initialized (self s) |};
     disk := disk s |}.

Definition set_llm_client (llm : ZhipuAIClient.t) (s : machine) : machine :=
  {| self := {| RAGSystem.document_processor :=
                  RAGSystem.document_processor (self s);
                RAGSystem.vector_store := RAGSystem.vector_store (self s);
                RAGSystem.llm_client := Some llm;
                RAGSystem.is_initialized := RAGSystem.is_initialized (self s) |};
     disk := disk s |}.

Definition set_is_initialized (b : bool) (s : machine) : machine :=
  {| self := {| RAGSystem.document_processor :=
                  RAGSystem.document_processor (self s);
                RAGSystem.vector_store := RAGSystem.vector_store (self s);
                RAGSystem.llm_client := RAGSystem.llm_client (self s);
                RAGSystem.is_initialized := b |};
     disk := disk s |}.

(** A method of [self.vector_store], which updates that object. *)
Definition on_store {A} (f : prog (VectorStore.t F) A) : prog machine A :=
  fun s =>
    match RAGSystem.vector_store (self s) with
    | None => (s, Raise AttributeError)
    | Some vs => let '(vs', r) := f vs in (set_vector_store vs' s, r)
    end.

(** An operation on the files. *)
Definition on_disk {A} (f : prog (VectorStore.world F) A) : prog machine A :=
  fun s => let '(w, r) := f (disk s) in ({| self := self s; disk := w |}, r).

Variable cfg : Config.
Variable env : environment.

(** [Config.validate] *)
Definition validate : prog (VectorStore.world F) unit :=
  if negb (truthy (default [] (ZHIPU_API_KEY env)))
  then raise (ValueError "请设置 ZHIPU_API_KEY 环境变量")
  else
    VectorStore.makedirs (EMBEDDING_MODEL_PATH cfg);;
    VectorStore.makedirs (VECTOR_STORE_PATH cfg).

(** [DocumentProcessor(chunk_size=Config.CHUNK_SIZE,
    chunk_overlap=Config.CHUNK_OVERLAP)] *)
Definition new_document_processor : DocumentProcessor.t :=
  {| chunk_size := CHUNK_SIZE cfg; chunk_overlap := CHUNK_OVERLAP cfg |}.

(** [VectorStore(model_path, model_name)] *)
Definition new_vector_store : result (VectorStore.t F) :=
  m ← embedding_model env; Ok (VectorStore.init m).

(** [ZhipuAIClient()] *)
Definition new_llm_client : result ZhipuAIClient.t :=
  let api_key := default [] (ZHIPU_API_KEY env) in
  if truthy api_key then Ok (ZhipuAIClient.init api_key)
  else Raise (ValueError "智谱API密钥未设置，请检查 .env 文件中的 ZHIPU_API_KEY").

(** [RAGSystem._index_exists] *)
Definition _index_exists (w : VectorStore.world F) : bool :=
  VectorStore.path_exists w (path_join (VECTOR_STORE_PATH cfg) "index.faiss")
  && VectorStore.path_exists w (path_join (VECTOR_STORE_PATH cfg) "chunks.pkl").

(** [RAGSystem._build_vector_index] *)
Definition _build_vector_index : prog machine unit :=
  s ← get;
  match RAGSystem.document_processor (self s) with
  | None => raise AttributeError
  | Some dp =>
      documents ← lift (load_documents (docs_dir env));
      if negb (truthy documents)
      then raise (ValueError "在目录 {self.docs_dir} 中未找到文档")
      else
        let chunks :=
          split_documents (chunk_size dp) (chunk_overlap dp) documents in
        on_store (VectorStore.build_index (FAISS_AVAILABLE env) chunks);;
        s ← get;
        match RAGSystem.vector_store (self s) with
        | None => raise AttributeError
        | Some vs =>
            on_disk (VectorStore.save_index vs (VECTOR_STORE_PATH cfg))
        end
  end.

(** The [try] block of [initialize]. *)
Definition initialize_body (rebuild_index : bool) : prog machine unit :=
  on_disk validate;;
  modify (set_document_processor new_document_processor);;
  vs ← lift new_vector_store;
  modify (set_vector_store vs);;
  llm ← lift new_llm_client;
  modify (set_llm_client llm);;
  s ← get;
  if rebuild_index || negb (_index_exists (disk s))
  then _build_vector_index
  else on_store (VectorStore.load_index (FAISS_AVAILABLE env) (disk s)
                   (VECTOR_STORE_PATH cfg)).

(** [RAGSystem.initialize]: the state it leaves and what it returns. *)
Definition initialize (rebuild_index : bool) (s : machine) : machine * bool :=
  match initialize_body rebuild_index s with
  | (s', Ok _) => (set_is_initialized true s', true)
  | (s', Raise _) => (set_is_initialized false s', false)
  end.

(** The dict of [get_system_info]: the status alone, or the counts and
    the configured sizes (the elapsed time and the model name are left
    out). *)
Inductive system_info :=
| NotRunning
| Running (documents_count chunks_count vector_index_size : Z)
    (chunk_size chunk_overlap max_retrieval_docs : Z).

(** [RAGSystem.get_system_info] *)
Definition get_system_info (s : machine) : result system_info :=
  if negb (RAGSystem.is_initialized (self s)) then Ok NotRunning
  else
    dp ← match RAGSystem.document_processor (self s) with
         | Some dp => Ok dp
         | None => Raise AttributeError
         end;
    documents ← load_documents (docs_dir env);
    let chunks :=
      if truthy documents
      then split_documents (chunk_size dp) (chunk_overlap dp) documents
      else [] in
    vs ← match RAGSystem.vector_store (self s) with
         | Some vs => Ok vs
         | None => Raise AttributeError
         end;
    Ok (Running (len documents) (len chunks)
          (if truthy (VectorStore.chunks vs)
           then len (VectorStore.chunks vs) else 0)
          (CHUNK_SIZE cfg) (CHUNK_OVERLAP cfg) (MAX_RETRIEVAL_DOCS cfg)).

End Lifecycle.
Arguments environment F : clear implicits.
Arguments machine F : clear implicits.
End RAGLifecycle.

(** ** A small corpus for examples *)

Module Corpus.

Import DocumentProcessor DocumentLoader RAGLifecycle Examples.

(** A text file of two sentences, and a file that cannot be read. *)
Definition alpha_txt : entry :=
  {| name := py "alpha.txt";
     read_text := Ok (py " alpha comes first. beta comes second. ");
     read_pages := Raise (ValueError "EOF marker not found") |}.

Definition locked_txt : entry :=
  {| name := py "locked.txt";
     read_text := Raise (OSError "documents/locked.txt");
     read_pages := Raise (OSError "documents/locked.txt") |}.

(** What [load_documents] makes of the text file. *)
Definition alpha_doc : document :=
  {| doc_file_name := py "alpha.txt";
     doc_content := py "alpha comes first. beta comes second.";
     doc_type := py "txt" |}.

Definition small_config : Config :=
  {| EMBEDDING_MODEL_PATH := "models"; VECTOR_STORE_PATH := "store";
     CHUNK_SIZE := 20; CHUNK_OVERLAP := 0; MAX_RETRIEVAL_DOCS := 3 |}.

Definition env : environment Z :=
  {| ZHIPU_API_KEY := Some (py "key");
     docs_dir := Listing [alpha_txt; locked_txt];
     embedding_model := Ok toy_model;
     FAISS_AVAILABLE := true |}.

(** The same environment without the key, and with the documents
    directory missing, or holding the unreadable file only. *)
Definition env_without_key : environment Z :=
  {| ZHIPU_API_KEY := None;
     docs_dir := Listing [alpha_txt; locked_txt];
     embedding_model := Ok toy_model;
     FAISS_AVAILABLE := true |}.

Definition env_without_documents : environment Z :=
  {| ZHIPU_API_KEY := Some (py "key");
     docs_dir := Missing;
     embedding_model := Ok toy_model;
     FAISS_AVAILABLE := true |}.


(** A new orchestrator on an empty disk, what a first [initialize] makes
    of it, and a new orchestrator on the disk that call has left. *)
Definition fresh : machine Z :=
  {| self := RAGSystem.init; disk := empty_world |}.

Definition started : machine Z := (initialize small_config env true fresh).1.

Definition restarted : machine Z :=
  {| self := RAGSystem.init; disk := disk started |}.

(** The same on a device that loses the first write at the close. *)
Definition fresh_on_lossy_device : machine Z :=
  {| self := RAGSystem.init;
     disk := {| VectorStore.files := ∅;
                VectorStore.faults := [Some VectorStore.LostAtClose];
                VectorStore.makedirs_error := fun _ => None |} |}.

Definition restarted_on_lossy_device : machine Z :=
  {| self := RAGSystem.init;
     disk := disk (initialize small_config env true fresh_on_lossy_device).1 |}.

End Corpus.

(** * Vocabulary of the properties *)

Section ChunkerVocabulary.

Import DocumentProcessor.

(** A string that [strip] leaves alone: no whitespace at either end. *)
Definition trimmed (s : str) : Prop := lstrip s = s /\ rstrip s = s.

(** The sentences the loop works with: the pieces of the text, stripped,
    the empty ones dropped. *)
Definition sentences_of (pieces : list str) : list str :=
  List.filter truthy (strip <$> pieces).

(** The buffer after the sentences [ss] were appended to an empty one. *)
Definition buffer (ss : list str) : str :=
  foldr (fun s b => s ++ SPACE ++ b) [] ss.

(** The chunks a state stands for: the closed ones are within the size,
    or begin a buffer with one sentence; the open buffer likewise. *)
Definition sound_chunk (chunk_size chunk_overlap : Z)
    (known : str -> Prop) (c : str) : Prop :=
  len c <= chunk_size \/
  exists s, known s /\
    (c = s \/
     (0 < chunk_overlap /\
      exists seed, len seed <= chunk_overlap /\
                   c = strip (seed ++ SPACE ++ s))).

Definition sound_state (chunk_size chunk_overlap : Z)
    (known : str -> Prop) (st : splitter) : Prop :=
  Forall (sound_chunk chunk_size chunk_overlap known) (chunks st) /\
  (current_chunk st <> [] ->
   sound_chunk chunk_size chunk_overlap known (strip (current_chunk st))).

End ChunkerVocabulary.

Section StoreVocabulary.

Context `{Float F}.

Import VectorStore.

(** The vector that belongs to a chunk. *)
Definition embedding (m : SentenceTransformer F) (c : chunk) : list F :=
  Faiss.normalize_L2 (embed m (content c)).

(** The vectors of the store, none before an index exists. *)
Definition vectors (self : VectorStore.t F) : list (list F) :=
  match index self with
  | Some ix => Faiss.xb ix
  | None => []
  end.

(** The parallel arrays agree: as many vectors as chunks, and the vector
    at each position is the embedding of the chunk at that position. *)
Definition consistent (self : VectorStore.t F) : Prop :=
  forall m, model self = Some m -> vectors self = embedding m <$> chunks self.

(** The exceptions [build_index] raises by its own [raise] statements. *)
Definition raised_by_build_index (e : exn) : Prop :=
  e = RuntimeError "FAISS不可用，无法构建向量索引" \/
  e = RuntimeError "嵌入模型未初始化".

(** A hit stands for a stored position. *)
Definition hit_at (cs : list chunk) (r : hit F) : Prop :=
  exists i, 0 <= i < len cs /\ cs !! Z.to_nat i = Some (hit_chunk r).

(** The fate of the [n]-th write to come, counted from 0. *)
Definition fate (w : world F) (n : nat) : option fault :=
  default None (faults w !! n).

(** The device reports every failed write: no write to come is lost when
    its file is closed. *)
Definition reports_failures (w : world F) : Prop :=
  Forall (fun f => f <> Some LostAtClose) (faults w).

End StoreVocabulary.

Section ClientVocabulary.

Import ZhipuAIClient.

(** An attempt that ends in the handler of [RequestException] because the
    transport failed or the status is an error status. *)
Definition transport_failure (r : reply) (e : request_error) : Prop :=
  r = NoResponse e \/
  exists status_code body,
    r = Response status_code body /\ 400 <= status_code < 600 /\
    e = HTTPError status_code.

(** An attempt that brings a decoded document with a status that is no
    error status. *)
Definition decoded (r : reply) (result : json) : Prop :=
  exists status_code,
    r = Response status_code (Some result) /\
    ~ 400 <= status_code < 600.

End ClientVocabulary.

(** Unfolding of the sequencing of calls. *)
Ltac run :=
  unfold mbind, prog_bind, result_bind, get, modify, lift, raise; simpl.

(** * Vocabulary of the further properties *)

Section ChunkerVocabularyMore.

Import DocumentProcessor.

(** A string of whitespace only. *)
Definition blank (s : str) : Prop := Forall (fun c => isspace c = true) s.

(** [s in c] on two strings. *)
Definition occurs_in (s c : str) : Prop := exists a b, c = a ++ s ++ b.

(** The tail of a chunk that seeds the next buffer. *)
Definition overlap_seed (chunk_overlap : Z) (c : str) : str :=
  drop (Z.to_nat (Z.max 0 (len c - chunk_overlap))) c.

(** A buffer that is empty or ends with a sentence and a space. *)
Definition sentence_ended (cur : str) : Prop :=
  cur <> [] ->
  exists x s, cur = x ++ s ++ SPACE /\ trimmed s /\ s <> [].

(** A buffer that is empty or holds sentences and nothing else. *)
Definition sentences_only (cur : str) : Prop :=
  cur <> [] ->
  exists ss, ss <> [] /\ Forall (fun s => trimmed s /\ s <> []) ss /\
             cur = buffer ss.

(** Each element and the next one are related. *)
Definition chained {A} (R : A -> A -> Prop) (l : list A) : Prop :=
  forall i x y, l !! i = Some x -> l !! S i = Some y -> R x y.

End ChunkerVocabularyMore.

Section ClientVocabularyMore.

Import ZhipuAIClient.

(** The [RequestException] that an attempt ends in, if any: raised by
    the post, by [raise_for_status] or by [response.json()]. *)
Definition request_exception (r : reply) : option request_error :=
  match r with
  | NoResponse e => Some e
  | Response status_code body =>
      if (400 <=? status_code) && (status_code <? 600)
      then Some (HTTPError status_code)
      else match body with
           | None => Some JSONDecodeError
           | Some _ => None
           end
  end.

(** The exceptions of Python's own operations on a decoded document. *)
Definition builtin_error (e : exn) : bool :=
  match e with
  | TypeError | KeyError _ | IndexError | AttributeError | ValueError _ => true
  | _ => false
  end.

End ClientVocabularyMore.

(** * Properties *)

(** ** Strings *)

Section Strings.

Implicit Types s t : str.

Lemma len_app {A} (l k : list A) : len (l ++ k) = len l + len k.
Proof. unfold len. rewrite length_app. lia. Qed.

Lemma len_nonneg {A} (l : list A) : 0 <= len l.
Proof. unfold len. lia. Qed.

Lemma truthy_true {A} (l : list A) : truthy l = true <-> l <> [].
Proof. destruct l; simpl; split; congruence. Qed.

Lemma truthy_false {A} (l : list A) : truthy l = false <-> l = [].
Proof. destruct l; simpl; split; congruence. Qed.

Lemma lstrip_app s t :
  lstrip (s ++ t) = match lstrip s with [] => lstrip t | s' => s' ++ t end.
Proof.
  induction s as [|c s IH]; simpl.
  - reflexivity.
  - destruct (isspace c); [exact IH | reflexivity].
Qed.

Lemma lstrip_idemp s : lstrip (lstrip s) = lstrip s.
Proof.
  induction s as [|c s IH]; simpl; [reflexivity|].
  destruct (isspace c) eqn:E; [exact IH | simpl; now rewrite E].
Qed.

Lemma len_lstrip s : len (lstrip s) <= len s.
Proof.
  induction s as [|c s IH]; simpl; [lia|].
  destruct (isspace c); unfold len in *; simpl in *; lia.
Qed.

Lemma rstrip_cons c s :
  rstrip (c :: s) =
  match rstrip s with
  | [] => if isspace c then [] else [c]
  | s' => c :: s'
  end.
Proof.
  unfold rstrip. rewrite reverse_cons, lstrip_app.
  destruct (lstrip (reverse s)) as [|a u] eqn:E.
  - simpl. destruct (isspace c); reflexivity.
  - rewrite reverse_app, reverse_singleton. simpl.
    destruct (reverse (a :: u)) eqn:R; [|reflexivity].
    apply (f_equal reverse) in R. rewrite reverse_involutive in R.
    discriminate R.
Qed.

Lemma rstrip_nil : rstrip [] = [].
Proof. reflexivity. Qed.

Lemma len_rstrip s : len (rstrip s) <= len s.
Proof.
  unfold rstrip, len. rewrite length_reverse.
  pose proof (len_lstrip (reverse s)) as L. unfold len in L.
  rewrite length_reverse in L. exact L.
Qed.

Lemma rstrip_idemp s : rstrip (rstrip s) = rstrip s.
Proof.
  unfold rstrip. now rewrite reverse_involutive, lstrip_idemp.
Qed.

Lemma rstrip_space s : rstrip (s ++ SPACE) = rstrip s.
Proof.
  unfold rstrip, SPACE. now rewrite reverse_app.
Qed.

Lemma rstrip_lstrip s : rstrip (lstrip s) = lstrip (rstrip s).
Proof.
  induction s as [|c s IH]; [reflexivity|].
  simpl. destruct (isspace c) eqn:E.
  - rewrite IH, rstrip_cons, E.
    destruct (rstrip s) as [|a u]; [reflexivity|]. simpl. now rewrite E.
  - rewrite rstrip_cons, E.
    destruct (rstrip s) as [|a u]; simpl; now rewrite E.
Qed.

Lemma strip_idemp s : strip (strip s) = strip s.
Proof.
  unfold strip. now rewrite rstrip_lstrip, rstrip_idemp, lstrip_idemp.
Qed.

Lemma strip_space s : strip (s ++ SPACE) = strip s.
Proof. unfold strip. now rewrite rstrip_space. Qed.

Lemma len_strip s : len (strip s) <= len s.
Proof.
  unfold strip. pose proof (len_lstrip (rstrip s)). pose proof (len_rstrip s).
  lia.
Qed.

Lemma trimmed_strip s : trimmed (strip s).
Proof.
  split.
  - unfold strip. apply lstrip_idemp.
  - unfold strip. now rewrite rstrip_lstrip, rstrip_idemp.
Qed.

Lemma lstrip_keep s t : lstrip s = s -> s <> [] -> lstrip (s ++ t) = s ++ t.
Proof.
  intros E N. rewrite lstrip_app, E. destruct s; [congruence | reflexivity].
Qed.

Lemma rstrip_keep s t : rstrip t = t -> t <> [] -> rstrip (s ++ t) = s ++ t.
Proof.
  intros E N. induction s as [|c s IH]; simpl; [exact E|].
  rewrite rstrip_cons, IH. destruct (s ++ t) eqn:A; [|reflexivity].
  apply app_eq_nil in A. tauto.
Qed.

Lemma strip_trimmed s : trimmed s -> strip s = s.
Proof. intros [L R]. unfold strip. now rewrite R, L. Qed.

End Strings.

(** ** The chunker *)

Section Chunker.

Import DocumentProcessor.

Variables (chunk_size chunk_overlap : Z).

Local Abbreviation step := (step chunk_size chunk_overlap).

Lemma buffer_app ss ts : buffer (ss ++ ts) = buffer ss ++ buffer ts.
Proof.
  induction ss as [|s ss IH]; simpl; [reflexivity|].
  now rewrite IH, <- !app_assoc.
Qed.

Lemma buffer_join ss : ss <> [] -> buffer ss = join SPACE ss ++ SPACE.
Proof.
  induction ss as [|s ss IH]; [congruence|]. intros _.
  destruct ss as [|s' ss]; [reflexivity|].
  change (buffer (s :: s' :: ss)) with (s ++ SPACE ++ buffer (s' :: ss)).
  rewrite IH by congruence.
  change (join SPACE (s :: s' :: ss))
    with (s ++ SPACE ++ join SPACE (s' :: ss)).
  now rewrite <- !app_assoc.
Qed.

Lemma sentences_of_cons p pieces :
  sentences_of (p :: pieces) =
  if truthy (strip p) then strip p :: sentences_of pieces
  else sentences_of pieces.
Proof. reflexivity. Qed.

Lemma sentences_of_trimmed pieces :
  Forall (fun s => trimmed s /\ s <> []) (sentences_of pieces).
Proof.
  induction pieces as [|p pieces IH]; [constructor|].
  rewrite sentences_of_cons. destruct (truthy (strip p)) eqn:T; [|exact IH].
  constructor; [|exact IH].
  split; [apply trimmed_strip | now apply truthy_true].
Qed.

Lemma join_nonempty ss :
  Forall (fun s => trimmed s /\ s <> []) ss -> ss <> [] -> join SPACE ss <> [].
Proof.
  intros F N. destruct F as [|s ss [_ Hs] F]; [congruence|].
  destruct ss; simpl; [exact Hs|].
  intros E. apply app_eq_nil in E. tauto.
Qed.

Lemma join_trimmed ss :
  Forall (fun s => trimmed s /\ s <> []) ss -> trimmed (join SPACE ss).
Proof.
  induction 1 as [|s ss [[L R] N] F IH]; [split; reflexivity|].
  destruct ss as [|s' ss]; [split; assumption|].
  change (join SPACE (s :: s' :: ss))
    with (s ++ SPACE ++ join SPACE (s' :: ss)).
  split.
  - now apply lstrip_keep.
  - rewrite app_assoc. apply rstrip_keep; [apply IH|].
    apply join_nonempty; [exact F | congruence].
Qed.

(** While the sentences fit the buffer no chunk is closed. *)
Lemma fold_step_fits pieces done :
  len (buffer (done ++ sentences_of pieces)) <= chunk_size + 1 ->
  fold_left step pieces {| chunks := []; current_chunk := buffer done |}
  = {| chunks := [];
       current_chunk := buffer (done ++ sentences_of pieces) |}.
Proof.
  revert done. induction pieces as [|p pieces IH]; intros done Hfit.
  - simpl. now rewrite app_nil_r.
  - rewrite sentences_of_cons in *. simpl fold_left.
    unfold step at 2. cbn [current_chunk chunks].
    destruct (truthy (strip p)) eqn:T; simpl negb; cbv iota.
    + assert (Hle : len (buffer done) + len (strip p) <= chunk_size).
      { rewrite buffer_app in Hfit. simpl buffer in Hfit.
        rewrite !len_app in Hfit. unfold len in *. simpl in Hfit. lia. }
      apply Z.leb_le in Hle. rewrite Hle.
      replace (buffer done ++ strip p ++ SPACE)
        with (buffer (done ++ [strip p]))
        by (rewrite buffer_app; reflexivity).
      rewrite IH; rewrite <- app_assoc; [reflexivity | exact Hfit].
    + now apply IH.
Qed.

Lemma sound_closed known st :
  sound_state chunk_size chunk_overlap known st ->
  Forall (sound_chunk chunk_size chunk_overlap known)
    (if truthy (current_chunk st)
     then chunks st ++ [strip (current_chunk st)] else chunks st).
Proof.
  intros [Hc Hb]. destruct (truthy (current_chunk st)) eqn:T; [|exact Hc].
  apply Forall_app. split; [exact Hc|].
  constructor; [|constructor]. apply Hb. now apply truthy_true.
Qed.

Lemma len_drop_overlap (last_chunk : str) :
  0 < chunk_overlap ->
  len (drop (Z.to_nat (Z.max 0 (len last_chunk - chunk_overlap))) last_chunk)
  <= chunk_overlap.
Proof.
  intros Hov. unfold len. rewrite length_drop. lia.
Qed.

Lemma step_sound (known : str -> Prop) st p :
  (truthy (strip p) = true -> known (strip p)) ->
  sound_state chunk_size chunk_overlap known st -> sound_state chunk_size chunk_overlap known (step st p).
Proof.
  intros Hk Hst. unfold step.
  destruct (truthy (strip p)) eqn:T; simpl negb; cbv iota; [|exact Hst].
  specialize (Hk eq_refl).
  destruct (len (current_chunk st) + len (strip p) <=? chunk_size) eqn:Fit.
  - destruct Hst as [Hc _]. split; [exact Hc|]. intros _. left.
    cbn [current_chunk]. rewrite app_assoc, strip_space.
    apply Z.leb_le in Fit.
    pose proof (len_strip (current_chunk st ++ strip p)) as L.
    rewrite len_app in L. lia.
  - pose proof (sound_closed known st Hst) as Hclosed.
    set (chunks' := if truthy (current_chunk st)
                    then chunks st ++ [strip (current_chunk st)]
                    else chunks st) in *.
    destruct (0 <? chunk_overlap) eqn:Ov.
    + destruct (last chunks') as [last_chunk|] eqn:La.
      * split; [exact Hclosed|]. intros _. cbn [current_chunk].
        right. exists (strip p). split; [exact Hk|]. right.
        apply Z.ltb_lt in Ov. split; [exact Ov|].
        eexists. split; [apply (len_drop_overlap last_chunk Ov)|].
        now rewrite !app_assoc, strip_space, <- !app_assoc.
      * split; [exact Hclosed|]. intros _. cbn [current_chunk].
        right. exists (strip p). split; [exact Hk|]. left.
        now rewrite strip_space, strip_idemp.
    + split; [exact Hclosed|]. intros _. cbn [current_chunk].
      right. exists (strip p). split; [exact Hk|]. left.
      now rewrite strip_space, strip_idemp.
Qed.

Lemma fold_step_sound (known : str -> Prop) pieces st :
  (forall s, s ∈ sentences_of pieces -> known s) ->
  sound_state chunk_size chunk_overlap known st -> sound_state chunk_size chunk_overlap known (fold_left step pieces st).
Proof.
  revert st. induction pieces as [|p pieces IH]; intros st Hk Hst.
  - exact Hst.
  - simpl. rewrite sentences_of_cons in Hk. apply IH.
    + intros s Hs. apply Hk. destruct (truthy (strip p)); [|exact Hs].
      now apply elem_of_cons; right.
    + apply step_sound; [|exact Hst]. intros T. apply Hk. rewrite T.
      apply elem_of_cons. now left.
Qed.

End Chunker.

Section ChunkerClaims.

Import DocumentProcessor.

(** The pattern splits nothing off a text without sentence-ending marks. *)
Lemma re_split_no_mark text :
  forallb (fun c => negb (is_mark c)) text = true ->
  re_split false text = [text].
Proof.
  induction text as [|c text IH]; [reflexivity|].
  simpl. intros H. apply andb_true_iff in H as [Hc Ht].
  apply negb_true_iff in Hc. rewrite Hc, (IH Ht). reflexivity.
Qed.

(** A document whose sentences fit one buffer gives that buffer as its
    only chunk. *)
Lemma split_text_fits (chunk_size chunk_overlap : Z) (text : str) :
  sentences_of (re_split false text) <> [] ->
  len (join SPACE (sentences_of (re_split false text))) <= chunk_size ->
  _split_text chunk_size chunk_overlap text
  = [join SPACE (sentences_of (re_split false text))].
Proof.
  intros Hne Hlen. unfold _split_text.
  set (ss := sentences_of (re_split false text)) in *.
  pose proof (fold_step_fits chunk_size chunk_overlap
                (re_split false text) []) as Hfold.
  simpl in Hfold. fold ss in Hfold. rewrite Hfold.
  - unfold finish. cbn [current_chunk chunks].
    rewrite (buffer_join ss Hne).
    destruct (truthy (join SPACE ss ++ SPACE)) eqn:T.
    + simpl. rewrite strip_space, strip_trimmed; [reflexivity|].
      apply join_trimmed, sentences_of_trimmed.
    + apply truthy_false, app_eq_nil in T. destruct T as [_ T].
      discriminate T.
  - rewrite (buffer_join ss Hne), len_app. change (len SPACE) with 1. lia.
Qed.

(** C3, at a concrete input: the document [a.b] is shorter than
    [chunk_size], yet its one chunk is [a. b], not the trimmed content:
    the sentences are joined with a space that the document does not
    have. *)
Lemma split_short_document_differs :
  len (py "a.b") <= 500 /\
  _split_text 500 50 (py "a.b") = [py "a. b"] /\
  _split_text 500 50 (py "a.b") <> [strip (py "a.b")].
Proof. vm_compute. repeat split; congruence. Qed.

(** A document within [chunk_size] may also give no chunk, or two. *)
Example split_empty_document : _split_text 500 50 [] = [].
Proof. reflexivity. Qed.

Example split_short_document_twice :
  len (py "a.b.c") <= 5 /\
  _split_text 5 2 (py "a.b.c") = [py "a. b."; py "b. c"].
Proof. vm_compute. split; congruence. Qed.

(** C3, amended: when the stripped, non-empty sentences of a document,
    joined by single spaces, are at most [chunk_size] long (and there is at
    least one), [_split_text] yields exactly one chunk, and it is that
    joined text. *)
Theorem split_fits_single_chunk (chunk_size chunk_overlap : Z) (text : str) :
  sentences_of (re_split false text) <> [] ->
  len (join SPACE (sentences_of (re_split false text))) <= chunk_size ->
  _split_text chunk_size chunk_overlap text
  = [join SPACE (sentences_of (re_split false text))].
Proof. apply split_text_fits. Qed.

Lemma split_fits_single_chunk_witness :
  _split_text 500 50 (py "a.b") = [py "a. b"].
Proof.
  apply (split_fits_single_chunk 500 50 (py "a.b")); vm_compute; congruence.
Defined.

(** For a document that is one sentence, the chunk is the trimmed
    content. *)
Corollary split_single_sentence (chunk_size chunk_overlap : Z) (text : str) :
  forallb (fun c => negb (is_mark c)) text = true ->
  strip text <> [] ->
  len (strip text) <= chunk_size ->
  _split_text chunk_size chunk_overlap text = [strip text].
Proof.
  intros Hm Hne Hlen.
  assert (E : sentences_of (re_split false text) = [strip text]).
  { rewrite (re_split_no_mark text Hm). unfold sentences_of. simpl.
    apply truthy_true in Hne. now rewrite Hne. }
  rewrite (split_text_fits chunk_size chunk_overlap text);
    rewrite E; simpl; congruence.
Qed.

(** C4, at a concrete input: with [chunk_size = 10] and
    [chunk_overlap = 5] the second chunk has 15 characters, although no
    sentence of the document has more than 9. *)
Lemma seeded_chunk_exceeds_chunk_size :
  5 < 10 /\
  _split_text 10 5 (py "aaaaaaaa. bbbbbbbb.")
  = [py "aaaaaaaa."; py "aaaa. bbbbbbbb."] /\
  10 < len (py "aaaa. bbbbbbbb.") /\
  sentences_of (re_split false (py "aaaaaaaa. bbbbbbbb."))
  = [py "aaaaaaaa."; py "bbbbbbbb."] /\
  len (py "aaaaaaaa.") <= 10 /\ len (py "bbbbbbbb.") <= 10 /\
  ~ (forall c, c ∈ _split_text 10 5 (py "aaaaaaaa. bbbbbbbb.") ->
       len c <= 10 \/
       exists s, s ∈ sentences_of (re_split false (py "aaaaaaaa. bbbbbbbb."))
                 /\ c = s /\ 10 < len s).
Proof.
  assert (E : _split_text 10 5 (py "aaaaaaaa. bbbbbbbb.")
              = [py "aaaaaaaa."; py "aaaa. bbbbbbbb."]) by (vm_compute; reflexivity).
  assert (S : sentences_of (re_split false (py "aaaaaaaa. bbbbbbbb."))
              = [py "aaaaaaaa."; py "bbbbbbbb."]) by (vm_compute; reflexivity).
  repeat split; try exact E; try exact S; try (vm_compute; congruence).
  intros H.
  assert (M : py "aaaa. bbbbbbbb." ∈ _split_text 10 5 (py "aaaaaaaa. bbbbbbbb.")).
  { rewrite E. apply elem_of_cons. right. apply elem_of_cons. now left. }
  destruct (H _ M) as [L | (s & Hs & Es & L)].
  - apply L. reflexivity.
  - rewrite S, <- Es in Hs.
    apply elem_of_cons in Hs as [Hs | Hs]; [vm_compute in Hs; congruence|].
    apply elem_of_cons in Hs as [Hs | Hs]; [vm_compute in Hs; congruence|].
    inversion Hs.
Qed.

(** C4, amended: every chunk of [_split_text] has at most [chunk_size]
    characters, except a chunk that holds one sentence only: either the
    sentence alone, which is then longer than [chunk_size], or, when
    [chunk_overlap > 0], an overlap seed of at most [chunk_overlap]
    characters, a space and the sentence, of at most
    [chunk_overlap + 1 + len sentence] characters in all. *)
Theorem chunk_length_bound (chunk_size chunk_overlap : Z) (text c : str) :
  c ∈ _split_text chunk_size chunk_overlap text ->
  len c <= chunk_size \/
  exists s, s ∈ sentences_of (re_split false text) /\
    ((c = s /\ chunk_size < len s) \/
     (0 < chunk_overlap /\
      exists seed, len seed <= chunk_overlap /\
                   c = strip (seed ++ SPACE ++ s) /\
                   len c <= chunk_overlap + 1 + len s)).
Proof.
  intros Hc. unfold _split_text in Hc.
  set (known := fun s => s ∈ sentences_of (re_split false text)).
  assert (Hs : sound_state chunk_size chunk_overlap known
                 (fold_left (step chunk_size chunk_overlap)
                    (re_split false text)
                    {| chunks := []; current_chunk := [] |})).
  { apply fold_step_sound; [auto|]. split; [apply Forall_nil_2 | simpl; congruence]. }
  apply sound_closed in Hs. rewrite Forall_forall in Hs.
  specialize (Hs c Hc).
  destruct (Z.le_gt_cases (len c) chunk_size) as [Hle | Hgt]; [now left|].
  destruct Hs as [Hle | (s & Hk & [-> | (Hov & seed & Hseed & ->)])];
    [lia | right; exists s; split; [exact Hk|] ..].
  - left. split; [reflexivity | lia].
  - right. split; [exact Hov|]. exists seed. repeat split; [exact Hseed|].
    pose proof (len_strip (seed ++ SPACE ++ s)) as L.
    rewrite !len_app in L. change (len SPACE) with 1 in L. lia.
Qed.

Lemma chunk_length_bound_witness :
  len (py "aaaa. bbbbbbbb.") <= 10 \/
  exists s, s ∈ sentences_of (re_split false (py "aaaaaaaa. bbbbbbbb.")) /\
    ((py "aaaa. bbbbbbbb." = s /\ 10 < len s) \/
     (0 < 5 /\
      exists seed, len seed <= 5 /\
                   py "aaaa. bbbbbbbb." = strip (seed ++ SPACE ++ s) /\
                   len (py "aaaa. bbbbbbbb.") <= 5 + 1 + len s)).
Proof.
  apply (chunk_length_bound 10 5 (py "aaaaaaaa. bbbbbbbb.")).
  vm_compute. apply elem_of_cons. right. apply elem_of_cons. now left.
Defined.

End ChunkerClaims.

(** ** The nearest-neighbour search *)

Section FaissFacts.

Context `{Float F}.

Implicit Types (h : F * Z) (ix : Faiss.IndexFlatIP F).

Lemma insert_hit_length h l :
  length (Faiss.insert_hit h l) = S (length l).
Proof.
  induction l as [|h' l IH]; simpl; [reflexivity|].
  destruct (flt h.1 h'.1); simpl; [now rewrite IH | reflexivity].
Qed.

Lemma rank_length (l : list (F * Z)) : length (Faiss.rank l) = length l.
Proof.
  induction l as [|h l IH]; simpl; [reflexivity|].
  now rewrite insert_hit_length, IH.
Qed.

Lemma insert_hit_elem h l x :
  x ∈ Faiss.insert_hit h l <-> x = h \/ x ∈ l.
Proof.
  induction l as [|h' l IH]; simpl.
  - set_solver.
  - destruct (flt h.1 h'.1); rewrite ?elem_of_cons, ?IH, ?elem_of_cons; tauto.
Qed.

Lemma rank_elem (l : list (F * Z)) x : x ∈ Faiss.rank l <-> x ∈ l.
Proof.
  induction l as [|h l IH]; simpl; [reflexivity|].
  rewrite insert_hit_elem, IH, elem_of_cons. reflexivity.
Qed.

Lemma len_normalize_L2 (x : list F) : len (Faiss.normalize_L2 x) = len x.
Proof.
  unfold Faiss.normalize_L2, len.
  destruct (flt fzero _); [now rewrite length_fmap | reflexivity].
Qed.

(** Every place of a search result is a stored position or the filler. *)
Lemma faiss_search_labels ix x k found :
  Faiss.search ix x k = Ok found ->
  0 < k /\ length found = Z.to_nat k /\
  Forall (fun h => h = (flowest, -1) \/ 0 <= h.2 < Faiss.ntotal ix) found.
Proof.
  unfold Faiss.search.
  destruct (len x =? Faiss.d ix); simpl; [|discriminate].
  destruct (0 <? k) eqn:K; simpl; [|discriminate].
  intros [= <-]. apply Z.ltb_lt in K. split; [exact K|]. split.
  - rewrite length_app, length_replicate, length_take. lia.
  - apply Forall_app. split; apply Forall_forall; intros h Hh.
    + right. apply elem_of_take in Hh as (i & Hh & _).
      apply list_elem_of_lookup_2 in Hh. rewrite rank_elem in Hh.
      apply elem_of_lookup_imap in Hh as (j & v & -> & Hj).
      apply lookup_lt_Some in Hj. unfold Faiss.ntotal, len. simpl. lia.
    + left. now apply elem_of_replicate_inv in Hh.
Qed.

(** Within the size of the index no place is filled. *)
Lemma faiss_search_within ix x k :
  len x = Faiss.d ix -> 0 < k <= Faiss.ntotal ix ->
  exists found, Faiss.search ix x k = Ok found /\
    length found = Z.to_nat k /\
    Forall (fun h => 0 <= h.2 < Faiss.ntotal ix) found.
Proof.
  intros Hd [Hk Hn]. unfold Faiss.search.
  apply Z.eqb_eq in Hd. rewrite Hd. apply Z.ltb_lt in Hk as Hk'.
  rewrite Hk'. simpl. eexists. split; [reflexivity|].
  set (scored := imap _ (Faiss.xb ix)).
  assert (L : length (take (Z.to_nat k) (Faiss.rank scored)) = Z.to_nat k).
  { rewrite length_take, rank_length. unfold scored.
    rewrite length_imap. unfold Faiss.ntotal, len in Hn. lia. }
  rewrite L, Nat.sub_diag. simpl. rewrite app_nil_r. split; [exact L|].
  apply Forall_forall. intros h Hh.
  apply elem_of_take in Hh as (i & Hh & _).
  apply list_elem_of_lookup_2 in Hh. rewrite rank_elem in Hh.
  apply elem_of_lookup_imap in Hh as (j & v & -> & Hj).
  apply lookup_lt_Some in Hj. unfold Faiss.ntotal, len. simpl. lia.
Qed.

Lemma faiss_search_refuses ix x k :
  k < 1 -> Faiss.search ix x k = Raise AssertionError.
Proof.
  intros Hk. unfold Faiss.search. destruct (len x =? Faiss.d ix); simpl;
    [|reflexivity].
  destruct (0 <? k) eqn:K; [apply Z.ltb_lt in K; lia | reflexivity].
Qed.

Lemma getitem_in_range {A} (l : list A) i :
  0 <= i < len l ->
  exists a, getitem l i = Ok a /\ l !! Z.to_nat i = Some a.
Proof.
  intros [Hlo Hhi]. unfold getitem.
  destruct (i <? 0) eqn:N; [apply Z.ltb_lt in N; lia|].
  assert (B : (0 <=? i) && (i <? len l) = true).
  { apply andb_true_iff. split; [now apply Z.leb_le | now apply Z.ltb_lt]. }
  rewrite B.
  destruct (l !! Z.to_nat i) as [a|] eqn:E; [now exists a|].
  apply lookup_ge_None in E. unfold len in Hhi. lia.
Qed.

End FaissFacts.

(** ** The embedding index *)

Section StoreFacts.

Context `{Float F}.

Import VectorStore.

Implicit Types (self : VectorStore.t F) (m : SentenceTransformer F).
Implicit Types (w : world F) (ix : Faiss.IndexFlatIP F).

(** What a call of [build_index] that returns has done. *)
Lemma build_index_ok FA cs self self' :
  build_index FA cs self = (self', Ok tt) ->
  FA = true /\
  exists m dimension,
    model self = Some m /\
    encode_raises m (content <$> cs) = None /\
    self' = {| model := Some m;
               index := Some {| Faiss.d := dimension;
                                Faiss.xb := embedding m <$> cs |};
               chunks := cs |}.
Proof.
  unfold build_index. destruct FA; simpl; [|discriminate].
  run. destruct (model self) as [m|] eqn:M; [|discriminate].
  run. unfold encode.
  destruct (encode_raises m (content <$> cs)) eqn:E; [discriminate|].
  destruct (shape_1 (embed m <$> (content <$> cs))) as [dimension|] eqn:S;
    [|discriminate].
  unfold Faiss.add. simpl.
  destruct (forallb _ _); [|discriminate].
  intros [= <-]. split; [reflexivity|]. exists m, dimension.
  split; [reflexivity|]. split; [exact E|].
  unfold set_index, set_chunks. simpl. rewrite M.
  do 3 f_equal. unfold embedding. rewrite <- !list_fmap_compose.
  reflexivity.
Qed.

Lemma collect_length_le (cs : list chunk) (found : list (F * Z)) results :
  collect cs found = Ok results -> (length results <= length found)%nat.
Proof.
  revert results. induction found as [|[score idx] found IH];
    intros results; simpl.
  - intros [= <-]. reflexivity.
  - destruct (idx <? len cs).
    + unfold mbind, result_bind.
      destruct (getitem cs idx); [|discriminate].
      destruct (collect cs found) as [rs|]; [|discriminate].
      intros [= <-]. simpl. specialize (IH rs eq_refl). lia.
    + intros E. specialize (IH results E). lia.
Qed.

Lemma collect_in_range (cs : list chunk) (found : list (F * Z)) :
  Forall (fun h => 0 <= h.2 < len cs) found ->
  exists results, collect cs found = Ok results /\
    length results = length found /\ Forall (hit_at cs) results.
Proof.
  induction 1 as [|[score idx] found Hh Hf (rs & E & L & R)]; simpl.
  - exists []. repeat split. constructor.
  - simpl in Hh. destruct (idx <? len cs) eqn:B;
      [|apply Z.ltb_ge in B; lia].
    destruct (getitem_in_range cs idx Hh) as (c & G & Hc).
    unfold mbind, result_bind. rewrite G, E. eexists. split; [reflexivity|].
    split; [simpl; now rewrite L|]. constructor; [|exact R].
    exists idx. simpl. auto.
Qed.

Lemma search_unfold self m ix query top_k :
  model self = Some m -> index self = Some ix ->
  encode_raises m [query] = None ->
  search self query top_k
  = found ← Faiss.search ix (Faiss.normalize_L2 (embed m query)) top_k;
    collect (chunks self) found.
Proof.
  intros M I E. unfold search, encode. rewrite M, I. simpl. rewrite E.
  reflexivity.
Qed.

Lemma search_ok_inv self query top_k results :
  search self query top_k = Ok results ->
  exists ix x found,
    Faiss.search ix x top_k = Ok found /\
    collect (chunks self) found = Ok results.
Proof.
  unfold search. destruct (index self) as [ix|]; [|discriminate].
  destruct (model self) as [m|]; [|discriminate].
  unfold mbind, result_bind.
  destruct (encode m [query]) as [emb|]; [|discriminate].
  destruct (getitem _ 0) as [row|]; [|discriminate].
  destruct (Faiss.search ix row top_k) as [found|] eqn:S; [|discriminate].
  intros C. eauto.
Qed.

Lemma path_join_artifacts (path : string) :
  path_join path "index.faiss" <> path_join path "chunks.pkl".
Proof.
  unfold path_join. destruct (String.eqb path ""); [discriminate|].
  assert (A : forall p u v : string, (p ++ u = p ++ v)%string -> u = v).
  { induction p as [|c p IH]; simpl; intros u v E; [exact E|].
    injection E. apply IH. }
  destruct (String.eqb _ "/"); intros E; apply A in E; discriminate.
Qed.

(** What a call of [save_index] that returns has written: the chunk
    file, and the index file unless its data were lost at the close. *)
Lemma save_index_ok self path w w' :
  save_index self path w = (w', Ok tt) ->
  exists ix f,
    index self = Some ix /\ (f = FaissFile ix \/ f = CutShortFile) /\
    (reports_failures w -> f = FaissFile ix) /\
    makedirs_error w' = makedirs_error w /\
    files w' = <[path_join path "chunks.pkl" := PickleFile (chunks self)]>
                 (<[path_join path "index.faiss" := f]> (files w)).
Proof.
  unfold save_index. destruct (index self) as [ix|]; [|discriminate].
  unfold reports_failures.
  unfold makedirs, write_index, pickle_dump, next_write, put. run.
  destruct (makedirs_error w path); [discriminate|]. simpl.
  destruct (faults w) as [|[[| |]|] [|[[| |]|] more]]; simpl;
    try discriminate; intros [= <-]; simpl;
    try (exists ix, (FaissFile ix); repeat split; auto; fail);
    exists ix, CutShortFile; repeat split; auto;
    intros R; apply Forall_cons in R as [R _]; now destruct R.
Qed.

(** What a call of [load_index] that returns has read. *)
Lemma load_index_ok FA w path self self' :
  load_index FA w path self = (self', Ok tt) ->
  exists ix cs,
    files w !! path_join path "index.faiss" = Some (FaissFile ix) /\
    files w !! path_join path "chunks.pkl" = Some (PickleFile cs) /\
    self' = {| model := model self; index := Some ix; chunks := cs |}.
Proof.
  unfold load_index. destruct FA; simpl; [|discriminate].
  destruct (path_exists w _); simpl; [|discriminate].
  run. unfold read_index, pickle_load.
  destruct (files w !! path_join path "index.faiss") as [[ix| | |]|];
    try discriminate.
  destruct (files w !! path_join path "chunks.pkl") as [[|cs| |]|];
    try discriminate.
  intros [= <-]. exists ix, cs. repeat split.
Qed.

End StoreFacts.

Section StoreClaims.

Context `{Float F}.

Import VectorStore.

Implicit Types (self : VectorStore.t F) (m : SentenceTransformer F).
Implicit Types (w : world F) (ix : Faiss.IndexFlatIP F).

(** C1, amended: the chunk list and the vectors agree position by position
    in a fresh store, after every [build_index] that returns, and after
    every [load_index] that returns when the files were written by a
    [save_index] that returned, of a store in which they agreed; the loaded
    store then has the index and the chunks of the saved one. *)
Theorem coupling_preserved (FA : bool) self :
  (forall m, consistent (init m)) /\
  (forall cs self',
     build_index FA cs self = (self', Ok tt) -> consistent self') /\
  (forall path w w' other other',
     consistent self ->
     save_index self path w = (w', Ok tt) ->
     model other = model self ->
     load_index FA w' path other = (other', Ok tt) ->
     index other' = index self /\ chunks other' = chunks self /\
     consistent other').
Proof.
  split; [|split].
  - intros m m' _. reflexivity.
  - intros cs self' B.
    apply build_index_ok in B as (_ & m & dimension & _ & _ & ->).
    intros m' [= <-]. reflexivity.
  - intros path w w' other other' C S M L.
    apply save_index_ok in S as (ix & f & I & Hf & _ & _ & Fw).
    apply load_index_ok in L as (ix' & cs & Li & Lc & ->).
    rewrite Fw in Li, Lc. rewrite lookup_insert_eq in Lc.
    rewrite lookup_insert_ne in Li
      by (intros E; symmetry in E; revert E; apply path_join_artifacts).
    rewrite lookup_insert_eq in Li.
    destruct Hf as [-> | ->]; [|discriminate Li].
    injection Li as <-. injection Lc as <-. simpl.
    split; [now rewrite I|]. split; [reflexivity|].
    intros m Hm. simpl in Hm. rewrite M in Hm.
    specialize (C m Hm). unfold vectors in *. simpl. now rewrite I in C.
Qed.

(** C5, amended: [build_index] on an empty chunk sequence always raises
    and installs no index.  With faiss and the model at hand and an
    [encode] that returns, what it raises is the [IndexError] of
    [embeddings.shape[1]], after the chunk list was replaced by the empty
    one. *)
Theorem build_index_empty_fails (FA : bool) self :
  exists self' e,
    build_index FA [] self = (self', Raise e) /\
    index self' = index self /\
    (forall m, FA = true -> model self = Some m ->
               encode_raises m [] = None ->
               e = IndexError /\ self' = set_chunks [] self).
Proof.
  unfold build_index. destruct FA; simpl.
  - run. destruct (model self) as [m|] eqn:M.
    + run. unfold encode. simpl.
      destruct (encode_raises m []) as [e|] eqn:E; simpl.
      * do 2 eexists. split; [reflexivity|]. split; [reflexivity|].
        intros m' _ [= <-] E'. congruence.
      * do 2 eexists. split; [reflexivity|]. split; [reflexivity|].
        intros m' _ _ _. split; reflexivity.
    + do 2 eexists. split; [reflexivity|]. split; [reflexivity|].
      intros m' _ M'. discriminate M'.
  - do 2 eexists. split; [reflexivity|]. split; [reflexivity|].
    intros m' FA'. discriminate FA'.
Qed.

(** C6, amended: with faiss at hand, [load_index] raises
    [FileNotFoundError] when the index file is missing, and also when the
    index file is there and the chunk file is missing; when both files are
    there it returns, whatever the number of chunks and of vectors. *)
Theorem load_index_outcomes w (path : string) self :
  (files w !! path_join path "index.faiss" = None ->
   load_index true w path self
   = (self, Raise (FileNotFoundError (path_join path "index.faiss")))) /\
  (forall ix,
     files w !! path_join path "index.faiss" = Some (FaissFile ix) ->
     files w !! path_join path "chunks.pkl" = None ->
     load_index true w path self
     = (set_index (Some ix) self,
        Raise (FileNotFoundError (path_join path "chunks.pkl")))) /\
  (forall ix cs,
     files w !! path_join path "index.faiss" = Some (FaissFile ix) ->
     files w !! path_join path "chunks.pkl" = Some (PickleFile cs) ->
     load_index true w path self
     = (set_chunks cs (set_index (Some ix) self), Ok tt)).
Proof.
  unfold load_index, path_exists. simpl. repeat split.
  - intros E. rewrite E. rewrite bool_decide_eq_false_2; [reflexivity|].
    intros [? ?]; discriminate.
  - intros ix Ei Ec. rewrite Ei. rewrite bool_decide_eq_true_2 by eauto.
    simpl. run. unfold read_index, pickle_load. now rewrite Ei, Ec.
  - intros ix cs Ei Ec. rewrite Ei. rewrite bool_decide_eq_true_2 by eauto.
    simpl. run. unfold read_index, pickle_load. now rewrite Ei, Ec.
Qed.

(** C7, amended: [save_index] makes the directory, then writes the
    index file and then the chunk file, each in place, with nothing to
    take a failure back.  Without an index it raises [RuntimeError] and
    writes nothing; when the directory cannot be made it raises that
    error and writes nothing.  When it raises after that, either the
    writer of faiss has raised, the chunk file is as it was and the index
    file is as it was or cut short; or the writing of the chunks has
    raised [OSError], the index file is the new one (or cut short, when
    faiss lost its data at the close without raising) and the chunk file
    is as it was or cut short.  When it returns, the chunk file holds the
    chunks of the store and the index file holds its index, unless faiss
    lost the data at the close.  When the device completes both writes,
    it returns and both files hold the index and the chunks of the
    store. *)
Theorem save_index_outcomes self (path : string) w :
  (index self = None ->
   save_index self path w = (w, Raise (RuntimeError "没有可保存的索引"))) /\
  (forall ix, index self = Some ix ->
     (forall e, makedirs_error w path = Some e ->
        save_index self path w = (w, Raise e)) /\
     (forall w' e,
        makedirs_error w path = None ->
        save_index self path w = (w', Raise e) ->
        ((exists msg, e = RuntimeError msg) /\
         (files w' = files w \/
          files w'
          = <[path_join path "index.faiss" := CutShortFile]> (files w))) \/
        (e = OSError (path_join path "chunks.pkl") /\
         exists f,
           (f = FaissFile ix \/ f = CutShortFile) /\
           (files w' = <[path_join path "index.faiss" := f]> (files w) \/
            files w'
            = <[path_join path "chunks.pkl" := CutShortFile]>
                (<[path_join path "index.faiss" := f]> (files w))))) /\
     (forall w',
        save_index self path w = (w', Ok tt) ->
        exists f,
          (f = FaissFile ix \/ f = CutShortFile) /\
          (reports_failures w -> f = FaissFile ix) /\
          files w'
          = <[path_join path "chunks.pkl" := PickleFile (chunks self)]>
              (<[path_join path "index.faiss" := f]> (files w))) /\
     (makedirs_error w path = None -> fate w 0 = None -> fate w 1 = None ->
      exists w',
        save_index self path w = (w', Ok tt) /\
        files w'
        = <[path_join path "chunks.pkl" := PickleFile (chunks self)]>
            (<[path_join path "index.faiss" := FaissFile ix]> (files w)))).
Proof.
  split.
  - unfold save_index. intros ->. reflexivity.
  - intros ix I. split; [|split; [|split]].
    + intros e E. unfold save_index, makedirs. rewrite I. run.
      now rewrite E.
    + intros w' e E. unfold save_index, makedirs. rewrite I. run.
      rewrite E. simpl.
      unfold write_index, pickle_dump, next_write, put.
      destruct (faults w) as [|[[| |]|] [|[[| |]|] more]]; simpl;
        intros [= <- <-]; simpl; eauto 8.
    + intros w' S.
      apply save_index_ok in S as (ix' & f & I' & Hf & R & _ & Fw).
      rewrite I in I'. injection I' as <-. eauto.
    + unfold fate. intros E F0 F1. unfold save_index, makedirs.
      rewrite I. run. rewrite E. simpl.
      unfold write_index, pickle_dump, next_write, put.
      destruct (faults w) as [|[f0|] [|[f1|] more]]; simpl in *;
        try discriminate; eexists; split; reflexivity.
Qed.

(** C2, amended: [search] returns at most [top_k] results; it hands
    [top_k] to the index as it is, and a [top_k] below 1 makes it raise;
    on a store with an index of as many vectors as chunks, and a query
    the model embeds in the dimension of the index, a [top_k] between 1
    and the size of the index gives exactly [top_k] results, each the
    chunk of a stored position. *)
Theorem search_results_bound self (query : str) (top_k : Z) :
  (forall results,
     search self query top_k = Ok results -> len results <= top_k) /\
  (top_k < 1 -> forall results, search self query top_k <> Ok results) /\
  (forall m ix,
     model self = Some m -> index self = Some ix ->
     encode_raises m [query] = None ->
     len (embed m query) = Faiss.d ix ->
     len (chunks self) = Faiss.ntotal ix ->
     1 <= top_k <= Faiss.ntotal ix ->
     exists results,
       search self query top_k = Ok results /\
       len results = top_k /\
       len results = Z.min top_k (Faiss.ntotal ix) /\
       Forall (hit_at (chunks self)) results).
Proof.
  split; [|split].
  - intros results S.
    apply search_ok_inv in S as (ix & x & found & S & C).
    apply faiss_search_labels in S as (K & L & _).
    apply collect_length_le in C. unfold len. lia.
  - intros K results S.
    apply search_ok_inv in S as (ix & x & found & S & _).
    rewrite faiss_search_refuses in S by exact K. discriminate S.
  - intros m ix M I E D N K.
    rewrite (search_unfold self m ix query top_k M I E).
    destruct (faiss_search_within ix
                (Faiss.normalize_L2 (embed m query)) top_k)
      as (found & S & L & R).
    { now rewrite len_normalize_L2. }
    { lia. }
    rewrite S. unfold mbind, result_bind.
    rewrite <- N in R.
    destruct (collect_in_range (chunks self) found R) as (results & C & L' & V).
    exists results. split; [exact C|].
    assert (len results = top_k) by (unfold len; lia).
    repeat split; [assumption | lia | exact V].
Qed.

End StoreClaims.

Section StoreExamples.

Import VectorStore Examples.

(** C1, at concrete inputs.  A build whose [encode] raises leaves the new
    chunk list (one chunk) beside the old index (two vectors); a load
    whose chunk file is missing leaves the new index (two vectors) beside
    the old chunk list (one chunk). *)
Lemma failed_build_or_load_breaks_coupling :
  (consistent (built flaky_model) /\
   (build_index true [mk_chunk "boom." 0] (built flaky_model)).2
   = Raise (RuntimeError "out of memory") /\
   len (chunks (build_index true [mk_chunk "boom." 0]
                  (built flaky_model)).1) = 1 /\
   len (vectors (build_index true [mk_chunk "boom." 0]
                   (built flaky_model)).1) = 2 /\
   ~ consistent (build_index true [mk_chunk "boom." 0]
                   (built flaky_model)).1) /\
  (consistent old_store /\
   (load_index true world_without_chunks "store" old_store).2
   = Raise (FileNotFoundError "store/chunks.pkl") /\
   len (chunks (load_index true world_without_chunks "store" old_store).1)
   = 1 /\
   len (vectors (load_index true world_without_chunks "store" old_store).1)
   = 2 /\
   ~ consistent (load_index true world_without_chunks "store" old_store).1).
Proof.
  split; repeat split; try (vm_compute; reflexivity).
  - intros m [= <-]. vm_compute. reflexivity.
  - intros C. specialize (C flaky_model eq_refl).
    apply (f_equal length) in C. vm_compute in C. discriminate C.
  - intros m [= <-]. vm_compute. reflexivity.
  - intros C. specialize (C toy_model eq_refl).
    apply (f_equal length) in C. vm_compute in C. discriminate C.
Qed.

Lemma coupling_preserved_witness :
  consistent (built toy_model) /\
  (forall other',
     load_index true
       (save_index (built toy_model) "store" empty_world).1 "store"
       (init toy_model) = (other', Ok tt) ->
     index other' = index (built toy_model) /\
     chunks other' = chunks (built toy_model) /\ consistent other').
Proof.
  pose proof (coupling_preserved true (init toy_model)) as (_ & B & _).
  assert (C : consistent (built toy_model)).
  { apply (B two_chunks). vm_compute. reflexivity. }
  split; [exact C|]. intros other' L.
  pose proof (coupling_preserved true (built toy_model)) as (_ & _ & R).
  apply (R "store" empty_world
           (save_index (built toy_model) "store" empty_world).1
           (init toy_model) other' C); [| reflexivity | exact L].
  vm_compute. reflexivity.
Defined.

(** C2, at concrete inputs.  On an index of two vectors [top_k = 3] gives
    three results, more than [min(3, 2)]: the place the index fills with
    the label [-1] passes the check [idx < len(self.chunks)] and reads
    the last chunk a second time, with the filler's score.  And
    [top_k = 0] is not raised to 1: the search raises. *)
Lemma search_beyond_index_size :
  (exists r1 r2 r3,
     search (built toy_model) (py "alpha") 3 = Ok [r1; r2; r3] /\
     hit_chunk r2 = mk_chunk "beta." 1 /\
     hit_chunk r3 = mk_chunk "beta." 1 /\
     similarity_score r3 = flowest) /\
  Z.min 3 (len (chunks (built toy_model))) = 2 /\
  Faiss.search index_of_two [1; 0] 3
  = Ok [(1, 0); (0, 1); (flowest, -1)] /\
  search (built toy_model) (py "alpha") 0 = Raise AssertionError.
Proof.
  repeat split; try (vm_compute; reflexivity).
  do 3 eexists. repeat split; vm_compute; reflexivity.
Qed.

Lemma search_results_bound_witness :
  exists results,
    search (built toy_model) (py "alpha") 2 = Ok results /\
    len results = 2 /\
    len results = Z.min 2 (Faiss.ntotal index_of_two) /\
    Forall (hit_at (chunks (built toy_model))) results.
Proof.
  pose proof (search_results_bound (built toy_model) (py "alpha") 2)
    as (_ & _ & W).
  apply (W toy_model index_of_two); try reflexivity.
  vm_compute. split; congruence.
Defined.

(** C5, at a concrete input.  On the empty sequence [encode] returns the
    empty array and the call raises the [IndexError] of
    [embeddings.shape[1]], which is none of the errors [build_index]
    raises itself; the chunk list is already the empty one. *)
Lemma build_index_empty_raises_index_error :
  build_index true [] (built toy_model)
  = (set_chunks [] (built toy_model), Raise IndexError) /\
  encode toy_model [] = Ok [] /\
  shape_1 ([] : list (list Z)) = Raise IndexError /\
  ~ raised_by_build_index IndexError.
Proof.
  repeat split; try reflexivity. intros [E | E]; discriminate E.
Qed.

Lemma build_index_empty_fails_witness :
  exists self' e,
    build_index true [] (built toy_model) = (self', Raise e) /\
    e = IndexError /\ self' = set_chunks [] (built toy_model).
Proof.
  destruct (build_index_empty_fails true (built toy_model))
    as (self' & e & B & _ & W).
  exists self', e. split; [exact B|].
  apply (W toy_model); reflexivity.
Defined.

(** C6, at a concrete input.  The index file holds two vectors and the
    chunk file one chunk; [load_index] returns all the same. *)
Lemma load_index_accepts_mismatch :
  (load_index true world_mismatched "store" (init toy_model)).2 = Ok tt /\
  len (vectors (load_index true world_mismatched "store"
                  (init toy_model)).1) = 2 /\
  len (chunks (load_index true world_mismatched "store"
                 (init toy_model)).1) = 1.
Proof. repeat split; vm_compute; reflexivity. Qed.

Lemma load_index_outcomes_witness :
  load_index true world_without_chunks "store" (init toy_model)
  = (set_index (Some index_of_two) (init toy_model),
     Raise (FileNotFoundError "store/chunks.pkl")) /\
  load_index true empty_world "store" (init toy_model)
  = (init toy_model, Raise (FileNotFoundError "store/index.faiss")).
Proof.
  pose proof (load_index_outcomes world_without_chunks "store"
                (init toy_model)) as (_ & W & _).
  pose proof (load_index_outcomes empty_world "store" (init toy_model))
    as (V & _).
  split; [apply W | apply V]; vm_compute; reflexivity.
Defined.

(** C7, at a concrete input.  The files of an earlier build are under
    [store], and the device completes one write and then refuses to open
    a file.  [save_index] raises [OSError]; the index file is then the
    one of the new build, no longer the earlier one, and the chunk file
    is still the one of the earlier build. *)
Lemma save_index_partial_overwrite :
  files old_world !! "store/index.faiss"
  = Some (FaissFile {| Faiss.d := 2; Faiss.xb := [[0; 1]] |}) /\
  files old_world !! "store/chunks.pkl"
  = Some (PickleFile [mk_chunk "old." 0]) /\
  (save_index (built toy_model) "store" old_world).2
  = Raise (OSError "store/chunks.pkl") /\
  files (save_index (built toy_model) "store" old_world).1
    !! "store/index.faiss" = Some (FaissFile index_of_two) /\
  files (save_index (built toy_model) "store" old_world).1
    !! "store/chunks.pkl" = Some (PickleFile [mk_chunk "old." 0]).
Proof. repeat split; vm_compute; reflexivity. Qed.

(** When the second write fails after the file was opened, the chunk
    file of the earlier build is gone as well: it is cut short. *)
Example save_index_cuts_chunk_file_short :
  (save_index (built toy_model) "store" old_world_cut).2
  = Raise (OSError "store/chunks.pkl") /\
  files (save_index (built toy_model) "store" old_world_cut).1
    !! "store/index.faiss" = Some (FaissFile index_of_two) /\
  files (save_index (built toy_model) "store" old_world_cut).1
    !! "store/chunks.pkl" = Some CutShortFile.
Proof. repeat split; vm_compute; reflexivity. Qed.

(** When faiss loses the index at the close, [save_index] returns, the
    index file is cut short, and a [load_index] from the same path
    raises. *)
Example save_index_returns_without_index_file :
  (save_index (built toy_model) "store" old_world_lossy).2 = Ok tt /\
  files (save_index (built toy_model) "store" old_world_lossy).1
    !! "store/index.faiss" = Some CutShortFile /\
  files (save_index (built toy_model) "store" old_world_lossy).1
    !! "store/chunks.pkl" = Some (PickleFile two_chunks) /\
  (load_index true (save_index (built toy_model) "store" old_world_lossy).1
     "store" (init toy_model)).2
  = Raise (RuntimeError "Error in faiss::read_index").
Proof. repeat split; vm_compute; reflexivity. Qed.

Lemma save_index_outcomes_witness :
  exists w',
    save_index (built toy_model) "store" empty_world = (w', Ok tt) /\
    files w'
    = <["store/chunks.pkl" := PickleFile two_chunks]>
        (<["store/index.faiss" := FaissFile index_of_two]> ∅).
Proof.
  pose proof (save_index_outcomes (built toy_model) "store" empty_world)
    as (_ & W).
  destruct (W index_of_two eq_refl) as (_ & _ & _ & S).
  apply S; reflexivity.
Defined.

End StoreExamples.

(** ** The generation client *)

Section ClientFacts.

Import ZhipuAIClient.

Lemma http_error_true status_code :
  400 <= status_code < 600 ->
  (400 <=? status_code) && (status_code <? 600) = true.
Proof.
  intros [? ?]. apply andb_true_iff.
  split; [now apply Z.leb_le | now apply Z.ltb_lt].
Qed.

Lemma http_error_false status_code :
  ~ 400 <= status_code < 600 ->
  (400 <=? status_code) && (status_code <? 600) = false.
Proof.
  intros N. apply not_true_is_false. intros E.
  apply andb_true_iff in E as [A B].
  apply Z.leb_le in A. apply Z.ltb_lt in B. lia.
Qed.

Lemma retry_loop_failure post max_retries attempt later e :
  transport_failure (post attempt) e ->
  retry_loop post max_retries (attempt :: later)
  = if Z.of_nat attempt =? max_retries - 1
    then (Raise (Exception_request_failed max_retries e), 1%nat)
    else let '(r, n) := retry_loop post max_retries later in (r, S n).
Proof.
  intros [E | (status_code & body & E & S & ->)]; simpl; rewrite E.
  - reflexivity.
  - now rewrite (http_error_true status_code S).
Qed.

Lemma retry_loop_answer post max_retries attempt later result text :
  decoded (post attempt) result -> extract result = Ok text ->
  retry_loop post max_retries (attempt :: later) = (Ok text, 1%nat).
Proof.
  intros (status_code & E & S) X. simpl.
  now rewrite E, (http_error_false status_code S), X.
Qed.

Lemma retry_loop_parse_error post max_retries attempt later result e :
  decoded (post attempt) result -> extract result = Raise e ->
  retry_loop post max_retries (attempt :: later)
  = (Raise (match e with
            | KeyError _ | ValueError _ => on_parse_error result e
            | _ => e
            end), 1%nat).
Proof.
  intros (status_code & E & S) X. simpl.
  rewrite E, (http_error_false status_code S), X. now destruct e.
Qed.

End ClientFacts.

Section ClientClaims.

Import ZhipuAIClient.

(** C8, amended.  For a client with [max_retries = 3]: when the first two
    attempts fail in the transport (an exception of [requests.post], or
    an error status 4xx or 5xx, whatever the body) and the third brings an
    answer, [generate_response] returns it after exactly 3 requests; when
    all three fail so, it raises the exception that reports 3 retries and
    the last failure, after exactly 3 requests; when the first attempt
    brings a decoded document, with a status that is no error status, from
    which no answer can be read, it raises after that one request, and
    an error payload in that document is reported with its message. *)
Theorem generate_response_retry_policy (srv : service) (self : t)
    (messages : list message) :
  max_retries self = 3 ->
  (forall e0 e1 result text,
     transport_failure (srv messages 0%nat) e0 ->
     transport_failure (srv messages 1%nat) e1 ->
     decoded (srv messages 2%nat) result -> extract result = Ok text ->
     generate_response srv self messages = (Ok text, 3%nat)) /\
  (forall e0 e1 e2,
     transport_failure (srv messages 0%nat) e0 ->
     transport_failure (srv messages 1%nat) e1 ->
     transport_failure (srv messages 2%nat) e2 ->
     generate_response srv self messages
     = (Raise (Exception_request_failed 3 e2), 3%nat)) /\
  (forall result e,
     decoded (srv messages 0%nat) result -> extract result = Raise e ->
     exists e', generate_response srv self messages = (Raise e', 1%nat)) /\
  (forall fields details error_msg,
     decoded (srv messages 0%nat) (JObj fields) ->
     field (py "choices") fields = None ->
     field (py "error") fields = Some (JObj details) ->
     field (py "message") details = Some error_msg ->
     generate_response srv self messages
     = (Raise (Exception_api_error error_msg), 1%nat)).
Proof.
  intros M. unfold generate_response. rewrite M.
  change (seq 0 (Z.to_nat 3)) with [0%nat; 1%nat; 2%nat].
  repeat split.
  - intros e0 e1 result text F0 F1 D X.
    rewrite (retry_loop_failure _ _ _ _ e0 F0).
    rewrite (retry_loop_failure _ _ _ _ e1 F1).
    now rewrite (retry_loop_answer _ _ _ _ result text D X).
  - intros e0 e1 e2 F0 F1 F2.
    rewrite (retry_loop_failure _ _ _ _ e0 F0).
    rewrite (retry_loop_failure _ _ _ _ e1 F1).
    now rewrite (retry_loop_failure _ _ _ _ e2 F2).
  - intros result e D X.
    rewrite (retry_loop_parse_error _ _ _ _ result e D X). eauto.
  - intros fields details error_msg D C E Msg.
    assert (X : extract (JObj fields) = Raise (ValueError "API响应格式异常")).
    { unfold extract, contains. rewrite C. reflexivity. }
    rewrite (retry_loop_parse_error _ _ _ _ _ _ D X).
    unfold on_parse_error, contains, subscript, get_of. rewrite E. simpl.
    now rewrite Msg.
Qed.

End ClientClaims.

Section ClientExamples.

Import ZhipuAIClient Examples.

(** C8, at a concrete input.  The service answers every request with the
    status 401 and an error payload.  [generate_response] posts three
    requests and raises the exception of the exhausted retries: the payload
    is not reported after the first request, and its message not at all. *)
Lemma error_payload_is_retried :
  unauthorized hello 0%nat
  = Response 401 (Some (error_body "invalid api key")) /\
  generate_response unauthorized (init (py "key")) hello
  = (Raise (Exception_request_failed 3 (HTTPError 401)), 3%nat) /\
  generate_response unauthorized (init (py "key")) hello
  <> (Raise (Exception_api_error (JStr (py "invalid api key"))), 1%nat).
Proof. repeat split; vm_compute; congruence. Qed.

(** A body that is no JSON document is retried as well: the exception of
    [response.json()] is a [RequestException]. *)
Example undecodable_body_is_retried :
  generate_response garbled_once (init (py "key")) hello
  = (Ok (py "Paris."), 2%nat).
Proof. vm_compute. reflexivity. Qed.

Lemma generate_response_retry_policy_witness :
  generate_response recovering (init (py "key")) hello
  = (Ok (py "Paris."), 3%nat) /\
  generate_response down (init (py "key")) hello
  = (Raise (Exception_request_failed 3 (HTTPError 500)), 3%nat) /\
  generate_response rejecting (init (py "key")) hello
  = (Raise (Exception_api_error (JStr (py "quota exceeded"))), 1%nat).
Proof.
  assert (F : forall n, (n < 2)%nat ->
            transport_failure (recovering hello n) (HTTPError 500)).
  { intros n Hn. right. exists 500, None. unfold recovering.
    destruct (n <? 2)%nat eqn:E; [repeat split; lia|].
    apply Nat.ltb_ge in E. lia. }
  assert (G : forall n, transport_failure (down hello n) (HTTPError 500)).
  { intros n. right. exists 500, None. repeat split; lia. }
  pose proof (generate_response_retry_policy recovering (init (py "key"))
                hello eq_refl) as (W1 & _).
  pose proof (generate_response_retry_policy down (init (py "key"))
                hello eq_refl) as (_ & W2 & _).
  pose proof (generate_response_retry_policy rejecting (init (py "key"))
                hello eq_refl) as (_ & _ & _ & W4).
  split; [|split].
  - apply (W1 (HTTPError 500) (HTTPError 500) (good_body " Paris. "));
      [apply F; lia | apply F; lia | | vm_compute; reflexivity].
    exists 200. split; [reflexivity | lia].
  - apply W2 with (e0 := HTTPError 500) (e1 := HTTPError 500); apply G.
  - apply (W4 [(py "error", JObj [(py "code", JStr (py "1002"));
                                   (py "message", JStr (py "quota exceeded"))])]
              [(py "code", JStr (py "1002"));
               (py "message", JStr (py "quota exceeded"))]);
      try (vm_compute; reflexivity).
    exists 200. split; [reflexivity | lia].
Defined.

End ClientExamples.

(** ** The orchestrator *)

Section OrchestratorClaims.

Context `{Float F}.

Import RAGSystem.

Variables (cfg : Config) (srv : ZhipuAIClient.service).

(** The context block built from the hits [references]. *)
Local Abbreviation context_of := (fun references : list (VectorStore.hit F) =>
  join (py "

") (imap context_part references)).

(** An exception of the search is an exception of the body. *)
Lemma answer_with_search_raises (self : RAGSystem.t F) vs question top_k
    include_references e :
  vector_store self = Some vs ->
  VectorStore.search vs question top_k = Raise e ->
  answer_with srv self question top_k include_references = Raise e.
Proof.
  intros V S. unfold answer_with. rewrite V. simpl.
  unfold mbind, result_bind. now rewrite S.
Qed.

(** A search that returns was asked for one result at least, and gives
    no more results than it was asked for. *)
Lemma search_ok_bounds (vs : VectorStore.t F) (query : str) (top_k : Z) found :
  VectorStore.search vs query top_k = Ok found ->
  1 <= top_k /\ len found <= top_k.
Proof.
  intros S. apply search_ok_inv in S as (ix & x & fd & S & C).
  apply faiss_search_labels in S as (K & L & _).
  apply collect_length_le in C. unfold len. lia.
Qed.

Lemma context_part_nonempty (i : nat) (ref : VectorStore.hit F) :
  context_part i ref <> [].
Proof.
  unfold context_part.
  destruct (py "[文档 ") as [|c rest] eqn:E; [vm_compute in E|];
    discriminate.
Qed.

Lemma context_nonempty (references : list (VectorStore.hit F)) :
  references <> [] -> context_of references <> [].
Proof.
  destruct references as [|r rs]; [congruence|]. intros _.
  rewrite imap_cons. pose proof (context_part_nonempty 0 r) as N.
  generalize dependent (context_part 0 r). intros p N.
  generalize (py "

"). intros sep.
  destruct (imap _ rs) as [|p' ps]; [exact N|].
  change (join sep (p :: p' :: ps)) with (p ++ sep ++ join sep (p' :: ps)).
  intros E. apply app_eq_nil in E. tauto.
Qed.

(** What the body of [ask_question] has done when it returns. *)
Lemma answer_with_ok (self : RAGSystem.t F) (question : str) (top_k : Z)
    (include_references : bool) (r : response F) :
  answer_with srv self question top_k include_references = Ok r ->
  exists vs llm found text,
    vector_store self = Some vs /\ llm_client self = Some llm /\
    VectorStore.search vs question top_k = Ok found /\
    (if truthy found && include_references
     then (ZhipuAIClient.rag_chat srv llm question (context_of found) None).1
     else (ZhipuAIClient.chat srv llm question None None).1) = Ok text /\
    r = Answered question text
          (if include_references then found else [])
          (if include_references then
             if truthy found && include_references
             then context_of found else []
           else [])
          (len found).
Proof.
  unfold answer_with, mbind, result_bind.
  destruct (vector_store self) as [vs|]; [|discriminate].
  destruct (VectorStore.search vs question top_k) as [found|] eqn:S;
    [|discriminate].
  destruct (llm_client self) as [llm|]; [|discriminate].
  destruct (truthy found && include_references) eqn:C.
  - assert (T : truthy (context_of found) = true).
    { apply truthy_true, context_nonempty. apply andb_true_iff in C as [C _].
      now apply truthy_true. }
    rewrite T.
    destruct (ZhipuAIClient.rag_chat srv llm question _ None).1 as [text|]
      eqn:G; [|discriminate].
    intros [= <-]. exists vs, llm, found, text. rewrite C.
    split; [reflexivity|]. split; [reflexivity|]. split; [exact S|].
    split; [exact G | reflexivity].
  - simpl.
    destruct (ZhipuAIClient.chat srv llm question None None).1 as [text|]
      eqn:G; [|discriminate].
    intros [= <-]. exists vs, llm, found, text. rewrite C.
    split; [reflexivity|]. split; [reflexivity|]. split; [exact S|].
    split; [exact G | reflexivity].
Qed.

Lemma ask_question_ok (self : RAGSystem.t F) (question : str)
    (top_k : option Z) (include_references : bool) q a refs ctx n :
  ask_question cfg srv self question top_k include_references
  = Ok (Answered q a refs ctx n) ->
  answer_with srv self question (or_int top_k (MAX_RETRIEVAL_DOCS cfg))
    include_references = Ok (Answered q a refs ctx n).
Proof.
  unfold ask_question. destruct (negb (is_initialized self)); [discriminate|].
  destruct (answer_with _ _ _ _ _); [|discriminate]. now intros [= ->].
Qed.

Lemma search_length_le (vs : VectorStore.t F) (query : str) (top_k : Z) found :
  VectorStore.search vs query top_k = Ok found -> len found <= top_k.
Proof.
  intros S. apply search_ok_inv in S as (ix & x & fd & S & C).
  apply faiss_search_labels in S as (K & L & _).
  apply collect_length_le in C. unfold len. lia.
Qed.


(** C9: [ask_question] always returns a response.  Before a successful
    [initialize] it is the response of the system that is not
    initialized, with [success] false.  After it, whatever the search or
    the generation raises is turned into a response with [success] false
    whose answer is the apology with the text of the exception and whose
    error is that text. *)
Theorem ask_question_never_raises (self : RAGSystem.t F) (question : str)
    (top_k : option Z) (include_references : bool) :
  is_initialized (init : RAGSystem.t F) = false /\
  exists r,
    ask_question cfg srv self question top_k include_references = Ok r /\
    (is_initialized self = false ->
     r = NotInitialized /\ success r = false /\
     error r = Some SystemNotInitialized) /\
    (is_initialized self = true ->
     forall e,
       answer_with srv self question
         (or_int top_k (MAX_RETRIEVAL_DOCS cfg)) include_references
       = Raise e ->
       r = Failed question e /\ success r = false /\
       answer r = Apology e /\ error r = Some (StrOf e)) /\
    (is_initialized self = true ->
     forall vs e,
       vector_store self = Some vs ->
       VectorStore.search vs question
         (or_int top_k (MAX_RETRIEVAL_DOCS cfg)) = Raise e ->
       r = Failed question e).
Proof.
  split; [reflexivity|]. unfold ask_question.
  destruct (is_initialized self); simpl.
  - destruct (answer_with srv self question _ include_references)
      as [r|e0] eqn:A.
    + exists r. split; [reflexivity|]. split; [discriminate|].
      split; [intros _ e E; discriminate E|].
      intros _ vs e V S.
      rewrite (answer_with_search_raises self vs _ _ _ e V S) in A.
      discriminate A.
    + exists (Failed question e0). split; [reflexivity|].
      split; [discriminate|]. split.
      * intros _ e [= <-]. repeat split.
      * intros _ vs e V S.
        rewrite (answer_with_search_raises self vs _ _ _ e V S) in A.
        now injection A as <-.
  - exists NotInitialized. split; [reflexivity|].
    split; [intros _; repeat split|]. split; discriminate.
Qed.

(** C10: with [top_k] omitted or 0, an initialized [ask_question]
    searches for [MAX_RETRIEVAL_DOCS] chunks, not for none.  The call
    does what the call with [top_k = MAX_RETRIEVAL_DOCS] does; when the
    search of the store for [MAX_RETRIEVAL_DOCS] chunks raises, the
    response is the failure with that exception; a response with an answer
    is built on the result of that search: it counts its hits, which are
    at most [MAX_RETRIEVAL_DOCS], carries them as the references when
    they are included, and there is none unless [MAX_RETRIEVAL_DOCS] is 1
    at least; and when that search and the generation on its hits return,
    the response is the answer with those hits. *)
Theorem ask_question_top_k_default (self : RAGSystem.t F)
    (vs : VectorStore.t F) (question : str) (top_k : option Z)
    (include_references : bool) :
  top_k = None \/ top_k = Some 0 ->
  is_initialized self = true ->
  vector_store self = Some vs ->
  ask_question cfg srv self question top_k include_references
  = ask_question cfg srv self question (Some (MAX_RETRIEVAL_DOCS cfg))
      include_references /\
  (forall e,
     VectorStore.search vs question (MAX_RETRIEVAL_DOCS cfg) = Raise e ->
     ask_question cfg srv self question top_k include_references
     = Ok (Failed question e)) /\
  (forall q a refs ctx n,
     ask_question cfg srv self question top_k include_references
     = Ok (Answered q a refs ctx n) ->
     1 <= MAX_RETRIEVAL_DOCS cfg /\
     exists found,
       VectorStore.search vs question (MAX_RETRIEVAL_DOCS cfg) = Ok found /\
       n = len found /\ n <= MAX_RETRIEVAL_DOCS cfg /\
       (include_references = true -> refs = found)) /\
  (forall found llm text,
     VectorStore.search vs question (MAX_RETRIEVAL_DOCS cfg) = Ok found ->
     llm_client self = Some llm ->
     (if truthy found && include_references
      then (ZhipuAIClient.rag_chat srv llm question (context_of found) None).1
      else (ZhipuAIClient.chat srv llm question None None).1) = Ok text ->
     exists ctx,
       ask_question cfg srv self question top_k include_references
       = Ok (Answered question text
               (if include_references then found else []) ctx (len found))).
Proof.
  intros D I V.
  assert (E : or_int top_k (MAX_RETRIEVAL_DOCS cfg) = MAX_RETRIEVAL_DOCS cfg).
  { destruct D as [-> | ->]; reflexivity. }
  assert (E' : or_int (Some (MAX_RETRIEVAL_DOCS cfg)) (MAX_RETRIEVAL_DOCS cfg)
               = MAX_RETRIEVAL_DOCS cfg).
  { unfold or_int. now destruct (MAX_RETRIEVAL_DOCS cfg =? 0). }
  split; [|split; [|split]].
  - unfold ask_question. cbv zeta. now rewrite E, E'.
  - intros e S. unfold ask_question. cbv zeta. rewrite I, E.
    now rewrite (answer_with_search_raises self vs _ _ _ e V S).
  - intros q a refs ctx n A. apply ask_question_ok in A. rewrite E in A.
    apply answer_with_ok in A as (vs' & llm & found & text & V' & L & S & G & R).
    rewrite V in V'. injection V' as <-.
    destruct (search_ok_bounds _ _ _ _ S) as [K Le].
    injection R as -> -> -> -> ->.
    split; [exact K|]. exists found. repeat split; try assumption.
    now intros ->.
  - intros found llm text S L G. unfold ask_question. cbv zeta.
    rewrite I, E. unfold answer_with, mbind, result_bind. rewrite V, S, L.
    destruct (truthy found && include_references) eqn:C.
    + assert (T : truthy (context_of found) = true).
      { apply truthy_true, context_nonempty.
        apply andb_true_iff in C as [C _]. now apply truthy_true. }
      rewrite T, G. eexists. reflexivity.
    + simpl. rewrite G. eexists. reflexivity.
Qed.

End OrchestratorClaims.

Section OrchestratorExamples.

Import RAGSystem Examples.

Example ask_question_answers :
  exists refs context,
    ask_question default_config recovering ready (py "alpha?") None true
    = Ok (Answered (py "alpha?") (py "Paris.") refs context 3) /\
    len refs = 3.
Proof. do 2 eexists. vm_compute. split; reflexivity. Qed.

Example ask_question_service_down :
  ask_question default_config down ready (py "alpha?") (Some 2) true
  = Ok (Failed (py "alpha?") (Exception_request_failed 3 (HTTPError 500))).
Proof. vm_compute. reflexivity. Qed.

Lemma ask_question_never_raises_witness :
  exists r,
    ask_question default_config down ready (py "alpha?") (Some 2) true
    = Ok r /\
    r = Failed (py "alpha?") (Exception_request_failed 3 (HTTPError 500)) /\
    success r = false.
Proof.
  destruct (ask_question_never_raises default_config down ready
              (py "alpha?") (Some 2) true) as (_ & r & E & _ & W & _).
  exists r. split; [exact E|].
  destruct (W eq_refl (Exception_request_failed 3 (HTTPError 500)))
    as (R & S & _); [vm_compute; reflexivity | auto].
Defined.

Lemma ask_question_top_k_default_witness :
  exists a refs ctx,
    ask_question default_config recovering ready (py "alpha?") (Some 0) true
    = Ok (Answered (py "alpha?") a refs ctx 3) /\
    exists found,
      VectorStore.search (built toy_model) (py "alpha?") 3 = Ok found /\
      3 = len found /\ refs = found.
Proof.
  do 3 eexists.
  match goal with
  | |- ?A /\ _ => assert (E : A) by (vm_compute; reflexivity)
  end.
  split; [exact E|].
  destruct (ask_question_top_k_default default_config recovering ready
              (built toy_model) (py "alpha?") (Some 0) true
              (or_intror eq_refl) eq_refl eq_refl) as (_ & _ & W & _).
  destruct (W _ _ _ _ _ E) as (_ & found & S & N & _ & R).
  exists found. split; [exact S|]. split; [exact N | now apply R].
Defined.

End OrchestratorExamples.

(** * Further properties *)

(** ** More on strings *)

Section StringsMore.

Implicit Types s t : str.

Lemma blank_forallb s : forallb isspace s = true <-> blank s.
Proof.
  unfold blank. induction s as [|c s IH]; simpl.
  - split; [constructor | reflexivity].
  - rewrite andb_true_iff, Forall_cons, IH. reflexivity.
Qed.

Lemma lstrip_nil s : lstrip s = [] <-> blank s.
Proof.
  unfold blank. induction s as [|c s IH]; simpl.
  - split; [constructor | reflexivity].
  - rewrite Forall_cons. destruct (isspace c); [rewrite IH; tauto|].
    split; [discriminate | intros [E _]; discriminate E].
Qed.

Lemma rstrip_nil_iff s : rstrip s = [] <-> blank s.
Proof.
  unfold rstrip, blank. rewrite <- (Forall_reverse _ s).
  rewrite <- (lstrip_nil (reverse s)). split.
  - intros E. apply (f_equal reverse) in E.
    now rewrite reverse_involutive in E.
  - intros ->. reflexivity.
Qed.

Lemma rstrip_prefix s : rstrip s `prefix_of` s.
Proof.
  induction s as [|c s IH]; [apply prefix_nil|].
  rewrite rstrip_cons. destruct (rstrip s) as [|a u] eqn:E.
  - destruct (isspace c); [apply prefix_nil|].
    apply prefix_cons, prefix_nil.
  - now apply prefix_cons.
Qed.

Lemma lstrip_blank_app s t : blank s -> lstrip (s ++ t) = lstrip t.
Proof. intros B. apply lstrip_nil in B. now rewrite lstrip_app, B. Qed.

Lemma strip_nil s : strip s = [] <-> blank s.
Proof.
  unfold strip. rewrite <- rstrip_lstrip, rstrip_nil_iff. split.
  - intros B. apply lstrip_nil. rewrite <- lstrip_idemp. now apply lstrip_nil.
  - intros B. apply lstrip_nil in B. rewrite B. constructor.
Qed.

(** A buffer that ends with a sentence keeps it when it is stripped. *)
Lemma strip_ends_with_sentence x s :
  trimmed s -> s <> [] -> strip (x ++ s ++ SPACE) = lstrip (x ++ s).
Proof.
  intros [L R] N. rewrite app_assoc, strip_space. unfold strip.
  now rewrite rstrip_keep.
Qed.

Lemma lstrip_ends_with_sentence x s :
  trimmed s -> s <> [] -> exists a, lstrip (x ++ s) = a ++ s.
Proof.
  intros [L R] N. rewrite lstrip_app.
  destruct (lstrip x) as [|c u] eqn:E.
  - exists []. now rewrite L.
  - now exists (c :: u).
Qed.

Lemma strip_sentence_ended cur :
  sentence_ended cur -> cur <> [] -> strip cur <> [].
Proof.
  intros S N. destruct (S N) as (x & s & -> & T & Ns).
  rewrite (strip_ends_with_sentence x s T Ns).
  destruct (lstrip_ends_with_sentence x s T Ns) as (a & ->).
  intros E. apply app_eq_nil in E. tauto.
Qed.

(** The stripped buffer is the beginning of the stripped longer buffer. *)
Lemma strip_prefix_extend cur s :
  trimmed s -> s <> [] ->
  strip cur `prefix_of` strip (cur ++ s ++ SPACE).
Proof.
  intros T N. rewrite (strip_ends_with_sentence cur s T N), lstrip_app.
  unfold strip. rewrite <- rstrip_lstrip.
  destruct (lstrip cur) as [|c u] eqn:E; [apply prefix_nil|].
  apply prefix_app_r, rstrip_prefix.
Qed.

Lemma occurs_in_prefix s c c' :
  occurs_in s c -> c `prefix_of` c' -> occurs_in s c'.
Proof.
  intros (a & b & ->) [k ->]. exists a, (b ++ k). now rewrite <- !app_assoc.
Qed.

End StringsMore.

(** ** More on the chunker *)

Section ChunkerMore.

Import DocumentProcessor.

Variables (chunk_size chunk_overlap : Z).

Local Abbreviation step := (step chunk_size chunk_overlap).

Implicit Types (st : splitter) (p s : str).

(** The three ways a round of the loop goes: the sentence is empty, it is
    appended, or it begins a new buffer after the open one was closed. *)
Lemma step_shape st p :
  (strip p = [] /\ step st p = st) \/
  (strip p <> [] /\
   step st p = {| chunks := chunks st;
                  current_chunk := current_chunk st ++ strip p ++ SPACE |}) \/
  (strip p <> [] /\
   exists seed,
     step st p = {| chunks := finish st;
                    current_chunk := seed ++ strip p ++ SPACE |} /\
     ((seed = [] /\ (chunk_overlap <= 0 \/ finish st = [])) \/
      (0 < chunk_overlap /\
       exists last_chunk,
         last (finish st) = Some last_chunk /\
         seed = overlap_seed chunk_overlap last_chunk ++ SPACE))).
Proof.
  unfold DocumentProcessor.step, finish.
  destruct (truthy (strip p)) eqn:T; simpl negb; cbv iota.
  2:{ left. split; [now apply truthy_false | reflexivity]. }
  apply truthy_true in T. right.
  destruct (len (current_chunk st) + len (strip p) <=? chunk_size);
    [left; now split|].
  right. split; [exact T|].
  set (closed := if truthy (current_chunk st)
                 then chunks st ++ [strip (current_chunk st)]
                 else chunks st).
  destruct (0 <? chunk_overlap) eqn:Ov.
  - apply Z.ltb_lt in Ov. destruct (last closed) as [last_chunk|] eqn:La.
    + exists (overlap_seed chunk_overlap last_chunk ++ SPACE).
      split; [now rewrite <- !app_assoc|]. right. eauto.
    + exists []. split; [reflexivity|]. left. split; [reflexivity|].
      right. now apply last_None.
  - apply Z.ltb_ge in Ov. exists []. split; [reflexivity|]. left. auto.
Qed.

Lemma finish_elem st (c : str) :
  c ∈ finish st <->
  c ∈ chunks st \/ (current_chunk st <> [] /\ c = strip (current_chunk st)).
Proof.
  unfold finish. destruct (truthy (current_chunk st)) eqn:T.
  - apply truthy_true in T. rewrite elem_of_app, list_elem_of_singleton. tauto.
  - apply truthy_false in T. rewrite T. split; [auto | tauto].
Qed.

(** *** Chunks are trimmed and not empty *)

Lemma step_tidy st p :
  Forall (fun c => trimmed c /\ c <> []) (chunks st) ->
  sentence_ended (current_chunk st) ->
  Forall (fun c => trimmed c /\ c <> []) (chunks (step st p)) /\
  sentence_ended (current_chunk (step st p)).
Proof.
  intros Hc Hb.
  assert (Hf : Forall (fun c => trimmed c /\ c <> []) (finish st)).
  { apply Forall_forall. intros c Hin. apply finish_elem in Hin as [Hin | [N ->]].
    - rewrite Forall_forall in Hc. now apply Hc.
    - split; [apply trimmed_strip | now apply strip_sentence_ended]. }
  destruct (step_shape st p) as [[_ ->] | [[N ->] | (N & seed & -> & _)]];
    simpl; (split; [assumption|]); try assumption; intros _.
  - exists (current_chunk st), (strip p).
    split; [reflexivity|]. split; [apply trimmed_strip | exact N].
  - exists seed, (strip p).
    split; [reflexivity|]. split; [apply trimmed_strip | exact N].
Qed.

Lemma fold_step_tidy pieces st :
  Forall (fun c => trimmed c /\ c <> []) (chunks st) ->
  sentence_ended (current_chunk st) ->
  Forall (fun c => trimmed c /\ c <> []) (finish (fold_left step pieces st)).
Proof.
  revert st. induction pieces as [|p pieces IH]; intros st Hc Hb; simpl.
  - apply Forall_forall. intros c Hin.
    apply finish_elem in Hin as [Hin | [N ->]].
    + rewrite Forall_forall in Hc. now apply Hc.
    + split; [apply trimmed_strip | now apply strip_sentence_ended].
  - destruct (step_tidy st p Hc Hb). now apply IH.
Qed.

(** *** A document gives no chunk exactly when it is blank *)

Lemma mark_not_space c : is_mark c = true -> isspace c = false.
Proof.
  unfold is_mark. rewrite !orb_true_iff, !N.eqb_eq.
  intros [[[[[-> | ->] | ->] | ->] | ->] | ->]; reflexivity.
Qed.

Lemma sentences_of_blank pieces :
  Forall blank pieces -> sentences_of pieces = [].
Proof.
  induction 1 as [|p pieces B _ IH]; [reflexivity|].
  rewrite sentences_of_cons. apply strip_nil in B. now rewrite B.
Qed.

Lemma re_split_blank skipping text :
  blank text -> Forall blank (re_split skipping text).
Proof.
  revert skipping. induction text as [|c text IH]; intros skipping B; simpl.
  - repeat constructor.
  - apply Forall_cons in B as [Hc B].
    destruct (is_mark c) eqn:M;
      [apply mark_not_space in M; congruence|].
    rewrite Hc, andb_true_r. destruct skipping; [now apply IH|].
    specialize (IH false B).
    destruct (re_split false text) as [|piece more];
      [repeat constructor; exact Hc|].
    apply Forall_cons in IH as [Hp Hm].
    constructor; [now constructor | exact Hm].
Qed.

Lemma sentences_of_nil_blank skipping text :
  sentences_of (re_split skipping text) = [] -> blank text.
Proof.
  revert skipping. induction text as [|c text IH]; intros skipping.
  - constructor.
  - cbn [re_split]. destruct (skipping && isspace c) eqn:K.
    + apply andb_true_iff in K as [_ K]. intros E.
      constructor; [exact K | now apply (IH true)].
    + cbv zeta. destruct (is_mark c) eqn:M.
      * rewrite sentences_of_cons.
        destruct (truthy (strip [c])) eqn:T; [discriminate|].
        apply truthy_false, strip_nil, Forall_cons in T as [T _].
        apply mark_not_space in M. rewrite M in T. discriminate T.
      * destruct (re_split false text) as [|piece more] eqn:R.
        { pose proof (IH false) as IH'. rewrite R in IH'.
          rewrite sentences_of_cons.
          destruct (truthy (strip [c])) eqn:T; [discriminate|].
          apply truthy_false, strip_nil, Forall_cons in T as [T _].
          intros _. constructor; [exact T | now apply IH']. }
        rewrite sentences_of_cons.
        destruct (truthy (strip (c :: piece))) eqn:T; [discriminate|].
        apply truthy_false, strip_nil, Forall_cons in T as [T Bp].
        intros E. constructor; [exact T|]. apply (IH false).
        rewrite R, sentences_of_cons. apply strip_nil in Bp. now rewrite Bp.
Qed.

Lemma fold_step_no_sentence pieces st :
  sentences_of pieces = [] -> fold_left step pieces st = st.
Proof.
  revert st. induction pieces as [|p pieces IH]; intros st E; [reflexivity|].
  rewrite sentences_of_cons in E.
  destruct (truthy (strip p)) eqn:T; [discriminate|].
  simpl. unfold DocumentProcessor.step at 2. rewrite T. simpl. now apply IH.
Qed.

Lemma fold_step_opens pieces st :
  current_chunk st <> [] \/ sentences_of pieces <> [] ->
  current_chunk (fold_left step pieces st) <> [].
Proof.
  revert st. induction pieces as [|p pieces IH]; intros st H; simpl.
  - destruct H as [H | H]; [exact H | now destruct H].
  - apply IH. rewrite sentences_of_cons in H.
    destruct (step_shape st p) as [[E ->] | [[N ->] | (N & seed & -> & _)]];
      simpl.
    + apply truthy_false in E. rewrite E in H. exact H.
    + left. intros E. apply app_eq_nil in E as [_ E].
      apply app_eq_nil in E as [_ E]. discriminate E.
    + left. intros E. apply app_eq_nil in E as [_ E].
      apply app_eq_nil in E as [_ E]. discriminate E.
Qed.

Lemma split_text_nil_iff text :
  _split_text chunk_size chunk_overlap text = [] <->
  sentences_of (re_split false text) = [].
Proof.
  unfold _split_text. split.
  - intros E.
    destruct (sentences_of (re_split false text)) as [|s ss] eqn:S;
      [reflexivity|].
    pose proof (fold_step_opens (re_split false text)
                  {| chunks := []; current_chunk := [] |}) as O.
    rewrite S in O.
    assert (N : s :: ss <> []) by discriminate.
    specialize (O (or_intror N)).
    unfold finish in E. apply truthy_true in O. fold step in E.
    rewrite O in E. apply app_eq_nil in E as [_ E]. discriminate E.
  - intros E. fold step. now rewrite fold_step_no_sentence.
Qed.

End ChunkerMore.

Section ChunkerLossless.

Import DocumentProcessor.

Variables (chunk_size chunk_overlap : Z).

Local Abbreviation step := (step chunk_size chunk_overlap).

Implicit Types (st : splitter) (p s : str).

Lemma sentences_of_one p pieces :
  sentences_of (p :: pieces) = sentences_of [p] ++ sentences_of pieces.
Proof.
  rewrite !sentences_of_cons. now destruct (truthy (strip p)).
Qed.

Lemma sentences_of_one_elem p s :
  s ∈ sentences_of [p] -> s = strip p /\ strip p <> [].
Proof.
  rewrite sentences_of_cons. destruct (truthy (strip p)) eqn:T.
  - intros E. apply list_elem_of_singleton in E.
    split; [exact E | now apply truthy_true].
  - intros E. inversion E.
Qed.

(** *** Without overlap the chunks hold the sentences, each once *)

Lemma strip_buffer (ss : list str) :
  ss <> [] -> Forall (fun s => trimmed s /\ s <> []) ss ->
  strip (buffer ss) ++ SPACE = buffer ss.
Proof.
  intros N T. rewrite (buffer_join ss N), strip_space.
  now rewrite (strip_trimmed _ (join_trimmed ss T)).
Qed.

Lemma buffer_finish st :
  sentences_only (current_chunk st) ->
  buffer (finish st) = buffer (chunks st) ++ current_chunk st.
Proof.
  intros S. unfold finish. destruct (truthy (current_chunk st)) eqn:T.
  - apply truthy_true in T. destruct (S T) as (ss & N & F & E).
    rewrite buffer_app. f_equal.
    change (buffer [strip (current_chunk st)])
      with (strip (current_chunk st) ++ SPACE).
    rewrite E. now apply strip_buffer.
  - apply truthy_false in T. now rewrite T, app_nil_r.
Qed.

Lemma sentences_only_snoc (cur : str) p :
  strip p <> [] -> sentences_only cur ->
  sentences_only (cur ++ strip p ++ SPACE).
Proof.
  intros N S _.
  assert (B : buffer [strip p] = strip p ++ SPACE) by reflexivity.
  assert (T : trimmed (strip p) /\ strip p <> [])
    by (split; [apply trimmed_strip | exact N]).
  destruct cur as [|c cur].
  - exists [strip p]. split; [discriminate|]. split; [now constructor|].
    now rewrite B.
  - destruct S as (ss & Nss & F & E); [discriminate|].
    exists (ss ++ [strip p]). split.
    { intros Z0. apply app_eq_nil in Z0 as [_ Z0]. discriminate Z0. }
    split; [apply Forall_app; split; [exact F | now constructor]|].
    now rewrite buffer_app, B, E.
Qed.

Lemma step_partition st p (done : list str) :
  chunk_overlap <= 0 ->
  sentences_only (current_chunk st) ->
  buffer (chunks st) ++ current_chunk st = buffer done ->
  sentences_only (current_chunk (step st p)) /\
  buffer (chunks (step st p)) ++ current_chunk (step st p)
  = buffer (done ++ sentences_of [p]).
Proof.
  intros Ov S E. rewrite sentences_of_cons.
  change (sentences_of []) with (@nil str).
  assert (B : buffer [strip p] = strip p ++ SPACE) by reflexivity.
  destruct (step_shape chunk_size chunk_overlap st p)
    as [[N ->] | [[N ->] | (N & seed & -> & Hseed)]]; simpl.
  - apply truthy_false in N. rewrite N, app_nil_r. now split.
  - apply truthy_true in N as T. rewrite T.
    split; [now apply sentences_only_snoc|].
    now rewrite app_assoc, E, buffer_app, B.
  - apply truthy_true in N as T. rewrite T.
    destruct Hseed as [[-> _] | [Ov' _]]; [|lia].
    split; [apply (sentences_only_snoc [] p N); intros Z0; now destruct Z0|].
    simpl. now rewrite (buffer_finish st S), E, buffer_app, B.
Qed.

Lemma fold_step_partition pieces st (done : list str) :
  chunk_overlap <= 0 ->
  sentences_only (current_chunk st) ->
  buffer (chunks st) ++ current_chunk st = buffer done ->
  buffer (finish (fold_left step pieces st))
  = buffer (done ++ sentences_of pieces).
Proof.
  intros Ov. revert st done.
  induction pieces as [|p pieces IH]; intros st done S E; simpl.
  - now rewrite (buffer_finish st S), app_nil_r.
  - destruct (step_partition st p done Ov S E) as [S' E'].
    rewrite (IH _ _ S' E'), (sentences_of_one p pieces).
    now rewrite <- app_assoc.
Qed.

Lemma buffer_nil (ss : list str) : buffer ss = [] -> ss = [].
Proof.
  destruct ss as [|s ss]; [reflexivity|]. simpl. intros E.
  apply app_eq_nil in E as [_ E]. discriminate E.
Qed.

Lemma buffer_join_eq (a b : list str) :
  buffer a = buffer b -> join SPACE a = join SPACE b.
Proof.
  intros E. destruct a as [|x a].
  - symmetry in E. apply buffer_nil in E. now subst.
  - destruct b as [|y b]; [apply buffer_nil in E; discriminate E|].
    rewrite !buffer_join in E by discriminate.
    now apply app_inv_tail in E.
Qed.

(** *** No sentence is lost *)

Lemma step_keeps st p (done : list str) :
  (forall s, s ∈ done -> exists c, c ∈ finish st /\ occurs_in s c) ->
  forall s, s ∈ done ++ sentences_of [p] ->
            exists c, c ∈ finish (step st p) /\ occurs_in s c.
Proof.
  intros K s Hs.
  assert (New : forall x, strip p <> [] ->
            occurs_in (strip p) (strip (x ++ strip p ++ SPACE))).
  { intros x N. rewrite strip_ends_with_sentence
      by (apply trimmed_strip || exact N).
    destruct (lstrip_ends_with_sentence x (strip p)) as (a & ->);
      [apply trimmed_strip | exact N |].
    exists a, []. now rewrite app_nil_r. }
  destruct (step_shape chunk_size chunk_overlap st p)
    as [[N E] | [[N E] | (N & seed & E & _)]]; rewrite E.
  - apply elem_of_app in Hs as [Hs | Hs]; [now apply K|].
    apply sentences_of_one_elem in Hs. tauto.
  - assert (Open : current_chunk st ++ strip p ++ SPACE <> []).
    { intros Z0. apply app_eq_nil in Z0 as [_ Z0].
      apply app_eq_nil in Z0 as [_ Z0]. discriminate Z0. }
    apply elem_of_app in Hs as [Hs | Hs].
    + destruct (K s Hs) as (c & Hc & O).
      apply finish_elem in Hc as [Hc | [_ ->]].
      * exists c. split; [|exact O]. apply finish_elem. now left.
      * eexists. split; [apply finish_elem; right; split;
                          [exact Open | reflexivity]|].
        simpl. apply (occurs_in_prefix _ _ _ O).
        apply strip_prefix_extend; [apply trimmed_strip | exact N].
    + apply sentences_of_one_elem in Hs as [-> _].
      eexists. split; [apply finish_elem; right; split;
                        [exact Open | reflexivity]|].
      simpl. now apply New.
  - assert (Open : seed ++ strip p ++ SPACE <> []).
    { intros Z0. apply app_eq_nil in Z0 as [_ Z0].
      apply app_eq_nil in Z0 as [_ Z0]. discriminate Z0. }
    apply elem_of_app in Hs as [Hs | Hs].
    + destruct (K s Hs) as (c & Hc & O).
      exists c. split; [|exact O]. apply finish_elem. now left.
    + apply sentences_of_one_elem in Hs as [-> _].
      eexists. split; [apply finish_elem; right; split;
                        [exact Open | reflexivity]|].
      simpl. now apply New.
Qed.

Lemma fold_step_keeps pieces st (done : list str) :
  (forall s, s ∈ done -> exists c, c ∈ finish st /\ occurs_in s c) ->
  forall s, s ∈ done ++ sentences_of pieces ->
            exists c, c ∈ finish (fold_left step pieces st) /\ occurs_in s c.
Proof.
  revert st done. induction pieces as [|p pieces IH]; intros st done K s Hs.
  - rewrite app_nil_r in Hs. now apply K.
  - simpl. apply (IH _ (done ++ sentences_of [p])).
    + now apply step_keeps.
    + now rewrite <- app_assoc, <- (sentences_of_one p pieces).
Qed.

End ChunkerLossless.

Section ChunkerOverlap.

Import DocumentProcessor.

Variables (chunk_size chunk_overlap : Z).

Local Abbreviation step := (step chunk_size chunk_overlap).

Implicit Types (st : splitter) (p s : str).

(** A chunk and its successor: the tail that seeds the next buffer, its
    leading whitespace dropped, begins the successor. *)
Local Abbreviation seeds := (fun c c' : str =>
  lstrip (overlap_seed chunk_overlap c) `prefix_of` c').

Lemma chained_snoc {A} (R : A -> A -> Prop) (l : list A) (y : A) :
  chained R l -> (forall x, last l = Some x -> R x y) ->
  chained R (l ++ [y]).
Proof.
  intros C L i a b Ha Hb.
  destruct (decide (S i < length l)%nat) as [In | Out].
  - rewrite lookup_app_l in Ha by lia. rewrite lookup_app_l in Hb by lia.
    now apply (C i).
  - apply lookup_snoc_Some in Hb as [[Hlt _] | [Hi ->]]; [lia|].
    rewrite lookup_app_l in Ha by lia. apply L.
    rewrite last_lookup. now replace (pred (length l)) with i by lia.
Qed.

Lemma chained_snoc_weaken {A} (R : A -> A -> Prop) (l : list A) (y y' : A) :
  chained R (l ++ [y]) -> (forall x, R x y -> R x y') ->
  chained R (l ++ [y']).
Proof.
  intros C W. apply chained_snoc.
  - intros i a b Ha Hb. apply (C i).
    + apply lookup_lt_Some in Ha as Hlt. now rewrite lookup_app_l by lia.
    + apply lookup_lt_Some in Hb as Hlt. now rewrite lookup_app_l by lia.
  - intros x Hx. apply W. rewrite last_lookup in Hx.
    destruct l as [|a l]; [discriminate Hx|]. simpl in Hx.
    apply (C (length l)).
    + rewrite lookup_app_l by (simpl; lia). exact Hx.
    + rewrite lookup_app_r by (simpl; lia).
      now replace (S (length l) - length (a :: l))%nat with 0%nat
        by (simpl; lia).
Qed.

Lemma finish_open st :
  current_chunk st <> [] ->
  finish st = chunks st ++ [strip (current_chunk st)].
Proof.
  intros N. unfold finish. apply truthy_true in N. now rewrite N.
Qed.

Lemma step_chain st p :
  0 < chunk_overlap ->
  chained seeds (finish st) ->
  (chunks st <> [] -> current_chunk st <> []) ->
  chained seeds (finish (step st p)) /\
  (chunks (step st p) <> [] -> current_chunk (step st p) <> []).
Proof.
  intros Ov C O.
  destruct (step_shape chunk_size chunk_overlap st p)
    as [[N ->] | [[N ->] | (N & seed & -> & Hseed)]].
  - now split.
  - assert (Open : current_chunk st ++ strip p ++ SPACE <> []).
    { intros Z0. apply app_eq_nil in Z0 as [_ Z0].
      apply app_eq_nil in Z0 as [_ Z0]. discriminate Z0. }
    split; [|intros _; exact Open].
    rewrite finish_open by exact Open. simpl.
    destruct (current_chunk st) as [|c cur] eqn:Cur.
    + destruct (chunks st) as [|c0 cs0] eqn:Cs.
      * intros [|i] a b Ha Hb; simpl in *; discriminate.
      * exfalso. apply O; [discriminate | reflexivity].
    + rewrite <- Cur in *.
      assert (Open0 : current_chunk st <> []) by (rewrite Cur; discriminate).
      rewrite (finish_open st Open0) in C.
      apply (chained_snoc_weaken _ _ _ _ C). intros x Hx.
      etransitivity; [exact Hx|].
      apply strip_prefix_extend; [apply trimmed_strip | exact N].
  - assert (Open : seed ++ strip p ++ SPACE <> []).
    { intros Z0. apply app_eq_nil in Z0 as [_ Z0].
      apply app_eq_nil in Z0 as [_ Z0]. discriminate Z0. }
    split; [|intros _; exact Open].
    rewrite finish_open by exact Open. simpl.
    apply chained_snoc; [exact C|]. intros x Hx.
    rewrite strip_ends_with_sentence by (apply trimmed_strip || exact N).
    destruct Hseed as [[_ [Le | E]] | (_ & last_chunk & La & ->)]; [lia | |].
    + rewrite E in Hx. discriminate Hx.
    + rewrite La in Hx. injection Hx as <-.
      rewrite <- !app_assoc, lstrip_app.
      destruct (lstrip (overlap_seed chunk_overlap last_chunk));
        [apply prefix_nil | now eexists].
Qed.

Lemma fold_step_chain pieces st :
  0 < chunk_overlap ->
  chained seeds (finish st) ->
  (chunks st <> [] -> current_chunk st <> []) ->
  chained seeds (finish (fold_left step pieces st)).
Proof.
  intros Ov. revert st. induction pieces as [|p pieces IH]; intros st C O.
  - exact C.
  - simpl. destruct (step_chain st p Ov C O) as [C' O']. now apply IH.
Qed.

End ChunkerOverlap.

Section ChunkerExtras.

Import DocumentProcessor.

(** X1: every chunk of [_split_text] is non-empty and has no whitespace
    at either end. *)
Theorem split_text_chunks_trimmed (chunk_size chunk_overlap : Z) (text : str) :
  Forall (fun c => trimmed c /\ c <> [])
    (_split_text chunk_size chunk_overlap text).
Proof.
  unfold _split_text. apply fold_step_tidy; [constructor|].
  intros N. now destruct N.
Qed.

(** X2: [_split_text] gives no chunk exactly when the document consists
    of whitespace only (the empty document included). *)
Theorem split_text_empty_iff_blank (chunk_size chunk_overlap : Z)
    (text : str) :
  _split_text chunk_size chunk_overlap text = [] <->
  forallb isspace text = true.
Proof.
  rewrite split_text_nil_iff, blank_forallb. split.
  - apply sentences_of_nil_blank.
  - intros B. apply sentences_of_blank. now apply re_split_blank.
Qed.

(** X3: without overlap ([chunk_overlap <= 0]) the chunks, joined by
    single spaces, are the stripped sentences of the document joined by
    single spaces: nothing is lost, repeated or reordered. *)
Theorem split_text_no_overlap_lossless (chunk_size chunk_overlap : Z)
    (text : str) :
  chunk_overlap <= 0 ->
  join SPACE (_split_text chunk_size chunk_overlap text)
  = join SPACE (sentences_of (re_split false text)).
Proof.
  intros Ov. apply buffer_join_eq. unfold _split_text.
  rewrite (fold_step_partition chunk_size chunk_overlap _ _ [] Ov);
    [reflexivity | | reflexivity].
  intros N. now destruct N.
Qed.

Lemma split_text_no_overlap_lossless_witness :
  join SPACE (_split_text 10 0 (py "aaaaaaaa. bbbbbbbb.  cc!"))
  = py "aaaaaaaa. bbbbbbbb. cc!".
Proof.
  rewrite (split_text_no_overlap_lossless 10 0); [|lia].
  vm_compute. reflexivity.
Defined.

(** X4: whatever the sizes, every sentence of the document occurs in at
    least one chunk. *)
Theorem split_text_keeps_sentences (chunk_size chunk_overlap : Z)
    (text s : str) :
  s ∈ sentences_of (re_split false text) ->
  exists c, c ∈ _split_text chunk_size chunk_overlap text /\ occurs_in s c.
Proof.
  intros Hs. unfold _split_text.
  apply (fold_step_keeps chunk_size chunk_overlap _ _ []); [|exact Hs].
  intros s' Hs'. inversion Hs'.
Qed.

Lemma split_text_keeps_sentences_witness :
  exists c, c ∈ _split_text 10 5 (py "aaaaaaaa. bbbbbbbb.") /\
            occurs_in (py "bbbbbbbb.") c.
Proof.
  apply (split_text_keeps_sentences 10 5). vm_compute.
  apply elem_of_cons. right. apply elem_of_cons. now left.
Defined.

(** X5: with [chunk_overlap > 0], of two consecutive chunks the second
    begins with the last [chunk_overlap] characters of the first (all of
    it when it is shorter), their leading whitespace dropped. *)
Theorem split_text_overlap_chain (chunk_size chunk_overlap : Z) (text : str) :
  0 < chunk_overlap ->
  chained (fun c c' => lstrip (overlap_seed chunk_overlap c) `prefix_of` c')
    (_split_text chunk_size chunk_overlap text).
Proof.
  intros Ov. unfold _split_text. apply fold_step_chain; [exact Ov | |].
  - intros i a b Ha. discriminate Ha.
  - intros N. now destruct N.
Qed.

Lemma split_text_overlap_chain_witness :
  py "ance." `prefix_of` py "ance. It is known for the Eiffel Tower.".
Proof.
  apply (split_text_overlap_chain 40 5
           (py "Paris is the capital of France. It is known for the Eiffel Tower.")
           ltac:(lia) 0%nat (py "Paris is the capital of France."));
    vm_compute; reflexivity.
Defined.

(** X6: [split_documents] numbers the chunks of each document from 0:
    its result holds exactly the chunks of the documents' texts, each
    with the name and type of its document and its position in that
    document's chunk sequence; the chunks of the documents follow each
    other in the order of the documents. *)
Theorem split_documents_chunks (chunk_size chunk_overlap : Z)
    (documents more : list document) (c : chunk) :
  (c ∈ split_documents chunk_size chunk_overlap documents <->
   exists doc i text,
     doc ∈ documents /\
     _split_text chunk_size chunk_overlap (doc_content doc) !! i = Some text /\
     c = {| file_name := doc_file_name doc; content := text;
            chunk_id := Z.of_nat i; type := doc_type doc |}) /\
  split_documents chunk_size chunk_overlap (documents ++ more)
  = split_documents chunk_size chunk_overlap documents
    ++ split_documents chunk_size chunk_overlap more.
Proof.
  unfold split_documents. split; [|apply bind_app].
  rewrite list_elem_of_bind. split.
  - intros (doc & Hc & Hd). apply elem_of_lookup_imap in Hc as (i & text & -> & Hi).
    exists doc, i, text. auto.
  - intros (doc & i & text & Hd & Hi & ->). exists doc. split; [|exact Hd].
    apply elem_of_lookup_imap. exists i, text. auto.
Qed.

End ChunkerExtras.

(** ** Loading the documents *)

Section LoaderExtras.

Import DocumentProcessor DocumentLoader.

Lemma load_entry_contents (e : entry) (doc : document) :
  doc ∈ load_entry e ->
  doc_file_name doc = name e /\
  trimmed (doc_content doc) /\ doc_content doc <> [] /\
  ((doc_type doc = py "txt" /\ endswith (name e) (py ".txt") = true /\
    exists content, read_text e = Ok content /\
                    doc_content doc = strip content) \/
   (doc_type doc = py "pdf" /\ endswith (name e) (py ".pdf") = true /\
    endswith (name e) (py ".txt") = false)).
Proof.
  unfold load_entry. destruct (endswith (name e) (py ".txt")) eqn:Txt.
  - destruct (truthy (_load_txt e)) eqn:T; [|intros H; inversion H].
    intros H. apply list_elem_of_singleton in H as ->. simpl.
    apply truthy_true in T. unfold _load_txt in *.
    destruct (read_text e) as [content|]; [|now destruct T].
    repeat split; [apply trimmed_strip.. | exact T |].
    left. repeat split. now exists content.
  - destruct (endswith (name e) (py ".pdf")) eqn:Pdf; [|intros H; inversion H].
    destruct (truthy (_load_pdf e)) eqn:T; [|intros H; inversion H].
    intros H. apply list_elem_of_singleton in H as ->. simpl.
    apply truthy_true in T. unfold _load_pdf in *.
    destruct (_ ← read_pages e; _) as [text|]; [|now destruct T].
    repeat split; [apply trimmed_strip.. | exact T |]. right. auto.
Qed.

Lemma load_documents_elem (docs_dir : directory) documents doc :
  load_documents docs_dir = Ok documents -> doc ∈ documents ->
  trimmed (doc_content doc) /\ doc_content doc <> [] /\
  exists entries e,
    docs_dir = Listing entries /\ e ∈ entries /\
    doc_file_name doc = name e /\
    ((doc_type doc = py "txt" /\ endswith (name e) (py ".txt") = true) \/
     (doc_type doc = py "pdf" /\ endswith (name e) (py ".pdf") = true /\
      endswith (name e) (py ".txt") = false)).
Proof.
  intros L Hd.
  destruct docs_dir as [| |entries]; simpl in L; try discriminate.
  - injection L as <-. inversion Hd.
  - injection L as <-. apply list_elem_of_bind in Hd as (e & Hd & He).
    destruct (load_entry_contents e doc Hd) as (Nm & T & N & Ty).
    split; [exact T|]. split; [exact N|]. exists entries, e.
    repeat split; try assumption.
    destruct Ty as [(A & B & _) | (A & B & C)]; [left | right]; auto.
Qed.

(** X7: [load_documents] raises only when the directory cannot be listed;
    a missing directory gives no document; every document it returns
    carries the name of an entry of the directory, a content that is
    non-empty and has no whitespace at either end, and the type [txt] or
    [pdf] that the name's ending calls for. *)
Theorem load_documents_contents (docs_dir : directory) :
  (forall e, load_documents docs_dir = Raise e -> docs_dir = Unlistable e) /\
  load_documents Missing = Ok [] /\
  (forall documents doc,
     load_documents docs_dir = Ok documents -> doc ∈ documents ->
     trimmed (doc_content doc) /\ doc_content doc <> [] /\
     exists entries e,
       docs_dir = Listing entries /\ e ∈ entries /\
       doc_file_name doc = name e /\
       ((doc_type doc = py "txt" /\ endswith (name e) (py ".txt") = true) \/
        (doc_type doc = py "pdf" /\ endswith (name e) (py ".pdf") = true /\
         endswith (name e) (py ".txt") = false))).
Proof.
  split; [|split; [reflexivity|]].
  - intros e. destruct docs_dir; simpl; congruence.
  - apply load_documents_elem.
Qed.

(** X8: a file that cannot be read is skipped, it does not fail the load:
    an entry whose reader raises contributes nothing, and the documents of
    the other entries are returned as without it. *)
Theorem load_documents_skips_unreadable (before after : list entry)
    (e : entry) (x y : exn) :
  read_text e = Raise x -> read_pages e = Raise y ->
  load_documents (Listing (before ++ e :: after))
  = load_documents (Listing (before ++ after)).
Proof.
  intros Rt Rp. simpl. f_equal. rewrite !bind_app. f_equal.
  change (e :: after) with ([e] ++ after). rewrite bind_app.
  assert (E : load_entry e = []).
  { unfold load_entry, _load_txt, _load_pdf. rewrite Rt, Rp. simpl.
    destruct (endswith _ _); [reflexivity|]. now destruct (endswith _ _). }
  simpl. now rewrite E.
Qed.

Lemma loaded_documents_count (chunk_size chunk_overlap : Z)
    (docs_dir : directory) (documents : list document) :
  load_documents docs_dir = Ok documents ->
  len documents <= len (split_documents chunk_size chunk_overlap documents).
Proof.
  intros L.
  assert (F : Forall (fun doc => _split_text chunk_size chunk_overlap
                                   (doc_content doc) <> []) documents).
  { apply Forall_forall. intros doc Hd.
    destruct (load_documents_elem docs_dir documents doc L Hd) as (T & N & _).
    intros E. apply split_text_nil_iff in E.
    apply sentences_of_nil_blank, strip_nil in E.
    rewrite (strip_trimmed _ T) in E. contradiction. }
  clear L. unfold split_documents, len.
  induction F as [|doc documents Hd _ IH]; [reflexivity|].
  rewrite bind_cons, length_app, length_imap.
  destruct (_split_text _ _ _); [contradiction|]. simpl length.
  simpl length in IH. lia.
Qed.

(** X9: every document that [load_documents] returns gives at least one
    chunk, so [split_documents] returns at least as many chunks as there
    are documents. *)
Theorem loaded_documents_give_chunks (chunk_size chunk_overlap : Z)
    (docs_dir : directory) (documents : list document) :
  load_documents docs_dir = Ok documents ->
  len documents <= len (split_documents chunk_size chunk_overlap documents).
Proof. apply loaded_documents_count. Qed.

End LoaderExtras.

(** ** More on the embedding index *)

Section StoreMore.

Context `{Float F}.

Import VectorStore.

Implicit Types (self : VectorStore.t F) (m : SentenceTransformer F).
Implicit Types (w : world F) (ix : Faiss.IndexFlatIP F).

Lemma getitem_elem {A} (l : list A) (i : Z) (a : A) :
  getitem l i = Ok a -> a ∈ l.
Proof.
  unfold getitem. destruct (_ && _); [|discriminate].
  destruct (l !! _) as [b|] eqn:E; [|discriminate].
  intros [= <-]. now apply list_elem_of_lookup_2 in E.
Qed.

Lemma collect_elem (cs : list chunk) (found : list (F * Z)) results :
  collect cs found = Ok results ->
  Forall (fun r => hit_chunk r ∈ cs) results.
Proof.
  revert results. induction found as [|[score idx] found IH];
    intros results; simpl.
  - intros [= <-]. constructor.
  - destruct (idx <? len cs); [|apply IH].
    unfold mbind, result_bind.
    destruct (getitem cs idx) as [c|] eqn:G; [|discriminate].
    destruct (collect cs found) as [rs|]; [|discriminate].
    intros [= <-]. constructor; [|now apply IH].
    simpl. now apply getitem_elem in G.
Qed.

(** [collect] on labels that are stored positions: one hit for each, in
    order, with the chunk of the label and the score of the index. *)
Lemma collect_in_range_rel (cs : list chunk) (found : list (F * Z)) :
  Forall (fun h => 0 <= h.2 < len cs) found ->
  exists results, collect cs found = Ok results /\
    Forall2 (fun h r => (0 <= h.2 < len cs /\
                         cs !! Z.to_nat h.2 = Some (hit_chunk r)) /\
                        similarity_score r = h.1) found results.
Proof.
  induction 1 as [|[score idx] found Hh Hf (rs & E & R)]; simpl.
  - exists []. split; [reflexivity | constructor].
  - simpl in Hh. destruct (idx <? len cs) eqn:B;
      [|apply Z.ltb_ge in B; lia].
    destruct (getitem_in_range cs idx Hh) as (c & G & Hc).
    unfold mbind, result_bind. rewrite G, E. eexists. split; [reflexivity|].
    constructor; [|exact R]. simpl. auto.
Qed.

(** The answer of [search] within the size of the index: the [top_k] best
    of the ranking, turned into hits. *)
Lemma search_within_rel self m ix (query : str) (top_k : Z) :
  model self = Some m -> index self = Some ix ->
  encode_raises m [query] = None ->
  len (embed m query) = Faiss.d ix ->
  len (chunks self) = Faiss.ntotal ix ->
  1 <= top_k <= Faiss.ntotal ix ->
  exists results,
    search self query top_k = Ok results /\
    Forall2 (fun h r => (0 <= h.2 < len (chunks self) /\
                         chunks self !! Z.to_nat h.2 = Some (hit_chunk r)) /\
                        similarity_score r = h.1)
      (take (Z.to_nat top_k)
         (Faiss.rank
            (imap (fun i v =>
                     (Faiss.inner_product
                        (Faiss.normalize_L2 (embed m query)) v, Z.of_nat i))
                  (Faiss.xb ix))))
      results.
Proof.
  intros M I E D N K. rewrite (search_unfold self m ix query top_k M I E).
  unfold Faiss.search. rewrite len_normalize_L2.
  apply Z.eqb_eq in D. rewrite D.
  assert (K' : (0 <? top_k) = true) by (apply Z.ltb_lt; lia). rewrite K'.
  simpl negb. cbv iota.
  set (ranked := Faiss.rank _).
  assert (L : length (take (Z.to_nat top_k) ranked) = Z.to_nat top_k).
  { rewrite length_take. unfold ranked. rewrite rank_length, length_imap.
    unfold Faiss.ntotal, len in K. lia. }
  rewrite L, Nat.sub_diag. simpl replicate. rewrite app_nil_r.
  unfold mbind, result_bind.
  apply collect_in_range_rel. apply Forall_forall. intros h Hh.
  apply elem_of_take in Hh as (i & Hh & _).
  apply list_elem_of_lookup_2 in Hh. unfold ranked in Hh.
  rewrite rank_elem in Hh.
  apply elem_of_lookup_imap in Hh as (j & v & -> & Hj).
  apply lookup_lt_Some in Hj. rewrite N. unfold Faiss.ntotal, len. simpl. lia.
Qed.

Lemma insert_hit_perm (h : F * Z) l : Faiss.insert_hit h l ≡ₚ h :: l.
Proof.
  induction l as [|h' l IH]; simpl; [reflexivity|].
  destruct (flt h.1 h'.1); [|reflexivity].
  rewrite IH. apply perm_swap.
Qed.

Lemma rank_perm (l : list (F * Z)) : Faiss.rank l ≡ₚ l.
Proof.
  induction l as [|h l IH]; simpl; [reflexivity|].
  now rewrite insert_hit_perm, IH.
Qed.

Lemma scored_labels (f : list F -> F) (xb : list (list F)) :
  (imap (fun i v => (f v, Z.of_nat i)) xb).*2
  = Z.of_nat <$> seq 0 (length xb).
Proof.
  rewrite fmap_imap. rewrite <- imap_seq_0. apply imap_ext. reflexivity.
Qed.

Section Ranking.

(** Of two scores at most one is below the other. *)
Hypothesis flt_asym : forall a b : F, flt a b = true -> flt b a = false.

Lemma insert_hit_sorted (h : F * Z) l :
  Sorted (fun a b => flt a.1 b.1 = false) l ->
  Sorted (fun a b => flt a.1 b.1 = false) (Faiss.insert_hit h l).
Proof.
  induction l as [|h' l IH]; simpl; intros S.
  - repeat constructor.
  - apply Sorted_inv in S as [S Hd].
    destruct (flt h.1 h'.1) eqn:E.
    + constructor; [now apply IH|].
      destruct l as [|h'' l]; simpl.
      * constructor. now apply flt_asym.
      * destruct (flt h.1 (h''.1)); constructor.
        -- now inversion Hd.
        -- now apply flt_asym.
    + constructor; [now constructor|]. now constructor.
Qed.

Lemma rank_sorted (l : list (F * Z)) :
  Sorted (fun a b => flt a.1 b.1 = false) (Faiss.rank l).
Proof.
  induction l as [|h l IH]; simpl; [constructor|].
  now apply insert_hit_sorted.
Qed.

End Ranking.

Lemma take_sorted {A} (R : A -> A -> Prop) (l : list A) n :
  Sorted R l -> Sorted R (take n l).
Proof.
  revert n. induction l as [|a l IH]; intros [|n] S; simpl;
    try constructor.
  - apply IH. now apply Sorted_inv in S.
  - apply Sorted_inv in S as [_ Hd].
    destruct l as [|b l]; destruct n; simpl; constructor.
    now inversion Hd.
Qed.

Lemma sorted_transfer {A B} (R : A -> A -> Prop) (R' : B -> B -> Prop)
    (P : A -> B -> Prop) (l : list A) (k : list B) :
  (forall a a' b b', P a b -> P a' b' -> R a a' -> R' b b') ->
  Forall2 P l k -> Sorted R l -> Sorted R' k.
Proof.
  intros T F2. induction F2 as [|a b l k Pab F2 IH]; intros S;
    [constructor|].
  apply Sorted_inv in S as [S Hd]. constructor; [now apply IH|].
  destruct F2 as [|a' b' l k Pab' F2]; constructor.
  inversion Hd; subst. now apply (T a a' b b').
Qed.

End StoreMore.

Section StoreExtras.

Context `{Float F}.

Import VectorStore.

Implicit Types (self : VectorStore.t F) (m : SentenceTransformer F).
Implicit Types (w : world F) (ix : Faiss.IndexFlatIP F).

(** X10: whatever the store, the query and [top_k], every hit that
    [search] returns carries a chunk of the store's chunk list. *)
Theorem search_returns_stored_chunks self (query : str) (top_k : Z)
    (results : list (hit F)) :
  search self query top_k = Ok results ->
  Forall (fun r => hit_chunk r ∈ chunks self) results.
Proof.
  intros S. apply search_ok_inv in S as (ix & x & found & _ & C).
  now apply collect_elem in C.
Qed.

(** X11: a build that returns replaces the index and the chunks
    entirely: the store it leaves is made of the model and the new chunks
    alone, so the same build on any other store with that model returns
    and leaves the same store. *)
Theorem build_index_replaces (FA : bool) (cs : list chunk) self self' other :
  build_index FA cs self = (self', Ok tt) ->
  model other = model self ->
  build_index FA cs other = (self', Ok tt) /\
  chunks self' = cs /\ model self' = model self.
Proof.
  intros B M. pose proof B as B0.
  apply build_index_ok in B0 as (-> & m & dimension & Hm & _ & ->).
  split; [|split; [reflexivity | now rewrite Hm]].
  revert B. unfold build_index. simpl. run. rewrite M, Hm. run.
  destruct (encode m (content <$> cs)) as [emb|]; [|discriminate].
  destruct (shape_1 emb) as [dim|]; [|discriminate]. simpl.
  destruct (Faiss.add _ _) as [ix|]; [|discriminate].
  unfold set_index, set_chunks. simpl. rewrite M, Hm.
  intros B. exact B.
Qed.

(** X12: a build that raises leaves the model as it was, the chunk list
    either as it was or replaced by the new one, and the index either as
    it was or replaced by an empty one; when faiss or the model is
    missing the store is untouched. *)
Theorem build_index_failure_state (FA : bool) (cs : list chunk)
    self self' (e : exn) :
  build_index FA cs self = (self', Raise e) ->
  model self' = model self /\
  (chunks self' = chunks self \/ chunks self' = cs) /\
  (index self' = index self \/
   exists dimension, index self' = Some (Faiss.new dimension)) /\
  (FA = false \/ model self = None -> self' = self).
Proof.
  unfold build_index. destruct FA; simpl.
  2:{ intros [= <- <-]. repeat split; auto. }
  run. destruct (model self) as [m|] eqn:M.
  2:{ intros [= <- <-]. repeat split; auto. }
  run. destruct (encode m (content <$> cs)) as [emb|].
  2:{ intros [= <- <-]. simpl. repeat split; auto.
      intros [A | A]; discriminate A. }
  destruct (shape_1 emb) as [dim|]; simpl.
  2:{ intros [= <- <-]. simpl. repeat split; auto.
      intros [A | A]; discriminate A. }
  destruct (Faiss.add _ _) as [ix|]; [discriminate|].
  intros [= <- <-]. simpl. repeat split; eauto.
  intros [A | A]; discriminate A.
Qed.

Lemma load_index_returns w (path : string) self ix (cs : list chunk) :
  files w !! path_join path "index.faiss" = Some (FaissFile ix) ->
  files w !! path_join path "chunks.pkl" = Some (PickleFile cs) ->
  load_index true w path self
  = ({| model := model self; index := Some ix; chunks := cs |}, Ok tt).
Proof.
  intros Ei Ec. unfold load_index, path_exists. simpl.
  rewrite Ei. rewrite bool_decide_eq_true_2 by eauto.
  simpl. run. unfold read_index, pickle_load. now rewrite Ei, Ec.
Qed.

(** X13: the index round trip.  After a [save_index] that returned, on
    a device that reports every failed write, a [load_index] from the
    same path into any store returns, and when that store has the model
    of the saved one it then answers every search as the saved store
    does.  (When faiss loses the index at the close, [save_index] returns
    as well and the [load_index] raises: example
    [save_index_returns_without_index_file].) *)
Theorem index_round_trip self (path : string) w w' other :
  reports_failures w ->
  save_index self path w = (w', Ok tt) ->
  model other = model self ->
  exists other',
    load_index true w' path other = (other', Ok tt) /\
    index other' = index self /\ chunks other' = chunks self /\
    forall query top_k, search other' query top_k = search self query top_k.
Proof.
  intros R S M. apply save_index_ok in S as (ix & f & I & _ & Hf & _ & Fw).
  rewrite (Hf R) in Fw. clear Hf f.
  eexists. split.
  - apply (load_index_returns w' path other ix (chunks self)); rewrite Fw.
    + rewrite lookup_insert_ne
        by (intros E; symmetry in E; revert E; apply path_join_artifacts).
      apply lookup_insert_eq.
    + apply lookup_insert_eq.
  - simpl. split; [now rewrite I|]. split; [reflexivity|].
    intros query top_k. unfold search. simpl. now rewrite I, M.
Qed.

(** X14: [save_index] writes to its two files only: whether it returns
    or raises, every other path holds afterwards what it held before. *)
Theorem save_index_other_paths self (path other_path : string) w :
  other_path <> path_join path "index.faiss" ->
  other_path <> path_join path "chunks.pkl" ->
  files (save_index self path w).1 !! other_path = files w !! other_path.
Proof.
  intros Ni Nc. unfold save_index.
  destruct (index self) as [ix|]; [|reflexivity].
  unfold makedirs, write_index, pickle_dump, next_write, put. run.
  destruct (makedirs_error w path); [reflexivity|]. simpl.
  destruct (faults w) as [|[[| |]|] [|[[| |]|] more]]; simpl;
    rewrite ?lookup_insert_ne by congruence; reflexivity.
Qed.

(** X15: within the size of the index the hits come best first: when of
    two scores at most one is below the other, no hit is followed by one
    with a higher score. *)
Theorem search_best_first self m ix (query : str) (top_k : Z) :
  (forall a b : F, flt a b = true -> flt b a = false) ->
  model self = Some m -> index self = Some ix ->
  encode_raises m [query] = None ->
  len (embed m query) = Faiss.d ix ->
  len (chunks self) = Faiss.ntotal ix ->
  1 <= top_k <= Faiss.ntotal ix ->
  exists results,
    search self query top_k = Ok results /\
    Sorted (fun r r' => flt (similarity_score r) (similarity_score r') = false)
      results.
Proof.
  intros A M I E D N K.
  destruct (search_within_rel self m ix query top_k M I E D N K)
    as (results & S & R).
  exists results. split; [exact S|].
  eapply sorted_transfer; [| exact R | apply take_sorted, (rank_sorted A)].
  intros a a' b b' [_ ->] [_ ->] Hs. exact Hs.
Qed.

(** X16: within the size of the index the hits stand for [top_k]
    different positions of the chunk list: no chunk position is returned
    twice. *)
Theorem search_distinct_positions self m ix (query : str) (top_k : Z) :
  model self = Some m -> index self = Some ix ->
  encode_raises m [query] = None ->
  len (embed m query) = Faiss.d ix ->
  len (chunks self) = Faiss.ntotal ix ->
  1 <= top_k <= Faiss.ntotal ix ->
  exists results labels,
    search self query top_k = Ok results /\
    NoDup labels /\ len labels = top_k /\
    Forall2 (fun i r => 0 <= i < len (chunks self) /\
                        chunks self !! Z.to_nat i = Some (hit_chunk r))
      labels results.
Proof.
  intros M I E D N K.
  destruct (search_within_rel self m ix query top_k M I E D N K)
    as (results & S & R).
  set (scored := imap _ (Faiss.xb ix)) in R.
  exists results, ((take (Z.to_nat top_k) (Faiss.rank scored)).*2).
  split; [exact S|]. split; [|split].
  - rewrite fmap_take.
    apply (sublist_NoDup _ ((Faiss.rank scored).*2)); [|apply sublist_take].
    rewrite (rank_perm scored). unfold scored. rewrite scored_labels.
    apply NoDup_fmap_2; [apply _ | apply NoDup_seq].
  - unfold len. rewrite length_fmap, length_take, rank_length.
    unfold scored. rewrite length_imap.
    unfold Faiss.ntotal, len in K. lia.
  - apply Forall2_fmap_l. eapply Forall2_impl; [exact R|].
    intros h r [Hc _]. exact Hc.
Qed.

End StoreExtras.

(** ** More on the generation client *)

Section ClientMore.

Import ZhipuAIClient.

Lemma retry_loop_exception post max_retries attempt later e :
  request_exception (post attempt) = Some e ->
  retry_loop post max_retries (attempt :: later)
  = if Z.of_nat attempt =? max_retries - 1
    then (Raise (Exception_request_failed max_retries e), 1%nat)
    else let '(r, n) := retry_loop post max_retries later in (r, S n).
Proof.
  unfold request_exception. simpl.
  destruct (post attempt) as [e0 | status_code body].
  - now intros [= ->].
  - destruct ((400 <=? status_code) && (status_code <? 600)).
    + now intros [= <-].
    + destruct body; [discriminate|]. now intros [= <-].
Qed.

Lemma retry_loop_settled post max_retries attempt later :
  request_exception (post attempt) = None ->
  exists status_code result,
    post attempt = Response status_code (Some result) /\
    retry_loop post max_retries (attempt :: later)
    = (match extract result with
       | Ok text => Ok text
       | Raise (KeyError _ as e) | Raise (ValueError _ as e) =>
           Raise (on_parse_error result e)
       | Raise e => Raise e
       end, 1%nat).
Proof.
  unfold request_exception. simpl.
  destruct (post attempt) as [e0 | status_code body]; [discriminate|].
  destruct ((400 <=? status_code) && (status_code <? 600)); [discriminate|].
  destruct body as [result|]; [|discriminate]. intros _.
  exists status_code, result. split; [reflexivity|].
  destruct (extract result) as [text|[]]; reflexivity.
Qed.

(** After [k] attempts that end in a [RequestException], none of them the
    last one allowed, the loop goes on with the remaining attempts. *)
Lemma retry_loop_skip post max_retries (k a n : nat) :
  (forall i, (a <= i < a + k)%nat -> request_exception (post i) <> None) ->
  (k < n)%nat -> Z.of_nat (a + n) = max_retries ->
  retry_loop post max_retries (seq a n)
  = let '(r, c) := retry_loop post max_retries (seq (a + k) (n - k)) in
    (r, (k + c)%nat).
Proof.
  revert a n. induction k as [|k IH]; intros a n Hex Hk Hn.
  - rewrite Nat.add_0_r, Nat.sub_0_r. now destruct (retry_loop _ _ _).
  - destruct n as [|n]; [lia|]. simpl seq.
    destruct (request_exception (post a)) as [e|] eqn:E;
      [|exfalso; apply (Hex a); [lia | exact E]].
    rewrite (retry_loop_exception _ _ _ _ e E).
    destruct (Z.of_nat a =? max_retries - 1) eqn:Last;
      [apply Z.eqb_eq in Last; lia|].
    rewrite (IH (S a) n); [| intros i Hi; apply Hex; lia | lia | lia].
    replace (S a + k)%nat with (a + S k)%nat by lia.
    replace (S n - S k)%nat with (n - k)%nat by lia.
    now destruct (retry_loop _ _ _).
Qed.

Lemma retry_loop_count post max_retries (attempts : list nat) :
  ((retry_loop post max_retries attempts).2 <= length attempts)%nat /\
  (attempts <> [] -> (1 <= (retry_loop post max_retries attempts).2)%nat).
Proof.
  induction attempts as [|a later [IH _]]; [simpl; split; [lia | congruence]|].
  split; [|intros _].
  - destruct (request_exception (post a)) as [e|] eqn:E.
    + rewrite (retry_loop_exception _ _ _ _ e E).
      destruct (_ =? _); simpl; [lia|].
      destruct (retry_loop _ _ later). simpl in *. lia.
    + destruct (retry_loop_settled post max_retries a later E)
        as (? & ? & _ & ->). simpl. lia.
  - destruct (request_exception (post a)) as [e|] eqn:E.
    + rewrite (retry_loop_exception _ _ _ _ e E).
      destruct (_ =? _); simpl; [lia|].
      destruct (retry_loop _ _ later). simpl. lia.
    + destruct (retry_loop_settled post max_retries a later E)
        as (? & ? & _ & ->). simpl. lia.
Qed.

Ltac crack :=
  repeat match goal with
         | |- context [match ?x with _ => _ end] =>
             destruct x eqn:?; simpl; try discriminate; try congruence
         end.

Lemma getitem_error {A} (l : list A) i e :
  getitem l i = Raise e -> e = IndexError.
Proof. unfold getitem. crack. Qed.

Lemma contains_error key x e : contains key x = Raise e -> e = TypeError.
Proof. destruct x; simpl; congruence. Qed.

Lemma subscript_error x key e :
  subscript x key = Raise e -> builtin_error e = true.
Proof.
  destruct x, key; simpl; try (intros [= <-]; reflexivity).
  - unfold mbind, result_bind. destruct (getitem s n) eqn:G; [discriminate|].
    intros [= <-]. apply getitem_error in G. now subst.
  - intros G. apply getitem_error in G. now subst.
  - destruct (field _ _); [discriminate | intros [= <-]; reflexivity].
Qed.

Lemma extract_error result e :
  extract result = Raise e -> builtin_error e = true.
Proof.
  unfold extract, mbind, result_bind.
  destruct (contains (py "choices") result) as [has|] eqn:C.
  2:{ intros [= <-]. apply contains_error in C. now subst. }
  destruct has.
  - destruct (subscript result (JStr (py "choices"))) as [choices|] eqn:S1.
    2:{ intros [= <-]. now apply subscript_error in S1. }
    destruct (length_of choices) as [n|] eqn:L.
    2:{ intros [= <-].
        destruct choices; simpl in L; try discriminate L;
          injection L as <-; reflexivity. }
    destruct (0 <? n); [|intros [= <-]; reflexivity].
    destruct (subscript choices (JNum 0)) as [first|] eqn:S2.
    2:{ intros [= <-]. now apply subscript_error in S2. }
    destruct (subscript first (JStr (py "message"))) as [msg|] eqn:S3.
    2:{ intros [= <-]. now apply subscript_error in S3. }
    destruct (subscript msg (JStr (py "content"))) as [text|] eqn:S4.
    2:{ intros [= <-]. now apply subscript_error in S4. }
    destruct text; simpl; try discriminate; intros [= <-]; reflexivity.
  - intros [= <-]. reflexivity.
Qed.

Lemma extract_trimmed result text : extract result = Ok text -> trimmed text.
Proof.
  unfold extract, mbind, result_bind.
  destruct (contains (py "choices") result) as [[]|]; try discriminate.
  destruct (subscript result (JStr (py "choices"))) as [choices|];
    [|discriminate].
  destruct (length_of choices) as [n|]; [|discriminate].
  destruct (0 <? n); [|discriminate].
  destruct (subscript choices (JNum 0)) as [first|]; [|discriminate].
  destruct (subscript first (JStr (py "message"))) as [msg|]; [|discriminate].
  destruct (subscript msg (JStr (py "content"))) as [[]|]; try discriminate.
  simpl. intros [= <-]. apply trimmed_strip.
Qed.

Lemma on_parse_error_kind result e :
  forall r, on_parse_error result e <> RequestException r.
Proof.
  intros r. unfold on_parse_error.
  destruct (contains (py "error") result) as [[]|] eqn:C.
  - unfold mbind, result_bind.
    destruct (subscript result (JStr (py "error"))) as [err|] eqn:S.
    + destruct err; simpl; discriminate.
    + apply subscript_error in S. intros ->. discriminate S.
  - discriminate.
  - apply contains_error in C. subst. discriminate.
Qed.

Lemma retry_loop_raises post max_retries (attempts : list nat) e c :
  retry_loop post max_retries attempts = (Raise e, c) ->
  forall r, e <> RequestException r.
Proof.
  revert c. induction attempts as [|a later IH]; intros c.
  - simpl. intros [= <- _] r. discriminate.
  - destruct (request_exception (post a)) as [e0|] eqn:E.
    + rewrite (retry_loop_exception _ _ _ _ e0 E).
      destruct (_ =? _); [intros [= <- _] r; discriminate|].
      destruct (retry_loop post max_retries later) as [[t|e1] c1];
        [discriminate|].
      intros [= <- _]. now apply (IH c1).
    + destruct (retry_loop_settled post max_retries a later E)
        as (status_code & result & _ & ->).
      destruct (extract result) as [t|e1] eqn:X; [discriminate|].
      apply extract_error in X.
      destruct e1; try discriminate X; intros [= <- _];
        try (intros r; discriminate); apply on_parse_error_kind.
Qed.

Lemma retry_loop_answered post max_retries (attempts : list nat) text c :
  retry_loop post max_retries attempts = (Ok text, c) ->
  trimmed text /\
  exists attempt status_code result,
    attempt ∈ attempts /\
    post attempt = Response status_code (Some result) /\
    extract result = Ok text.
Proof.
  revert c. induction attempts as [|a later IH]; intros c.
  - simpl. discriminate.
  - destruct (request_exception (post a)) as [e0|] eqn:E.
    + rewrite (retry_loop_exception _ _ _ _ e0 E).
      destruct (_ =? _); [discriminate|].
      destruct (retry_loop post max_retries later) as [[t|e1] c1];
        [|discriminate].
      intros [= <- _].
      destruct (IH c1 eq_refl) as (T & attempt & s & r & In & P & X).
      split; [exact T|]. exists attempt, s, r.
      split; [now apply elem_of_cons; right | auto].
    + destruct (retry_loop_settled post max_retries a later E)
        as (status_code & result & P & ->).
      destruct (extract result) as [t|e1] eqn:X.
      * intros [= <- _]. split; [now apply extract_trimmed in X|].
        exists a, status_code, result.
        split; [now apply elem_of_cons; left | auto].
      * destruct e1; discriminate.
Qed.

End ClientMore.

Section ClientExtras.

Import ZhipuAIClient.

(** X17: [generate_response] posts at least one request and at most
    [max_retries]; with [max_retries] below 1 it posts none and raises
    the exception of the reached maximum. *)
Theorem generate_response_attempts (srv : service) (self : t)
    (messages : list message) :
  (1 <= max_retries self ->
   (1 <= (generate_response srv self messages).2)%nat /\
   Z.of_nat (generate_response srv self messages).2 <= max_retries self) /\
  (max_retries self < 1 ->
   generate_response srv self messages = (Raise Exception_max_retries, 0%nat)).
Proof.
  unfold generate_response. split.
  - intros M.
    destruct (retry_loop_count (srv messages) (max_retries self)
                (seq 0 (Z.to_nat (max_retries self)))) as [Le Ge].
    rewrite length_seq in Le. split; [|lia].
    apply Ge. destruct (Z.to_nat (max_retries self)) eqn:E; [lia|].
    discriminate.
  - intros M. now replace (Z.to_nat (max_retries self)) with 0%nat by lia.
Qed.

(** X18: the retries in general.  When the attempts before attempt [k]
    all end in a [RequestException] (raised by the post, by an error
    status or by a body that is no JSON) and attempt [k], one of the
    [max_retries] allowed, brings an answer, [generate_response] returns
    it after [k + 1] requests; when all the [max_retries] attempts end in
    a [RequestException], it raises the exception that reports
    [max_retries] and the last of them, after [max_retries] requests. *)
Theorem generate_response_retries (srv : service) (self : t)
    (messages : list message) :
  (forall (k : nat) status_code result text,
     Z.of_nat k < max_retries self ->
     (forall i, (i < k)%nat -> request_exception (srv messages i) <> None) ->
     srv messages k = Response status_code (Some result) ->
     ~ 400 <= status_code < 600 ->
     extract result = Ok text ->
     generate_response srv self messages = (Ok text, S k)) /\
  (1 <= max_retries self ->
   (forall i, Z.of_nat i < max_retries self ->
              request_exception (srv messages i) <> None) ->
   exists e,
     request_exception (srv messages (Z.to_nat (max_retries self) - 1)%nat)
     = Some e /\
     generate_response srv self messages
     = (Raise (Exception_request_failed (max_retries self) e),
        Z.to_nat (max_retries self))).
Proof.
  unfold generate_response. split.
  - intros k status_code result text K Hex P S X.
    rewrite (retry_loop_skip _ _ k 0 (Z.to_nat (max_retries self)));
      [| intros i Hi; apply Hex; lia | lia | lia].
    destruct (Z.to_nat (max_retries self) - k)%nat as [|n] eqn:E; [lia|].
    simpl seq.
    rewrite (retry_loop_answer _ _ _ _ result text); [f_equal; lia | | exact X].
    exists status_code. split; [exact P | exact S].
  - intros M Hex. set (n := Z.to_nat (max_retries self)).
    destruct (request_exception (srv messages (n - 1)%nat)) as [e|] eqn:E;
      [|exfalso; apply (Hex (n - 1)%nat); [lia | exact E]].
    exists e. split; [reflexivity|].
    rewrite (retry_loop_skip _ _ (n - 1) 0 n);
      [| intros i Hi; apply Hex; lia | lia | lia].
    replace (n - (n - 1))%nat with 1%nat by lia. simpl seq.
    rewrite (retry_loop_exception _ _ _ _ e E).
    assert (L : (Z.of_nat (n - 1) =? max_retries self - 1) = true)
      by (apply Z.eqb_eq; lia).
    rewrite L. f_equal. lia.
Qed.

(** X19: what [generate_response] returns has no whitespace at either
    end, and it is read from the decoded body of one of the attempts. *)
Theorem generate_response_answer (srv : service) (self : t)
    (messages : list message) (text : str) (requests : nat) :
  generate_response srv self messages = (Ok text, requests) ->
  trimmed text /\
  exists (attempt : nat) status_code result,
    Z.of_nat attempt < max_retries self /\
    srv messages attempt = Response status_code (Some result) /\
    extract result = Ok text.
Proof.
  unfold generate_response. intros G.
  apply retry_loop_answered in G as (T & attempt & s & r & In & P & X).
  split; [exact T|]. exists attempt, s, r. split; [|auto].
  apply elem_of_seq in In. lia.
Qed.

(** X20: [generate_response] never lets an exception of the requests
    library through as it is: a failure of the transport reaches the
    caller only inside the exception of the exhausted retries. *)
Theorem generate_response_wraps_request_exceptions (srv : service)
    (self : t) (messages : list message) (e : exn) (requests : nat) :
  generate_response srv self messages = (Raise e, requests) ->
  forall r, e <> RequestException r.
Proof. unfold generate_response. apply retry_loop_raises. Qed.

(** X21: from a decoded body of the documented shape, whatever other
    fields it has, [extract] reads the stripped content of the first
    choice; from one without choices, or with an empty list of them, it
    raises the [ValueError] of the unexpected format. *)
Theorem extract_documented_reply (fields : list (str * json)) :
  (forall first_fields more message_fields (text : str),
     field (py "choices") fields = Some (JArr (JObj first_fields :: more)) ->
     field (py "message") first_fields = Some (JObj message_fields) ->
     field (py "content") message_fields = Some (JStr text) ->
     extract (JObj fields) = Ok (strip text)) /\
  (field (py "choices") fields = None \/
   field (py "choices") fields = Some (JArr []) ->
   extract (JObj fields) = Raise (ValueError "API响应格式异常")).
Proof.
  split.
  - intros first_fields more message_fields text C M T.
    unfold extract, contains, subscript. rewrite C. simpl.
    unfold mbind, result_bind. simpl. rewrite M, T. reflexivity.
  - intros [C | C]; unfold extract, contains, subscript; rewrite C;
      reflexivity.
Qed.

End ClientExtras.

(** ** The life cycle of the orchestrator *)

Section LifecycleFacts.

Context `{Float F}.

Import DocumentProcessor DocumentLoader RAGLifecycle.

Variables (cfg : Config) (env : environment F).

Implicit Types (s : machine F) (vs : VectorStore.t F).

Local Abbreviation index_path := (path_join (VECTOR_STORE_PATH cfg) "index.faiss").
Local Abbreviation chunks_path := (path_join (VECTOR_STORE_PATH cfg) "chunks.pkl").

(** Without a key [initialize_body] raises at once. *)
Lemma initialize_body_without_key (rebuild_index : bool) s :
  ZHIPU_API_KEY env = None \/ ZHIPU_API_KEY env = Some [] ->
  exists e,
    initialize_body cfg env rebuild_index s
    = ({| self := self s; disk := disk s |}, Raise e).
Proof.
  unfold initialize_body, on_disk, validate.
  intros [K | K]; rewrite K; eexists; reflexivity.
Qed.

(** With a key, [Config.validate] is the making of the two
    directories. *)
Lemma validate_with_key (w : VectorStore.world F) key :
  ZHIPU_API_KEY env = Some key -> key <> [] ->
  validate cfg env w
  = match VectorStore.makedirs_error w (EMBEDDING_MODEL_PATH cfg) with
    | Some e => (w, Raise e)
    | None =>
        match VectorStore.makedirs_error w (VECTOR_STORE_PATH cfg) with
        | Some e => (w, Raise e)
        | None => (w, Ok tt)
        end
    end.
Proof.
  intros K N. apply truthy_true in N. unfold validate. rewrite K. simpl.
  rewrite N. simpl. unfold VectorStore.makedirs. run.
  destruct (VectorStore.makedirs_error w (EMBEDDING_MODEL_PATH cfg));
    [reflexivity|].
  now destruct (VectorStore.makedirs_error w (VECTOR_STORE_PATH cfg)).
Qed.

(** The state when the components are in place. *)
Lemma initialize_body_components (rebuild_index : bool) s key m :
  ZHIPU_API_KEY env = Some key -> key <> [] ->
  VectorStore.makedirs_error (disk s) (EMBEDDING_MODEL_PATH cfg) = None ->
  VectorStore.makedirs_error (disk s) (VECTOR_STORE_PATH cfg) = None ->
  embedding_model env = Ok m ->
  initialize_body cfg env rebuild_index s
  = (if rebuild_index || negb (_index_exists cfg (disk s))
     then _build_vector_index cfg env
     else on_store (VectorStore.load_index (FAISS_AVAILABLE env) (disk s)
                      (VECTOR_STORE_PATH cfg)))
      (set_llm_client (ZhipuAIClient.init key)
         (set_vector_store (VectorStore.init m)
            (set_document_processor (new_document_processor cfg) s))).
Proof.
  intros K N D1 D2 M. unfold initialize_body, on_disk.
  unfold mbind at 1, prog_bind at 1.
  rewrite (validate_with_key (disk s) key K N), D1, D2.
  unfold new_vector_store, new_llm_client. rewrite K, M. simpl.
  apply truthy_true in N. rewrite N. reflexivity.
Qed.

(** When a directory cannot be made, [initialize_body] raises before it
    has assigned anything. *)
Lemma initialize_body_without_directory (rebuild_index : bool) s key e :
  ZHIPU_API_KEY env = Some key -> key <> [] ->
  VectorStore.makedirs_error (disk s) (EMBEDDING_MODEL_PATH cfg) = Some e \/
  VectorStore.makedirs_error (disk s) (EMBEDDING_MODEL_PATH cfg) = None /\
  VectorStore.makedirs_error (disk s) (VECTOR_STORE_PATH cfg) = Some e ->
  initialize_body cfg env rebuild_index s
  = ({| self := self s; disk := disk s |}, Raise e).
Proof.
  intros K N D. unfold initialize_body, on_disk.
  unfold mbind at 1, prog_bind at 1.
  rewrite (validate_with_key (disk s) _ K N).
  destruct D as [D1 | [D1 D2]]; now rewrite ?D1, ?D2.
Qed.

(** When the model cannot be loaded, it raises with the new document
    processor in place. *)
Lemma initialize_body_without_model (rebuild_index : bool) s key e :
  ZHIPU_API_KEY env = Some key -> key <> [] ->
  VectorStore.makedirs_error (disk s) (EMBEDDING_MODEL_PATH cfg) = None ->
  VectorStore.makedirs_error (disk s) (VECTOR_STORE_PATH cfg) = None ->
  embedding_model env = Raise e ->
  initialize_body cfg env rebuild_index s
  = (set_document_processor (new_document_processor cfg) s, Raise e).
Proof.
  intros K N D1 D2 M. unfold initialize_body, on_disk.
  unfold mbind at 1, prog_bind at 1.
  rewrite (validate_with_key (disk s) _ K N), D1, D2.
  unfold new_vector_store. rewrite M. reflexivity.
Qed.

(** An [initialize_body] that does not raise at the configuration or at
    the loading of the model had its components. *)
Lemma initialize_body_cases (rebuild_index : bool) s :
  (exists e, initialize_body cfg env rebuild_index s
             = ({| self := self s; disk := disk s |}, Raise e)) \/
  (exists e, initialize_body cfg env rebuild_index s
             = (set_document_processor (new_document_processor cfg) s,
                Raise e)) \/
  (exists key m,
     ZHIPU_API_KEY env = Some key /\ key <> [] /\
     VectorStore.makedirs_error (disk s) (EMBEDDING_MODEL_PATH cfg) = None /\
     VectorStore.makedirs_error (disk s) (VECTOR_STORE_PATH cfg) = None /\
     embedding_model env = Ok m).
Proof.
  destruct (ZHIPU_API_KEY env) as [[|c key]|] eqn:K;
    [left; apply initialize_body_without_key; auto | |
     left; apply initialize_body_without_key; auto].
  assert (N : c :: key <> []) by discriminate.
  destruct (VectorStore.makedirs_error (disk s) (EMBEDDING_MODEL_PATH cfg))
    as [e|] eqn:D1.
  { left. exists e. apply (initialize_body_without_directory _ _ _ _ K N).
    now left. }
  destruct (VectorStore.makedirs_error (disk s) (VECTOR_STORE_PATH cfg))
    as [e|] eqn:D2.
  { left. exists e. apply (initialize_body_without_directory _ _ _ _ K N).
    now right. }
  destruct (embedding_model env) as [m|e] eqn:M.
  - right. right. exists (c :: key), m. auto.
  - right. left. exists e.
    now apply (initialize_body_without_model _ _ (c :: key)).
Qed.

(** An [initialize] that returns [True] had its components. *)
Lemma initialize_true_components (rebuild_index : bool) s s1 :
  initialize cfg env rebuild_index s = (s1, true) ->
  exists key m,
    ZHIPU_API_KEY env = Some key /\ key <> [] /\
    VectorStore.makedirs_error (disk s) (EMBEDDING_MODEL_PATH cfg) = None /\
    VectorStore.makedirs_error (disk s) (VECTOR_STORE_PATH cfg) = None /\
    embedding_model env = Ok m.
Proof.
  unfold initialize.
  destruct (initialize_body_cases rebuild_index s)
    as [[e E] | [[e E] | C]]; [rewrite E; discriminate.. | auto].
Qed.

(** What [_build_vector_index] has done when it returns. *)
Lemma build_vector_index_ok s s1 dp vs0 :
  RAGSystem.document_processor (self s) = Some dp ->
  RAGSystem.vector_store (self s) = Some vs0 ->
  _build_vector_index cfg env s = (s1, Ok tt) ->
  exists documents vs ix f,
    load_documents (docs_dir env) = Ok documents /\ documents <> [] /\
    VectorStore.build_index (FAISS_AVAILABLE env)
      (split_documents (chunk_size dp) (chunk_overlap dp) documents) vs0
    = (vs, Ok tt) /\
    VectorStore.index vs = Some ix /\
    (f = VectorStore.FaissFile ix \/ f = VectorStore.CutShortFile) /\
    (reports_failures (disk s) -> f = VectorStore.FaissFile ix) /\
    VectorStore.makedirs_error (disk s1) = VectorStore.makedirs_error (disk s) /\
    VectorStore.files (disk s1)
    = <[chunks_path := VectorStore.PickleFile (VectorStore.chunks vs)]>
        (<[index_path := f]> (VectorStore.files (disk s))) /\
    self s1 = self (set_vector_store vs s).
Proof.
  intros P V. unfold _build_vector_index. run. rewrite P.
  destruct (load_documents (docs_dir env)) as [documents|]; [|discriminate].
  simpl.
  destruct (truthy documents) eqn:T; simpl; [|discriminate].
  unfold on_store at 1. rewrite V.
  destruct (VectorStore.build_index _ _ vs0) as [vs [[]|]] eqn:B;
    [|discriminate].
  simpl. unfold on_disk.
  change (disk (set_vector_store vs s)) with (disk s).
  destruct (VectorStore.save_index vs (VECTOR_STORE_PATH cfg) (disk s))
    as [w [[]|]] eqn:S; [|discriminate].
  intros [= <-]. simpl.
  apply save_index_ok in S as (ix & f & I & Hf & R & D & Fw).
  exists documents, vs, ix, f.
  split; [reflexivity|]. split; [now apply truthy_true|].
  split; [exact B|]. split; [exact I|]. split; [exact Hf|].
  split; [exact R|]. split; [exact D|]. split; [exact Fw|].
  simpl. now rewrite P.
Qed.

End LifecycleFacts.

Section LifecycleExtras.

Context `{Float F}.

Import DocumentProcessor DocumentLoader RAGLifecycle.

Variables (cfg : Config) (env : environment F).

Implicit Types (s : machine F) (vs : VectorStore.t F).

Local Abbreviation index_path := (path_join (VECTOR_STORE_PATH cfg) "index.faiss").
Local Abbreviation chunks_path := (path_join (VECTOR_STORE_PATH cfg) "chunks.pkl").

(** The chunks of the documents under the configured sizes, and the index
    of dimension [dimension] over them. *)
Local Abbreviation chunks_of documents :=
  (split_documents (CHUNK_SIZE cfg) (CHUNK_OVERLAP cfg) documents).
Local Abbreviation index_over m dimension documents :=
  {| Faiss.d := dimension; Faiss.xb := embedding m <$> chunks_of documents |}.

(** A cold start, [rebuild_index] set or no saved index, that returns
    [True]: what the environment was and what the call has left. *)
Lemma initialize_cold_inv (rebuild_index : bool) s s1 :
  rebuild_index = true \/ _index_exists cfg (disk s) = false ->
  initialize cfg env rebuild_index s = (s1, true) ->
  exists key m documents dimension f,
    ZHIPU_API_KEY env = Some key /\ key <> [] /\
    embedding_model env = Ok m /\ FAISS_AVAILABLE env = true /\
    load_documents (docs_dir env) = Ok documents /\ documents <> [] /\
    self s1
    = {| RAGSystem.document_processor := Some (new_document_processor cfg);
         RAGSystem.vector_store :=
           Some {| VectorStore.model := Some m;
                   VectorStore.index := Some (index_over m dimension documents);
                   VectorStore.chunks := chunks_of documents |};
         RAGSystem.llm_client := Some (ZhipuAIClient.init key);
         RAGSystem.is_initialized := true |} /\
    (reports_failures (disk s) ->
     f = VectorStore.FaissFile (index_over m dimension documents)) /\
    VectorStore.makedirs_error (disk s1) = VectorStore.makedirs_error (disk s) /\
    VectorStore.makedirs_error (disk s) (EMBEDDING_MODEL_PATH cfg) = None /\
    VectorStore.makedirs_error (disk s) (VECTOR_STORE_PATH cfg) = None /\
    VectorStore.files (disk s1)
    = <[chunks_path := VectorStore.PickleFile (chunks_of documents)]>
        (<[index_path := f]> (VectorStore.files (disk s))).
Proof.
  intros Cold I.
  destruct (initialize_true_components cfg env rebuild_index s s1 I)
    as (key & m & K & N & D1 & D2 & M).
  revert I. unfold initialize.
  rewrite (initialize_body_components cfg env rebuild_index s key m
             K N D1 D2 M).
  assert (C : rebuild_index || negb (_index_exists cfg (disk s)) = true).
  { destruct Cold as [-> | ->]; [reflexivity | apply orb_true_r]. }
  rewrite C.
  destruct (_build_vector_index cfg env _) as [s' [[]|]] eqn:B;
    [|discriminate].
  intros [= <-].
  apply (build_vector_index_ok cfg env _ _ (new_document_processor cfg)
           (VectorStore.init m)) in B
    as (documents & vs & ix & f & L & Nd & Bi & Ix & _ & R & D & Fw & Sf);
    [| reflexivity | reflexivity].
  apply build_index_ok in Bi as (FA & m' & dimension & Hm & _ & ->).
  simpl in Hm. injection Hm as <-. simpl in Ix. injection Ix as <-.
  exists key, m, documents, dimension, f. simpl in *.
  rewrite Sf. repeat split; assumption.
Qed.


(** X23: a cold start that returns [True] leaves the system initialized
    with a store over the chunks of the loaded documents: at least one
    document, at least as many chunks, as many vectors as chunks, each
    vector the embedding of the chunk at its position; and both
    artifacts are on the disk. *)
Theorem initialize_cold_start (rebuild_index : bool) s s1 :
  rebuild_index = true \/ _index_exists cfg (disk s) = false ->
  initialize cfg env rebuild_index s = (s1, true) ->
  RAGSystem.is_initialized (self s1) = true /\
  _index_exists cfg (disk s1) = true /\
  exists documents vs,
    load_documents (docs_dir env) = Ok documents /\
    RAGSystem.vector_store (self s1) = Some vs /\
    VectorStore.chunks vs
    = split_documents (CHUNK_SIZE cfg) (CHUNK_OVERLAP cfg) documents /\
    consistent vs /\
    len (vectors vs) = len (VectorStore.chunks vs) /\
    1 <= len documents <= len (VectorStore.chunks vs).
Proof.
  intros Cold I.
  destruct (initialize_cold_inv rebuild_index s s1 Cold I)
    as (key & m & documents & dimension & f & K & N & M & FA & L & Nd & Sf
        & _ & _ & _ & _ & Fw).
  rewrite Sf. simpl. split; [reflexivity|]. split.
  - unfold _index_exists, VectorStore.path_exists. rewrite Fw.
    rewrite lookup_insert_eq.
    rewrite lookup_insert_ne
      by (intros E; symmetry in E; revert E; apply path_join_artifacts).
    rewrite lookup_insert_eq.
    rewrite !bool_decide_eq_true_2 by eauto. reflexivity.
  - eexists documents, _. split; [exact L|]. split; [reflexivity|]. simpl.
    split; [reflexivity|]. split; [|split].
    + intros m' [= <-]. reflexivity.
    + unfold vectors, len. simpl. now rewrite length_fmap.
    + pose proof (loaded_documents_count (CHUNK_SIZE cfg) (CHUNK_OVERLAP cfg)
                    _ _ L) as Le.
      split; [|exact Le]. destruct documents; [contradiction|].
      unfold len. simpl. lia.
Qed.


End LifecycleExtras.

Section LifecycleRoundTrip.

Context `{Float F}.

Import DocumentProcessor DocumentLoader RAGLifecycle.

Variable cfg : Config.

Implicit Types (env : environment F) (s : machine F).

Lemma index_exists_after_save (w : VectorStore.world F) f g base :
  VectorStore.files w
  = <[path_join (VECTOR_STORE_PATH cfg) "chunks.pkl" := f]>
      (<[path_join (VECTOR_STORE_PATH cfg) "index.faiss" := g]> base) ->
  _index_exists cfg w = true.
Proof.
  intros Fw. unfold _index_exists, VectorStore.path_exists. rewrite Fw.
  rewrite lookup_insert_eq.
  rewrite lookup_insert_ne
    by (intros E; symmetry in E; revert E; apply path_join_artifacts).
  rewrite lookup_insert_eq.
  rewrite !bool_decide_eq_true_2 by eauto. reflexivity.
Qed.

(** X25: a warm start does not look at the documents: when both
    artifacts are on the disk and [rebuild_index] is not set, two
    environments that differ in the documents directory only give the
    same outcome. *)
Theorem initialize_warm_start_ignores_documents env env' s :
  ZHIPU_API_KEY env' = ZHIPU_API_KEY env ->
  embedding_model env' = embedding_model env ->
  FAISS_AVAILABLE env' = FAISS_AVAILABLE env ->
  _index_exists cfg (disk s) = true ->
  initialize cfg env' false s = initialize cfg env false s.
Proof.
  intros K M FA Ex.
  assert (Without : forall env0 s0,
            ZHIPU_API_KEY env0 = None \/ ZHIPU_API_KEY env0 = Some [] ->
            initialize cfg env0 false s0 = (set_is_initialized false s0, false)).
  { intros env0 s0 K0. unfold initialize.
    destruct (initialize_body_without_key cfg env0 false s0 K0) as [e E].
    now rewrite E. }
  destruct (ZHIPU_API_KEY env) as [[|c key]|] eqn:Ke;
    [rewrite !Without; auto | | rewrite !Without; auto].
  assert (N : c :: key <> []) by discriminate.
  unfold initialize.
  destruct (VectorStore.makedirs_error (disk s) (EMBEDDING_MODEL_PATH cfg))
    as [e|] eqn:D1.
  { rewrite (initialize_body_without_directory cfg env false s _ e Ke N)
      by now left.
    rewrite (initialize_body_without_directory cfg env' false s _ e K N)
      by now left.
    reflexivity. }
  destruct (VectorStore.makedirs_error (disk s) (VECTOR_STORE_PATH cfg))
    as [e|] eqn:D2.
  { rewrite (initialize_body_without_directory cfg env false s _ e Ke N)
      by now right.
    rewrite (initialize_body_without_directory cfg env' false s _ e K N)
      by now right.
    reflexivity. }
  destruct (embedding_model env) as [m|e] eqn:Me.
  - rewrite (initialize_body_components cfg env false s _ m Ke N D1 D2 Me).
    rewrite (initialize_body_components cfg env' false s _ m K N D1 D2 M).
    now rewrite Ex, FA.
  - rewrite (initialize_body_without_model cfg env false s _ e Ke N D1 D2 Me).
    rewrite (initialize_body_without_model cfg env' false s _ e K N D1 D2 M).
    reflexivity.
Qed.

(** X26: a warm start after a cold start.  When a cold start returned
    [True], on a device that reports every failed write, an [initialize]
    without [rebuild_index] of any orchestrator on the files it left
    returns [True] as well and has the very store of the cold start: the
    same model, index and chunks.  (When faiss has lost the index at the
    close, the cold start returns [True] as well and the warm start
    returns [False]: example [initialize_warm_start_after_lost_index].) *)
Theorem initialize_cold_then_warm env (rebuild_index : bool) s s1 s2 :
  reports_failures (disk s) ->
  rebuild_index = true \/ _index_exists cfg (disk s) = false ->
  initialize cfg env rebuild_index s = (s1, true) ->
  disk s2 = disk s1 ->
  exists s2',
    initialize cfg env false s2 = (s2', true) /\
    RAGSystem.vector_store (self s2') = RAGSystem.vector_store (self s1) /\
    disk s2' = disk s1.
Proof.
  intros R Cold I D.
  destruct (initialize_cold_inv cfg env rebuild_index s s1 Cold I)
    as (key & m & documents & dimension & f & K & N & M & FA & L & Nd & Sf
        & Hf & Dm & D1 & D2 & Fw).
  rewrite (Hf R) in Fw. clear Hf f.
  pose proof (index_exists_after_save _ _ _ _ Fw) as Ex.
  unfold initialize.
  rewrite (initialize_body_components cfg env false s2 key m K N);
    [| rewrite D, Dm; exact D1 | rewrite D, Dm; exact D2 | exact M].
  rewrite D, Ex. simpl. unfold on_store. simpl.
  rewrite FA.
  erewrite load_index_returns;
    [| rewrite Fw, lookup_insert_ne
         by (intros E; symmetry in E; revert E; apply path_join_artifacts);
       apply lookup_insert_eq
     | rewrite Fw; apply lookup_insert_eq].
  eexists. split; [reflexivity|]. simpl. rewrite Sf. simpl.
  split; [reflexivity | exact D].
Qed.

(** X27: after a cold start that returned [True], and with the documents
    directory as it was, [get_system_info] reports as many chunks as the
    index holds, and at least one document and as many chunks. *)
Theorem get_system_info_after_cold_start env (rebuild_index : bool) s s1 :
  rebuild_index = true \/ _index_exists cfg (disk s) = false ->
  initialize cfg env rebuild_index s = (s1, true) ->
  exists documents_count chunks_count,
    get_system_info cfg env s1
    = Ok (Running documents_count chunks_count chunks_count
            (CHUNK_SIZE cfg) (CHUNK_OVERLAP cfg) (MAX_RETRIEVAL_DOCS cfg)) /\
    1 <= documents_count <= chunks_count.
Proof.
  intros Cold I.
  destruct (initialize_cold_inv cfg env rebuild_index s s1 Cold I)
    as (key & m & documents & dimension & f & K & N & M & FA & L & Nd & Sf
        & _).
  pose proof (loaded_documents_count (CHUNK_SIZE cfg) (CHUNK_OVERLAP cfg)
                _ _ L) as Le.
  unfold get_system_info. rewrite Sf, L. simpl.
  apply truthy_true in Nd as T. rewrite T.
  eexists _, _. split.
  - f_equal. f_equal.
    destruct (split_documents _ _ _); reflexivity.
  - split; [|exact Le]. destruct documents; [contradiction|].
    unfold len. simpl. lia.
Qed.

(** X28: what [initialize] returns decides the first answer of
    [ask_question]: it is the response of the system that is not
    initialized exactly when [initialize] returned [False]. *)
Theorem ask_question_after_initialize env (srv : ZhipuAIClient.service)
    (rebuild_index : bool) s (question : str) (top_k : option Z)
    (include_references : bool) :
  RAGSystem.ask_question cfg srv (self (initialize cfg env rebuild_index s).1)
    question top_k include_references = Ok RAGSystem.NotInitialized <->
  (initialize cfg env rebuild_index s).2 = false.
Proof.
  unfold initialize.
  destruct (initialize_body cfg env rebuild_index s) as [s' [[]|e]]; simpl.
  - unfold RAGSystem.ask_question. simpl.
    destruct (RAGSystem.answer_with srv _ question _ include_references)
      as [r|e] eqn:A; [|split; discriminate].
    split; [|discriminate]. intros [= ->]. exfalso. revert A.
    unfold RAGSystem.answer_with, mbind, result_bind.
    repeat match goal with
           | |- context [match ?x with _ => _ end] => destruct x
           end; discriminate.
  - unfold RAGSystem.ask_question. simpl. split; reflexivity.
Qed.

End LifecycleRoundTrip.

(** ** More on the answers *)

Section AnswerExtras.

Context `{Float F}.

Import RAGSystem.

Variables (cfg : Config) (srv : ZhipuAIClient.service).

(** The context block built from the hits [references]. *)
Local Abbreviation context_of := (fun references : list (VectorStore.hit F) =>
  join (py "

") (imap context_part references)).

(** X29: without references the answer is generated from the question
    alone, by the plain chat, and the response carries no reference and
    no context, although the retrieval has run and its hits are
    counted. *)
Theorem ask_question_without_references (self : RAGSystem.t F)
    (question : str) (top_k : option Z) q a refs ctx n :
  ask_question cfg srv self question top_k false
  = Ok (Answered q a refs ctx n) ->
  q = question /\ refs = [] /\ ctx = [] /\
  exists vs llm found,
    vector_store self = Some vs /\ llm_client self = Some llm /\
    VectorStore.search vs question (or_int top_k (MAX_RETRIEVAL_DOCS cfg))
    = Ok found /\
    n = len found /\
    (ZhipuAIClient.chat srv llm question None None).1 = Ok a.
Proof.
  intros A. apply ask_question_ok, answer_with_ok in A
    as (vs & llm & found & text & V & L & S & G & E).
  rewrite andb_false_r in G. injection E as -> -> -> -> ->.
  repeat split. exists vs, llm, found. auto.
Qed.

(** X30: with references the response carries the hits of the search,
    in its order, and their number, which is at most the number asked
    for; when there is no hit the answer is generated by the plain chat
    with an empty context, otherwise from the context block of the hits,
    which is not empty. *)
Theorem ask_question_with_references (self : RAGSystem.t F)
    (question : str) (top_k : option Z) q a refs ctx n :
  ask_question cfg srv self question top_k true
  = Ok (Answered q a refs ctx n) ->
  q = question /\ n = len refs /\
  n <= or_int top_k (MAX_RETRIEVAL_DOCS cfg) /\
  exists vs llm,
    vector_store self = Some vs /\ llm_client self = Some llm /\
    VectorStore.search vs question (or_int top_k (MAX_RETRIEVAL_DOCS cfg))
    = Ok refs /\
    ((refs = [] /\ ctx = [] /\
      (ZhipuAIClient.chat srv llm question None None).1 = Ok a) \/
     (refs <> [] /\ ctx <> [] /\ ctx = context_of refs /\
      (ZhipuAIClient.rag_chat srv llm question ctx None).1 = Ok a)).
Proof.
  intros A. apply ask_question_ok, answer_with_ok in A
    as (vs & llm & found & text & V & L & S & G & E).
  rewrite andb_true_r in G, E. injection E as -> -> -> -> ->.
  split; [reflexivity|]. split; [reflexivity|].
  split; [now apply (search_length_le vs question)|].
  exists vs, llm. repeat split; try assumption.
  destruct (truthy found) eqn:T.
  - right. apply truthy_true in T.
    repeat split; [exact T | now apply context_nonempty | exact G].
  - left. apply truthy_false in T. auto.
Qed.

End AnswerExtras.

(** ** The further properties at concrete inputs *)

Section FurtherExamples.

Import DocumentProcessor DocumentLoader RAGLifecycle Examples Corpus.

Lemma load_documents_skips_unreadable_witness :
  load_documents (Listing ([alpha_txt] ++ locked_txt :: []))
  = load_documents (Listing ([alpha_txt] ++ [])).
Proof.
  apply (load_documents_skips_unreadable [alpha_txt] [] locked_txt
           (OSError "documents/locked.txt") (OSError "documents/locked.txt"));
    reflexivity.
Defined.

Lemma loaded_documents_give_chunks_witness :
  exists documents,
    load_documents (docs_dir env) = Ok documents /\
    len documents <= len (split_documents 20 0 documents).
Proof.
  eexists. split; [reflexivity|].
  apply (loaded_documents_give_chunks 20 0 (docs_dir env)). reflexivity.
Defined.

Lemma search_returns_stored_chunks_witness :
  exists results,
    VectorStore.search (built toy_model) (py "alpha") 2 = Ok results /\
    Forall (fun r => VectorStore.hit_chunk r
                     ∈ VectorStore.chunks (built toy_model)) results.
Proof.
  eexists. split; [vm_compute; reflexivity|].
  apply (search_returns_stored_chunks (built toy_model) (py "alpha") 2).
  vm_compute. reflexivity.
Defined.

Lemma build_index_replaces_witness :
  VectorStore.build_index true two_chunks old_store
  = (built toy_model, Ok tt) /\
  VectorStore.chunks (built toy_model) = two_chunks /\
  VectorStore.model (built toy_model)
  = VectorStore.model (VectorStore.init toy_model).
Proof.
  apply (build_index_replaces true two_chunks (VectorStore.init toy_model)
           (built toy_model) old_store); vm_compute; reflexivity.
Defined.

Lemma build_index_failure_state_witness :
  let self := VectorStore.init failing_model in
  let self' := (VectorStore.build_index true two_chunks self).1 in
  VectorStore.model self' = VectorStore.model self /\
  (VectorStore.chunks self' = VectorStore.chunks self \/
   VectorStore.chunks self' = two_chunks) /\
  (VectorStore.index self' = VectorStore.index self \/
   exists dimension, VectorStore.index self' = Some (Faiss.new dimension)) /\
  (true = false \/ VectorStore.model self = None -> self' = self).
Proof.
  apply (build_index_failure_state true two_chunks
           (VectorStore.init failing_model) _ (RuntimeError "out of memory")).
  vm_compute. reflexivity.
Defined.

Lemma index_round_trip_witness :
  exists other',
    VectorStore.load_index true
      (VectorStore.save_index (built toy_model) "store" empty_world).1
      "store" (VectorStore.init toy_model) = (other', Ok tt) /\
    VectorStore.index other' = VectorStore.index (built toy_model) /\
    VectorStore.chunks other' = VectorStore.chunks (built toy_model) /\
    forall query top_k,
      VectorStore.search other' query top_k
      = VectorStore.search (built toy_model) query top_k.
Proof.
  apply (index_round_trip (built toy_model) "store" empty_world _
           (VectorStore.init toy_model));
    [constructor | vm_compute; reflexivity | vm_compute; reflexivity].
Defined.

Lemma save_index_other_paths_witness :
  VectorStore.files
    (VectorStore.save_index (built toy_model) "backup" world_mismatched).1
    !! "store/chunks.pkl"
  = VectorStore.files world_mismatched !! "store/chunks.pkl".
Proof.
  apply (save_index_other_paths (built toy_model) "backup" "store/chunks.pkl");
    vm_compute; discriminate.
Defined.

Lemma search_best_first_witness :
  exists results,
    VectorStore.search (built toy_model) (py "alpha") 2 = Ok results /\
    Sorted (fun r r' => flt (VectorStore.similarity_score r)
                          (VectorStore.similarity_score r') = false)
      results.
Proof.
  apply (search_best_first (built toy_model) toy_model index_of_two);
    try reflexivity.
  - intros a b L. apply Z.ltb_lt in L. apply Z.ltb_ge. lia.
  - vm_compute. split; congruence.
Defined.

Lemma search_distinct_positions_witness :
  exists results labels,
    VectorStore.search (built toy_model) (py "alpha") 2 = Ok results /\
    NoDup labels /\ len labels = 2 /\
    Forall2 (fun i r =>
               0 <= i < len (VectorStore.chunks (built toy_model)) /\
               VectorStore.chunks (built toy_model) !! Z.to_nat i
               = Some (VectorStore.hit_chunk r))
      labels results.
Proof.
  apply (search_distinct_positions (built toy_model) toy_model index_of_two);
    try reflexivity.
  vm_compute. split; congruence.
Defined.

Lemma generate_response_answer_witness :
  trimmed (py "Paris.") /\
  exists (attempt : nat) status_code result,
    Z.of_nat attempt < ZhipuAIClient.max_retries (ZhipuAIClient.init (py "key")) /\
    recovering hello attempt
    = ZhipuAIClient.Response status_code (Some result) /\
    ZhipuAIClient.extract result = Ok (py "Paris.").
Proof.
  apply (generate_response_answer recovering (ZhipuAIClient.init (py "key"))
           hello (py "Paris.") 3).
  vm_compute. reflexivity.
Defined.

Lemma generate_response_wraps_request_exceptions_witness :
  ZhipuAIClient.generate_response down (ZhipuAIClient.init (py "key")) hello
  = (Raise (Exception_request_failed 3 (HTTPError 500)), 3%nat) /\
  Exception_request_failed 3 (HTTPError 500)
  <> RequestException (HTTPError 500).
Proof.
  assert (G : ZhipuAIClient.generate_response down
                (ZhipuAIClient.init (py "key")) hello
              = (Raise (Exception_request_failed 3 (HTTPError 500)), 3%nat))
    by (vm_compute; reflexivity).
  split; [exact G|].
  apply (generate_response_wraps_request_exceptions down
           (ZhipuAIClient.init (py "key")) hello _ 3 G).
Defined.


(** When faiss has lost the index at the close, the cold start returns
    [True] and the warm start on the files it left returns [False]. *)
Example initialize_warm_start_after_lost_index :
  (initialize small_config env true fresh_on_lossy_device).2 = true /\
  _index_exists small_config (disk restarted_on_lossy_device) = true /\
  (initialize small_config env false restarted_on_lossy_device).2 = false.
Proof. repeat split; vm_compute; reflexivity. Qed.

Lemma initialize_cold_start_witness :
  RAGSystem.is_initialized (self started) = true /\
  _index_exists small_config (disk started) = true /\
  exists documents vs,
    load_documents (docs_dir env) = Ok documents /\
    RAGSystem.vector_store (self started) = Some vs /\
    VectorStore.chunks vs = split_documents 20 0 documents /\
    consistent vs /\
    len (vectors vs) = len (VectorStore.chunks vs) /\
    1 <= len documents <= len (VectorStore.chunks vs).
Proof.
  apply (initialize_cold_start small_config env true fresh started).
  - left. reflexivity.
  - vm_compute. reflexivity.
Defined.


Lemma initialize_warm_start_ignores_documents_witness :
  initialize small_config env_without_documents false restarted
  = initialize small_config env false restarted.
Proof.
  apply (initialize_warm_start_ignores_documents small_config env
           env_without_documents restarted);
    [reflexivity | reflexivity | reflexivity | vm_compute; reflexivity].
Defined.

Lemma initialize_cold_then_warm_witness :
  exists s2',
    initialize small_config env false restarted = (s2', true) /\
    RAGSystem.vector_store (self s2') = RAGSystem.vector_store (self started) /\
    disk s2' = disk started.
Proof.
  apply (initialize_cold_then_warm small_config env true fresh started
           restarted).
  - constructor.
  - left. reflexivity.
  - vm_compute. reflexivity.
  - reflexivity.
Defined.

Lemma get_system_info_after_cold_start_witness :
  exists documents_count chunks_count,
    get_system_info small_config env started
    = Ok (Running documents_count chunks_count chunks_count 20 0 3) /\
    1 <= documents_count <= chunks_count.
Proof.
  apply (get_system_info_after_cold_start small_config env true fresh started).
  - left. reflexivity.
  - vm_compute. reflexivity.
Defined.

Lemma ask_question_without_references_witness :
  py "alpha?" = py "alpha?" /\
  ([] : list (VectorStore.hit Z)) = [] /\ ([] : str) = [] /\
  exists vs llm found,
    RAGSystem.vector_store ready = Some vs /\
    RAGSystem.llm_client ready = Some llm /\
    VectorStore.search vs (py "alpha?")
      (or_int None (MAX_RETRIEVAL_DOCS default_config)) = Ok found /\
    3 = len found /\
    (ZhipuAIClient.chat recovering llm (py "alpha?") None None).1
    = Ok (py "Paris.").
Proof.
  apply (ask_question_without_references default_config recovering ready
           (py "alpha?") None (py "alpha?") (py "Paris.") [] [] 3).
  vm_compute. reflexivity.
Defined.

Lemma ask_question_with_references_witness :
  exists q a refs ctx n,
    RAGSystem.ask_question default_config recovering ready (py "alpha?")
      (Some 2) true = Ok (RAGSystem.Answered q a refs ctx n) /\
    q = py "alpha?" /\ n = len refs /\ n <= 2.
Proof.
  do 5 eexists.
  match goal with
  | |- ?A /\ _ => assert (E : A) by (vm_compute; reflexivity)
  end.
  split; [exact E|].
  apply (ask_question_with_references default_config recovering ready) in E
    as (Q & N & Le & _).
  split; [exact Q|]. split; [exact N | exact Le].
Defined.

Lemma split_text_empty_iff_blank_witness :
  _split_text 10 0 (py "  ") = [].
Proof. apply (split_text_empty_iff_blank 10 0 (py "  ")). reflexivity. Defined.

Lemma split_documents_chunks_witness :
  {| file_name := py "alpha.txt"; content := py "beta comes second.";
     chunk_id := 1; type := py "txt" |}
  ∈ split_documents 20 0 [alpha_doc].
Proof.
  destruct (split_documents_chunks 20 0 [alpha_doc] []
              {| file_name := py "alpha.txt";
                 content := py "beta comes second.";
                 chunk_id := 1; type := py "txt" |}) as [[_ W] _].
  apply W. exists alpha_doc, 1%nat, (py "beta comes second.").
  split; [apply list_elem_of_singleton; reflexivity|].
  split; vm_compute; reflexivity.
Defined.

Lemma load_documents_contents_witness :
  trimmed (doc_content alpha_doc) /\ doc_content alpha_doc <> [] /\
  exists entries e,
    docs_dir env = Listing entries /\ e ∈ entries /\
    doc_file_name alpha_doc = name e /\
    ((doc_type alpha_doc = py "txt" /\ endswith (name e) (py ".txt") = true) \/
     (doc_type alpha_doc = py "pdf" /\ endswith (name e) (py ".pdf") = true /\
      endswith (name e) (py ".txt") = false)).
Proof.
  destruct (load_documents_contents (docs_dir env)) as (_ & _ & W).
  apply (W [alpha_doc] alpha_doc);
    [vm_compute; reflexivity | apply list_elem_of_singleton; reflexivity].
Defined.

Lemma generate_response_attempts_witness :
  (1 <= (ZhipuAIClient.generate_response recovering
           (ZhipuAIClient.init (py "key")) hello).2)%nat /\
  Z.of_nat (ZhipuAIClient.generate_response recovering
              (ZhipuAIClient.init (py "key")) hello).2 <= 3.
Proof.
  destruct (generate_response_attempts recovering
              (ZhipuAIClient.init (py "key")) hello) as [W _].
  apply W. vm_compute. congruence.
Defined.

Lemma generate_response_retries_witness :
  ZhipuAIClient.generate_response recovering (ZhipuAIClient.init (py "key"))
    hello = (Ok (py "Paris."), 3%nat).
Proof.
  destruct (generate_response_retries recovering
              (ZhipuAIClient.init (py "key")) hello) as [W _].
  apply (W 2%nat 200 (good_body " Paris. ") (py "Paris.")).
  - vm_compute. reflexivity.
  - intros [|[|i]] Hi; [vm_compute; discriminate.. | lia].
  - reflexivity.
  - lia.
  - vm_compute. reflexivity.
Defined.

Lemma extract_documented_reply_witness :
  ZhipuAIClient.extract (good_body " Paris. ") = Ok (strip (py " Paris. ")).
Proof.
  unfold good_body.
  match goal with
  | |- ZhipuAIClient.extract (JObj ?fields) = _ =>
      destruct (extract_documented_reply fields) as [W _]
  end.
  eapply W; reflexivity.
Defined.

Lemma ask_question_after_initialize_witness :
  RAGSystem.ask_question small_config recovering
    (self (initialize small_config env_without_key false fresh).1)
    (py "alpha?") None true = Ok RAGSystem.NotInitialized.
Proof.
  apply (ask_question_after_initialize small_config env_without_key recovering
           false fresh).
  reflexivity.
Defined.

End FurtherExamples.
